(** * Meal_plan_GenAI: nutrition targets, plan and grocery text parsing,
      image lookup

    Shallow embedding of the three Streamlit scripts of the repository
    ([meal_text.py], [ai_meal_pexels.py], [meal_hugging.py]).

    - Python [str] values are lists of Unicode code points.
    - Python [float] values are the kernel's binary64 floats; the
      arithmetic operators are the primitive IEEE 754 operations.
    - The [re] patterns of the scripts are data, run by a backtracking
      matcher that explores alternatives in the order of Python's engine.
    - Calls to external services thread an explicit world; an exception is
      a value of the result type. *)

From Stdlib Require Import ZArith NArith List Bool Lia String Ascii Floats.
Import ListNotations.

Set Warnings "-inexact-float".

(* ================================================================== *)
(** * Part I: definitions *)
(* ================================================================== *)

(** ** Text: Python [str] and the methods the scripts use *)

Module Text.

Definition char := N.
Definition str := list char.

(** ASCII literal as a sequence of code points. *)
Definition u (s : string) : str := List.map N_of_ascii (list_ascii_of_string s).

Definition NL : char := 10%N.
Definition CR : char := 13%N.
Definition SPACE : char := 32%N.
Definition HYPHEN : char := 45%N.
Definition ENDASH : char := 8211%N.

Definition between (lo hi c : N) : bool := ((lo <=? c) && (c <=? hi))%N.
Definition mem (c : char) (l : list char) : bool := existsb (N.eqb c) l.

(** [str.isspace] on one code point; also the class [\s] of a [str]
    pattern. *)
Definition isspace (c : char) : bool :=
  between 9 13 c || between 28 32 c || mem c [133; 160; 5760]%N
  || between 8192 8202 c || mem c [8232; 8233; 8239; 8287; 12288]%N.

(** Line boundaries of [str.splitlines]. *)
Definition islinebreak (c : char) : bool :=
  between 10 13 c || between 28 30 c || mem c [133; 8232; 8233]%N.

Definition isascii (c : char) : bool := (c <? 128)%N.

Fixpoint lstrip_by (p : char -> bool) (s : str) : str :=
  match s with
  | c :: s' => if p c then lstrip_by p s' else s
  | [] => []
  end.

Definition rstrip_by (p : char -> bool) (s : str) : str :=
  rev (lstrip_by p (rev s)).

(** [s.strip()] *)
Definition strip (s : str) : str := rstrip_by isspace (lstrip_by isspace s).

(** [s.lstrip(chars)] *)
Definition lstrip (chars : str) (s : str) : str :=
  lstrip_by (fun c => mem c chars) s.

(** [s.splitlines()]: [cur] is the current line, reversed. *)
Fixpoint splitlines_aux (cur : str) (s : str) : list str :=
  match s with
  | [] => match cur with [] => [] | _ :: _ => [rev cur] end
  | c :: s' =>
      if (c =? CR)%N then
        match s' with
        | d :: s'' =>
            if (d =? NL)%N then rev cur :: splitlines_aux [] s''
            else rev cur :: splitlines_aux [] s'
        | [] => [rev cur]
        end
      else if islinebreak c then rev cur :: splitlines_aux [] s'
      else splitlines_aux (c :: cur) s'
  end.

Definition splitlines (s : str) : list str := splitlines_aux [] s.

(** [sep.join(parts)] *)
Fixpoint join (sep : str) (parts : list str) : str :=
  match parts with
  | [] => []
  | [p] => p
  | p :: ps => p ++ sep ++ join sep ps
  end.

Fixpoint starts_with (p s : str) : bool :=
  match p, s with
  | [], _ => true
  | a :: p', b :: s' => (a =? b)%N && starts_with p' s'
  | _ :: _, [] => false
  end.

Fixpoint eqb (a b : str) : bool :=
  match a, b with
  | [], [] => true
  | x :: a', y :: b' => (x =? y)%N && eqb a' b'
  | _, _ => false
  end.

(** [s.split(sep)] for a non-empty separator: [skip] counts the characters
    of a separator still to be dropped, [cur] is the current part,
    reversed. *)
Fixpoint split_aux (sep : str) (s : str) (skip : nat) (cur : str) : list str :=
  match s with
  | [] => [rev cur]
  | c :: s' =>
      match skip with
      | S n => split_aux sep s' n cur
      | O =>
          if starts_with sep s
          then rev cur :: split_aux sep s' (List.length sep - 1) []
          else split_aux sep s' 0 (c :: cur)
      end
  end.

Definition split (sep : str) (s : str) : list str := split_aux sep s 0 [].

(** Indexing [parts[0]]; [split] never returns an empty list. *)
Definition first (parts : list str) : str := hd [] parts.

Definition ascii_lower (c : char) : char :=
  if between 65 90 c then (c + 32)%N else c.

(** [s.lower()].  On ASCII text it maps [A-Z] to [a-z]; the case mapping of
    other text comes from the Unicode database of the interpreter, which is
    not part of the repository and is taken as [unicode_lower]. *)
Definition lower (unicode_lower : str -> str) (s : str) : str :=
  if forallb isascii s then List.map ascii_lower s else unicode_lower s.

(** Truth value of a string: non-empty. *)
Definition truthy (s : str) : bool :=
  match s with [] => false | _ :: _ => true end.

End Text.

(** ** Re: the patterns of the scripts and a backtracking matcher *)

Module Re.
Import Text.

(** Character classes. *)
Inductive cclass :=
| CLit (c : char)          (* a literal character *)
| CSpace                   (* \s *)
| CDigit                   (* \d *)
| CDot                     (* .  (no DOTALL: anything but a newline) *)
| CSet (l : list char).    (* [...] *)

(** Quantifiers on one character class. *)
Inductive quant :=
| One                      (* x   *)
| Opt                      (* x?  *)
| Star                     (* x*  *)
| Plus                     (* x+  *)
| LazyStar                 (* x*? *)
| LazyPlus.                (* x+? *)

Inductive node :=
| Atom (q : quant) (c : cclass)
| GOpen                    (* ( *)
| GClose                   (* ) *)
| Look (l : list cclass).  (* (?=...) over one-character items *)

Definition regex := list node.

Definition clit (a : ascii) : cclass := CLit (N_of_ascii a).
Definition clits (s : string) : list cclass := List.map clit (list_ascii_of_string s).
Definition lit (a : ascii) : node := Atom One (clit a).
Definition lits (s : string) : regex := List.map lit (list_ascii_of_string s).

Section Matcher.

(** [\d] is the Unicode category Nd.  Its ASCII part is [0-9]; the rest of
    the table belongs to the interpreter and is taken as [Nd]. *)
Variable Nd : char -> bool.

Definition isdigit (c : char) : bool :=
  if isascii c then between 48 57 c else Nd c.

Definition cmatch (cl : cclass) (c : char) : bool :=
  match cl with
  | CLit a => (c =? a)%N
  | CSpace => isspace c
  | CDigit => isdigit c
  | CDot => negb (c =? NL)%N
  | CSet l => mem c l
  end.

Definition result : Type := list str * str.

(** Greedy repetition: take as many characters as possible, give back one
    at a time while the continuation fails. *)
Fixpoint greedy (p : char -> bool) (k : str -> option result) (s : str)
  : option result :=
  match s with
  | c :: s' =>
      if p c then
        match greedy p k s' with
        | Some r => Some r
        | None => k s
        end
      else k s
  | [] => k s
  end.

(** Lazy repetition: try the continuation first, take one more character
    only when it fails. *)
Fixpoint lazy (p : char -> bool) (k : str -> option result) (s : str)
  : option result :=
  match k s with
  | Some r => Some r
  | None =>
      match s with
      | c :: s' => if p c then lazy p k s' else None
      | [] => None
      end
  end.

(** The body of a lookahead: one character per class, nothing consumed. *)
Fixpoint look_ok (l : list cclass) (s : str) : bool :=
  match l, s with
  | [], _ => true
  | cl :: l', c :: s' => cmatch cl c && look_ok l' s'
  | _ :: _, [] => false
  end.

Definition one (p : char -> bool) (k : str -> option result) (s : str)
  : option result :=
  match s with
  | c :: s' => if p c then k s' else None
  | [] => None
  end.

(** [exec r s opens caps fin]: match [r] at the start of [s].  [opens] holds
    the input at each group still open, [caps] the groups closed so far
    (latest first); [fin] is the test on the remaining input at the end of
    the pattern.  The result is the groups in order and the input left. *)
Fixpoint exec (r : regex) (s : str) (opens : list str) (caps : list str)
         (fin : str -> bool) {struct r} : option result :=
  match r with
  | [] => if fin s then Some (rev caps, s) else None
  | GOpen :: r' => exec r' s (s :: opens) caps fin
  | GClose :: r' =>
      match opens with
      | o :: os =>
          exec r' s os (firstn (List.length o - List.length s) o :: caps) fin
      | [] => None
      end
  | Look la :: r' =>
      if look_ok la s then exec r' s opens caps fin else None
  | Atom q cl :: r' =>
      let k := fun s' => exec r' s' opens caps fin in
      let p := cmatch cl in
      match q with
      | One => one p k s
      | Opt =>
          match one p k s with
          | Some r => Some r
          | None => k s
          end
      | Star => greedy p k s
      | Plus => one p (greedy p k) s
      | LazyStar => lazy p k s
      | LazyPlus => one p (lazy p k) s
      end
  end.

(** One attempt at a position: the matched text, the groups and the rest.
    With [must_advance] an empty match is refused. *)
Definition match_at (r : regex) (s : str) (must_advance : bool)
  : option (str * list str * str) :=
  match exec r s [] []
          (fun rest => negb must_advance || (List.length rest <? List.length s)) with
  | Some (gs, rest) => Some (firstn (List.length s - List.length rest) s, gs, rest)
  | None => None
  end.

(** [re.match(r, s)]: the groups of a match at the start of [s]. *)
Definition re_match (r : regex) (s : str) : option (list str) :=
  match match_at r s false with
  | Some (_, gs, _) => Some gs
  | None => None
  end.

Record rmatch := { m_pre : str; m_text : str; m_groups : list str }.

(** The successive non-overlapping matches of [r] in [s], left to right,
    each with the text between it and the match before, and the text after
    the last one.  [skip] counts the characters of the current match still
    to be passed, [gap] is the unmatched text since the last match,
    reversed.  After an empty match the engine tries again at the same
    position for a match that advances, then moves on. *)
Fixpoint scan (r : regex) (s : str) (skip : nat) (gap : str)
  : list rmatch * str :=
  match skip with
  | S n =>
      match s with
      | [] => ([], rev gap)
      | _ :: s' => scan r s' n gap
      end
  | O =>
      match match_at r s false with
      | Some (txt, gs, _) =>
          let m := {| m_pre := rev gap; m_text := txt; m_groups := gs |} in
          match txt with
          | _ :: _ =>
              match s with
              | [] => ([m], [])
              | _ :: s' =>
                  let (ms, tl) := scan r s' (List.length txt - 1) [] in
                  (m :: ms, tl)
              end
          | [] =>
              match match_at r s true with
              | Some (txt', gs', _) =>
                  let m' := {| m_pre := []; m_text := txt'; m_groups := gs' |} in
                  match s with
                  | [] => ([m; m'], [])
                  | _ :: s' =>
                      let (ms, tl) := scan r s' (List.length txt' - 1) [] in
                      (m :: m' :: ms, tl)
                  end
              | None =>
                  match s with
                  | [] => ([m], [])
                  | c :: s' =>
                      let (ms, tl) := scan r s' 0 [c] in
                      (m :: ms, tl)
                  end
              end
          end
      | None =>
          match s with
          | [] => ([], rev gap)
          | c :: s' => scan r s' 0 (c :: gap)
          end
      end
  end.

Definition finditer (r : regex) (s : str) : list rmatch :=
  fst (scan r s 0 []).

(** [re.findall(r, s)] for a pattern without groups: the matched texts. *)
Definition findall0 (r : regex) (s : str) : list str :=
  List.map m_text (finditer r s).

(** [re.findall(r, s)] for a pattern with two groups: the pairs. *)
Definition findall2 (r : regex) (s : str) : list (str * str) :=
  List.map (fun m => (nth 0 (m_groups m) [], nth 1 (m_groups m) []))
           (finditer r s).

(** [re.split(r, s)]: the texts between the matches, each followed by the
    groups of the match, and the text after the last match. *)
Definition re_split (r : regex) (s : str) : list str :=
  let (ms, tl) := scan r s 0 [] in
  flat_map (fun m => m_pre m :: m_groups m) ms ++ [tl].

End Matcher.

End Re.

(** ** Eff: state and exceptions of the effectful code *)

Module Eff.

(** The exceptions the modelled code can meet. *)
Inductive exn :=
| RequestException         (* raised by [requests.get] / [requests.post] *)
| DecodeError.             (* raised while reading a response body *)

Inductive outcome (A : Type) :=
| Ok (a : A)
| Raised (e : exn).
Arguments Ok {A} a.
Arguments Raised {A} e.

(** A computation over a state [S] that returns or raises. *)
Definition M (S A : Type) : Type := S -> outcome A * S.

Definition ret {S A} (a : A) : M S A := fun s => (Ok a, s).
Definition raise {S A} (e : exn) : M S A := fun s => (Raised e, s).
Definition bind {S A B} (c : M S A) (k : A -> M S B) : M S B :=
  fun s =>
    match c s with
    | (Ok a, s') => k a s'
    | (Raised e, s') => (Raised e, s')
    end.

(** [try: c except Exception as e: h e] *)
Definition try_except {S A} (c : M S A) (h : exn -> M S A) : M S A :=
  fun s =>
    match c s with
    | (Ok a, s') => (Ok a, s')
    | (Raised e, s') => h e s'
    end.

Definition get {S} : M S S := fun s => (Ok s, s).
Definition modify {S} (f : S -> S) : M S unit := fun s => (Ok tt, f s).

(** [for x in xs: body x] *)
Fixpoint for_each {S A} (body : A -> M S unit) (xs : list A) : M S unit :=
  match xs with
  | [] => ret tt
  | x :: xs' => bind (body x) (fun _ => for_each body xs')
  end.

Definition raises {A} (o : outcome A) : bool :=
  match o with Ok _ => false | Raised _ => true end.

End Eff.

Declare Scope eff_scope.
Delimit Scope eff_scope with eff.
Notation "x <- c ;; k" := (Eff.bind c (fun x => k))
  (at level 61, c at next level, right associativity) : eff_scope.
Notation "c ;;; k" := (Eff.bind c (fun _ => k))
  (at level 61, right associativity) : eff_scope.

(** ** PyFloat: Python numbers on top of the binary64 primitives *)

Module PyFloat.
Local Open Scope Z_scope.

(** [float(z)] for a Python [int]: exact when [|z| < 2^53]; the integers of
    the scripts are ages and percentages. *)
Definition of_int (z : Z) : float :=
  if z <? 0 then PrimFloat.opp (of_uint63 (Uint63.of_Z (- z)))
  else of_uint63 (Uint63.of_Z z).

(** Every finite binary64 number is a whole number of units of [2^-1074].
    [units m e] is the magnitude [m * 2^e] in these units. *)
Definition units (m : positive) (e : Z) : Z := Z.pos m * 2 ^ (e + 1074).

(** The integer nearest to [n / d], ties to even. *)
Definition rne_div (n d : Z) : Z :=
  let q := n / d in
  match 2 * (n mod d) ?= d with
  | Lt => q
  | Gt => q + 1
  | Eq => if Z.even q then q else q + 1
  end.

(** The binary64 number nearest to [n / d] units, ties to even, as a
    mantissa [M <= 2^53] and a shift [k]: [M * 2^k] units. *)
Definition nearest (n d : Z) : Z * Z :=
  let k := Z.max (Z.log2 (n / d) + 1 - 53) 0 in
  (rne_div n (d * 2 ^ k), k).

Definition SF_of_units (s : bool) (Mk : Z * Z) : spec_float :=
  let (M, k) := Mk in
  if M =? 0 then S754_zero s
  else
    let (M', k') := if M =? 2 ^ 53 then (2 ^ 52, k + 1) else (M, k) in
    if k' - 1074 <=? 971 then S754_finite s (Z.to_pos M') (k' - 1074)
    else S754_infinity s.

(** [round(x, 1)] on a float.  CPython rounds the exact value of [x] to one
    decimal, ties to even, and returns the float nearest to that decimal
    ([float.__round__] through the correctly rounded conversions of
    dtoa.c); infinities and NaN are returned unchanged. *)
Definition round1_SF (x : spec_float) : spec_float :=
  match x with
  | S754_finite s m e =>
      let tenths := rne_div (10 * units m e) (2 ^ 1074) in
      SF_of_units s (nearest (tenths * 2 ^ 1074) 10)
  | _ => x
  end.

Definition round1 (x : float) : float := SF2Prim (round1_SF (Prim2SF x)).

End PyFloat.

(** ** FloatOrder: the order of binary64 floats, in units *)

Module FloatOrder.
Import PyFloat.
Local Open Scope Z_scope.

(** The magnitude of [(M, k)] in units. *)
Definition value (Mk : Z * Z) : Z := fst Mk * 2 ^ snd Mk.

(** A number above every finite binary64 magnitude (they are below
    [2^2098] units), standing for infinity in the order. *)
Definition INF : Z := 2 ^ 2200.

Definition capped (v : Z) : Z := if v <? 2 ^ 2098 then v else INF.

(** The position of a float on the line of the order, in units; NaN has
    none and is given 0. *)
Definition ord (x : spec_float) : Z :=
  match x with
  | S754_zero _ => 0
  | S754_infinity s => if s then - INF else INF
  | S754_nan => 0
  | S754_finite s m e => if s then - units m e else units m e
  end.

Definition is_nan (x : spec_float) : bool :=
  match x with S754_nan => true | _ => false end.

Definition signed (s : bool) (v : Z) : Z := if s then - v else v.

(** A map of magnitudes extended to both signs. *)
Definition odd_ext (g : Z -> Z) (v : Z) : Z :=
  if v <? 0 then - g (- v) else g v.

(** The place of the float nearest to [n / d] units. *)
Definition place (n d : Z) : Z := capped (value (nearest n d)).

(** The place of the product of the magnitude [u] by the float
    [mc * 2^-52]. *)
Definition times_place (mc : positive) (u : Z) : Z :=
  place (u * Z.pos mc) (2 ^ 52).

(** The place of the magnitude [u] rounded to one decimal. *)
Definition round1_place (u : Z) : Z :=
  place (rne_div (10 * u) (2 ^ 1074) * 2 ^ 1074) 10.

End FloatOrder.

(** ** The user profile read by the sidebar of the three scripts *)

Module Profile.

(** The widgets return Python values: [int] for the age and the body fat
    percentage, [float] for weight and height, the selected option label
    for the others. *)
Record profile := {
  age : Z;
  gender : string;
  weight : float;
  height : float;
  body_fat_percent : Z;
  activity_level : string;
  goal : string
}.

Definition genders : list string := ["Male"; "Female"; "Other"]%string.
Definition goals : list string :=
  ["Fat Loss"; "Muscle Gain"; "Maintain Weight"]%string.

Definition in_options (x : string) (options : list string) : bool :=
  existsb (String.eqb x) options.

(** [d[key]] on a dict given as its items; [None] is a [KeyError]. *)
Fixpoint lookup (key : string) (d : list (string * float)) : option float :=
  match d with
  | [] => None
  | (k, v) :: d' => if String.eqb key k then Some v else lookup key d'
  end.

End Profile.

(** ** meal_text.py *)

Module MealText.
Import Profile.
Local Open Scope float_scope.

Definition activity_levels : list string :=
  ["Sedentary"; "Light"; "Moderate"; "Active"]%string.

(** The values the sidebar can produce (lines 26-34). *)
Definition valid (p : profile) : bool :=
  ((1 <=? age p) && (age p <=? 120))%Z
  && in_options (gender p) genders
  && (10.0 <=? weight p) && (100.0 <=? height p)
  && in_options (activity_level p) activity_levels
  && in_options (goal p) goals.

(** Lines 37-42. *)
Definition bmr (p : profile) : float :=
  if String.eqb (gender p) "Male" then
    10 * weight p + 6.25 * height p - PyFloat.of_int (5 * age p) + 5
  else if String.eqb (gender p) "Female" then
    10 * weight p + 6.25 * height p - PyFloat.of_int (5 * age p) - 161
  else
    10 * weight p + 6.25 * height p - PyFloat.of_int (5 * age p).

(** Lines 44-49. *)
Definition activity_factors : list (string * float) :=
  [("Sedentary", 1.2); ("Light", 1.375); ("Moderate", 1.55);
   ("Active", 1.725)]%string.

(** Line 50. *)
Definition tdee (p : profile) : option float :=
  match lookup (activity_level p) activity_factors with
  | Some factor => Some (bmr p * factor)
  | None => None
  end.

(** Lines 51-54. *)
Definition calorie_goal (p : profile) : option float :=
  match tdee p with
  | Some t => Some (if String.eqb (goal p) "Fat Loss" then t * 0.7 else t)
  | None => None
  end.

End MealText.

(** ** ai_meal_pexels.py *)

Module AiMealPexels.
Import Text Re Eff.

(** *** Sidebar: nutrition targets (lines 56-94) *)

Section Targets.
Import Profile.
Local Open Scope float_scope.

Definition activity_levels : list string :=
  ["Sedentary"; "Light"; "Moderate"; "Active"; "Extra_Active"]%string.

(** The values the sidebar can produce (lines 58-67). *)
Definition valid (p : profile) : bool :=
  ((1 <=? age p) && (age p <=? 120))%Z
  && in_options (gender p) genders
  && (10.0 <=? weight p) && (100.0 <=? height p)
  && ((5 <=? body_fat_percent p) && (body_fat_percent p <=? 50))%Z
  && in_options (activity_level p) activity_levels
  && in_options (goal p) goals.

(** Lines 71-76. *)
Definition bmr (p : profile) : float :=
  if String.eqb (gender p) "Male" then
    (10 * weight p) + (6.25 * height p) - PyFloat.of_int (5 * age p) + 5
  else if String.eqb (gender p) "Female" then
    (10 * weight p) + (6.25 * height p) - PyFloat.of_int (5 * age p) - 161
  else
    10 * weight p + 6.25 * height p - PyFloat.of_int (5 * age p).

(** Lines 78-84. *)
Definition activity_factors : list (string * float) :=
  [("Sedentary", 1.2); ("Light", 1.375); ("Moderate", 1.55);
   ("Active", 1.725); ("Extra_Active", 1.9)]%string.

(** Line 86. *)
Definition tdee (p : profile) : option float :=
  match lookup (activity_level p) activity_factors with
  | Some factor => Some (bmr p * factor)
  | None => None
  end.

(** Line 87. *)
Definition calorie_goal (p : profile) : option float :=
  match tdee p with
  | Some t => Some (if String.eqb (goal p) "Fat Loss" then t * 0.7 else t)
  | None => None
  end.

(** Lines 88-90. *)
Definition fat_percent (p : profile) : float :=
  PyFloat.of_int (body_fat_percent p) / 100.

Definition lbm_kg (p : profile) : float := weight p * (1 - fat_percent p).

Definition protein_target (p : profile) : float :=
  PyFloat.round1 (lbm_kg p * 1.8).

End Targets.

(** *** Plan text: day segments and meals (lines 141-166) *)

(** The pattern [Day\s*\d]. *)
Definition day_token_re : regex :=
  lits "Day" ++ [Atom Star CSpace; Atom One CDigit].

(** The pattern [(?=Day \d)]. *)
Definition day_split_re : regex :=
  [Look (clits "Day " ++ [CDigit])].

(** The pattern [\*\*(.*?)\*\*:?\s*] followed by the group of [.*]. *)
Definition meal_re : regex :=
  lits "**" ++ [GOpen; Atom LazyStar CDot; GClose] ++ lits "**"
  ++ [Atom Opt (clit ":"); Atom Star CSpace; GOpen; Atom Star CDot; GClose].

(** What one iteration of the loop over the segments computes before it
    renders: the heading and the (meal type, description) pairs. *)
Record DayPlan := { heading : str; content : str; meals : list (str * str) }.

Section Plan.
Variable Nd : char -> bool.

Definition segments (plan : str) : list str :=
  re_split Nd day_split_re (strip plan).

(** [None] is the [continue] of a segment without lines. *)
Definition parse_day (day_text : str) : option DayPlan :=
  match splitlines (strip day_text) with
  | [] => None
  | l0 :: rest =>
      let body := join [NL] rest in
      Some {| heading := strip l0; content := body;
              meals := findall2 Nd meal_re body |}
  end.

Fixpoint keep_some {A} (l : list (option A)) : list A :=
  match l with
  | [] => []
  | Some a :: l' => a :: keep_some l'
  | None :: l' => keep_some l'
  end.

Definition parse_plan (plan : str) : list DayPlan :=
  keep_some (List.map parse_day (segments plan)).

(** The meals that are rendered: [if meal_desc:]. *)
Definition entries (d : DayPlan) : list (str * str) :=
  filter (fun m => truthy (snd m)) (meals d).

(** The matches of [day_token_re] in the plan; their number is compared
    with 7. *)
Definition day_tokens (plan : str) : list str := findall0 Nd day_token_re plan.

Definition short_plan (plan : str) : bool :=
  (List.length (day_tokens plan) <? 7)%nat.

End Plan.

(** *** Pexels image search (lines 22-49) *)

Section Images.

(** The outside world: the environment variable and the HTTP service. *)
Variable World : Type.

(** What [requests.get] does: it raises, or it returns a response with a
    status code and a body.  The body is [None] when it cannot be read as
    JSON with a ["photos"] list, otherwise the ["src"]["medium"] URL of
    each photo. *)
Inductive reply :=
| Fails
| Response (status_code : Z) (photos : option (list str)).

Variable getenv_PEXELS_API_KEY : World -> option str.
Variable requests_get : World -> str -> reply * World.
Variable unicode_lower : str -> str.

Inductive ui :=
| st_warning (msg : str)
| st_subheader (text : str)
| st_expander (label : str)
| st_image (url : str)
| st_markdown (text : str)
| st_error (e : exn).

(** The state threaded through the script: the world, the queries sent to
    the image service so far and the elements written to the page (both
    latest first). *)
Record state := { world : World; queries : list str; page : list ui }.

Definition set_page (p : list ui) (st : state) : state :=
  {| world := world st; queries := queries st; page := p |}.

Definition emit (x : ui) : M state unit :=
  modify (fun st => set_page (x :: page st) st).

Definition http_get (query : str) : M state reply :=
  fun st =>
    let (r, w) := requests_get (world st) query in
    (Ok r, {| world := w; queries := query :: queries st; page := page st |}).

Definition simplify (text : str) : str :=
  strip (first (split (u "with") (first (split (u ",") (lower unicode_lower text))))).

Definition truthy_opt (r : option str) : bool :=
  match r with Some s => truthy s | None => false end.

Definition call_pexels_api (query : str) : M state (option str) :=
  (st <- get ;;
   if truthy_opt (getenv_PEXELS_API_KEY (world st)) then
     response <- http_get query ;;
     match response with
     | Fails => raise RequestException
     | Response status_code body =>
         if (status_code =? 200)%Z then
           match body with
           | None => raise DecodeError
           | Some [] => ret None
           | Some (medium :: _) => ret (Some medium)
           end
         else ret None
     end
   else ret None)%eff.

Fixpoint search_loop (fallback_queries : list str) : M state (option str) :=
  match fallback_queries with
  | [] => ret None
  | q :: qs =>
      (result <- call_pexels_api q ;;
       if truthy_opt result then ret result else search_loop qs)%eff
  end.

Definition fallback_queries (meal_name : str) : list str :=
  [meal_name; simplify meal_name; u "healthy food"].

Definition search_pexels (meal_name : str) : M state (option str) :=
  search_loop (fallback_queries meal_name).

Definition get_meal_image (meal_name : str) : M state (option str) :=
  search_pexels meal_name.

(** *** Display of the plan (lines 127-166, 223-224) *)

Variable Nd : char -> bool.

Definition warning_text : str :=
  u "The model did not generate a full 7-day plan. Try regenerating".
Definition plan_title : str := 128197%N :: u " Your 7-Day Diet Plan".
Definition no_image_text : str := 128683%N :: u " No image found".

Definition show_meal (m : str * str) : M state unit :=
  let (meal_type, meal_desc) := m in
  if truthy meal_desc then
    (image_url <- get_meal_image meal_desc ;;
     match image_url with
     | Some (c :: url) => emit (st_image (c :: url))
     | _ => emit (st_markdown no_image_text)
     end ;;;
     emit (st_markdown (u "**" ++ meal_type ++ u ":** " ++ meal_desc)))%eff
  else ret tt.

Definition show_day (d : DayPlan) : M state unit :=
  (emit (st_expander (heading d)) ;;; for_each show_meal (meals d))%eff.

Definition show_plan (plan : str) : M state unit :=
  ((if short_plan Nd plan then emit (st_warning warning_text) else ret tt) ;;;
   emit (st_subheader plan_title) ;;;
   for_each show_day (parse_plan Nd plan))%eff.

(** The [try] block of the button handler from the point where the two
    responses are combined; [grocery] is the rest of the block. *)
Definition generate (plan : str) (grocery : M state unit) : M state unit :=
  try_except (show_plan plan ;;; grocery)%eff (fun e => emit (st_error e)).

End Images.

Arguments world {World} _.
Arguments queries {World} _.
Arguments page {World} _.
Arguments set_page {World} _ _.

(** *** Grocery list (lines 188-209; the same function is in meal_text.py,
        lines 124-145) *)

(** The pattern [##\s*]. *)
Definition section_re : regex :=
  lits "##" ++ [Atom Star CSpace].

(** The pattern [-\s*(.+?)\s*[\u2013-]\s*(.+)]: the set holds the en dash
    and the hyphen. *)
Definition item_re : regex :=
  [lit "-"; Atom Star CSpace; GOpen; Atom LazyPlus CDot; GClose;
   Atom Star CSpace; Atom One (CSet [ENDASH; HYPHEN]); Atom Star CSpace;
   GOpen; Atom Plus CDot; GClose].

Record GroceryItem := { Category : str; Item : str; Quantity : str }.

Section Grocery.
Variable Nd : char -> bool.

(** The body of the inner loop: one row per item line. *)
Definition grocery_row (category : str) (item : str) : GroceryItem :=
  match re_match Nd item_re item with
  | Some gs =>
      {| Category := category; Item := strip (nth 0 gs []);
         Quantity := strip (nth 1 gs []) |}
  | None =>
      {| Category := category; Item := lstrip (u "- ") (strip item);
         Quantity := [] |}
  end.

(** The body of the outer loop.  A section that is not blank has a first
    line, so [lines[0]] is defined (lemma [splitlines_strip_cons]). *)
Definition section_rows (section : str) : list GroceryItem :=
  if truthy (strip section) then
    match splitlines (strip section) with
    | [] => []
    | l0 :: items => List.map (grocery_row (strip l0)) items
    end
  else [].

Definition parse_grocery_list (text : str) : list GroceryItem :=
  flat_map section_rows (re_split Nd section_re text).

End Grocery.

End AiMealPexels.

(** ** meal_hugging.py *)

Module MealHugging.
Import Text Re Eff.

(** *** Sidebar: nutrition targets (lines 54-92) *)

Section Targets.
Import Profile.
Local Open Scope float_scope.

Definition activity_levels : list string :=
  ["Sedentary"; "Light"; "Moderate"; "Active"]%string.

(** The values the sidebar can produce (lines 56-65). *)
Definition valid (p : profile) : bool :=
  ((1 <=? age p) && (age p <=? 120))%Z
  && in_options (gender p) genders
  && (30.0 <=? weight p) && (100.0 <=? height p)
  && ((5 <=? body_fat_percent p) && (body_fat_percent p <=? 50))%Z
  && in_options (activity_level p) activity_levels
  && in_options (goal p) goals.

(** Lines 70-75. *)
Definition bmr (p : profile) : float :=
  if String.eqb (gender p) "Male" then
    10 * weight p + 6.25 * height p - PyFloat.of_int (5 * age p) + 5
  else if String.eqb (gender p) "Female" then
    10 * weight p + 6.25 * height p - PyFloat.of_int (5 * age p) - 161
  else
    10 * weight p + 6.25 * height p - PyFloat.of_int (5 * age p).

(** Lines 77-82. *)
Definition activity_factors : list (string * float) :=
  [("Sedentary", 1.2); ("Light", 1.375); ("Moderate", 1.55);
   ("Active", 1.725)]%string.

(** Line 84. *)
Definition tdee (p : profile) : option float :=
  match lookup (activity_level p) activity_factors with
  | Some factor => Some (bmr p * factor)
  | None => None
  end.

(** Line 85. *)
Definition calorie_goal (p : profile) : option float :=
  match tdee p with
  | Some t => Some (if String.eqb (goal p) "Fat Loss" then t * 0.7 else t)
  | None => None
  end.

(** Lines 87-88. *)
Definition lbm_kg (p : profile) : float :=
  weight p * (1 - PyFloat.of_int (body_fat_percent p) / 100).

Definition protein_target (p : profile) : float :=
  PyFloat.round1 (lbm_kg p * 1.8).

End Targets.

(** *** Image generation (lines 30-44) *)

Section Images.

Variable World : Type.
Variable image : Type.

(** What [requests.post] does: it raises, or it returns a response with a
    status code and a content.  [decoded] is the image that [Image.open]
    reads from the content, [None] when it raises. *)
Inductive reply :=
| Fails
| Response (status_code : Z) (decoded : option image).

Variable requests_post : World -> str -> reply * World.

(** The state: the world, the prompts posted so far (latest first) and
    the entries of the cache of [st.cache_data]. *)
Record state := {
  world : World;
  posts : list str;
  cache : list (str * option image)
}.

Definition http_post (prompt : str) : M state reply :=
  fun st =>
    let (r, w) := requests_post (world st) prompt in
    (Ok r, {| world := w; posts := prompt :: posts st; cache := cache st |}).

Definition print_error : M state unit := ret tt.

(** The function body, lines 32-44. *)
Definition generate_meal_image_body (prompt : str) : M state (option image) :=
  try_except
    (response <- http_post prompt ;;
     match response with
     | Fails => raise RequestException
     | Response status_code decoded =>
         if (status_code =? 200)%Z then
           match decoded with
           | Some img => ret (Some img)
           | None => raise DecodeError
           end
         else ret None
     end)%eff
    (fun e => print_error ;;; ret None)%eff.

Fixpoint cache_lookup (prompt : str) (c : list (str * option image))
  : option (option image) :=
  match c with
  | [] => None
  | (k, v) :: c' =>
      if Text.eqb k prompt then Some v else cache_lookup prompt c'
  end.

(** The function as decorated by [st.cache_data]: a value computed for a
    prompt is stored and returned for the same prompt later. *)
Definition generate_meal_image (prompt : str) : M state (option image) :=
  (st <- get ;;
   match cache_lookup prompt (cache st) with
   | Some v => ret v
   | None =>
       v <- generate_meal_image_body prompt ;;
       modify (fun st' => {| world := world st'; posts := posts st';
                             cache := (prompt, v) :: cache st' |}) ;;;
       ret v
   end)%eff.

End Images.

(** *** Plan text: day segments (lines 132-137) *)

(** The pattern [(?=Day \d)\s*]. *)
Definition day_split_re : regex :=
  [Look (clits "Day " ++ [CDigit]); Atom Star CSpace].

Record DayPlan := { heading : str; content : list str }.

Section Plan.
Variable Nd : char -> bool.

Definition segments (full_plan : str) : list str :=
  re_split Nd day_split_re full_plan.

(** [None] is the [continue] of a segment without lines. *)
Definition parse_day (day : str) : option DayPlan :=
  match splitlines (strip day) with
  | [] => None
  | l0 :: rest => Some {| heading := l0; content := rest |}
  end.

Definition parse_plan (full_plan : str) : list DayPlan :=
  AiMealPexels.keep_some (List.map parse_day (segments full_plan)).

End Plan.

End MealHugging.

(** ** Reference readings and sample inputs used by the statements *)

Module Reference.
Import Text Re.

(** Splitting before every position where [P] holds of the remaining text:
    the mark stays with the segment that follows it.  [gap] is the current
    segment, reversed. *)
Fixpoint split_before (P : str -> bool) (s : str) (gap : str) : list str :=
  match s with
  | [] => [rev gap]
  | c :: s' =>
      if P s then rev gap :: split_before P s' [c]
      else split_before P s' (c :: gap)
  end.

(** A text that begins with a day heading: the letters of [Day], one
    space, one digit. *)
Definition begins_with_day (Nd : char -> bool) (s : str) : bool :=
  look_ok Nd (clits "Day " ++ [CDigit]) s.

Definition is_dash (c : char) : bool := mem c [ENDASH; HYPHEN].

Definition blank (s : str) : bool := forallb isspace s.

Definition lines (ls : list str) : str := join [NL] ls.

(** The text before the first occurrence of [sep], the whole text when
    there is none. *)
Fixpoint before (sep s : str) : str :=
  match s with
  | [] => []
  | c :: s' => if starts_with sep s then [] else c :: before sep s'
  end.

Definition str_eq_dec : forall a b : str, {a = b} + {a <> b} :=
  list_eq_dec N.eq_dec.

(** The distinct day tokens of a plan, as the spec counts them. *)
Definition distinct_day_tokens (Nd : char -> bool) (plan : str) : list str :=
  nodup str_eq_dec (AiMealPexels.day_tokens Nd plan).

Definition is_warning (x : AiMealPexels.ui) : bool :=
  match x with AiMealPexels.st_warning _ => true | _ => false end.

(** The warnings on a page. *)
Definition warnings (p : list AiMealPexels.ui) : list AiMealPexels.ui :=
  filter is_warning p.

Definition no_newline (s : str) : bool := forallb (fun c => negb (c =? NL)%N) s.
Definition no_dash (s : str) : bool := forallb (fun c => negb (is_dash c)) s.

(** The matcher on the item pattern of the grocery list, written out: the
    run of [exec] on [AiMealPexels.item_re] (lemma [item_exec_eq]).  [s0]
    and [s4] are the inputs where the two groups open, [s1] and [s5] where
    they close. *)
Section ItemPattern.
Variable Nd : char -> bool.

Definition item_k4 (s0 s1 : str) : str -> option result :=
  fun s4 =>
    one (cmatch Nd CDot)
      (greedy (cmatch Nd CDot)
         (fun s5 =>
            Some ([firstn (List.length s0 - List.length s1) s0;
                   firstn (List.length s4 - List.length s5) s4], s5)))
      s4.

Definition item_k1 (s0 : str) : str -> option result :=
  fun s1 =>
    greedy (cmatch Nd CSpace)
      (one (cmatch Nd (CSet [ENDASH; HYPHEN]))
         (greedy (cmatch Nd CSpace) (item_k4 s0 s1)))
      s1.

Definition item_k0 : str -> option result :=
  fun s0 => one (cmatch Nd CDot) (lazy (cmatch Nd CDot) (item_k1 s0)) s0.

Definition item_exec (item : str) : option result :=
  one (cmatch Nd (CLit HYPHEN)) (greedy (cmatch Nd CSpace) item_k0) item.

End ItemPattern.

End Reference.

Module Samples.
Import Text Reference Profile.

Definition plan_two_days : str :=
  lines [u "Day 1"; u "**Breakfast**: Oats"; u "**Lunch**: Salad";
         u "Day 2"; u "**Breakfast**: Eggs"].

Definition plan_with_preamble : str :=
  lines [u "Here is your plan"; u "Day 1"; u "**Breakfast**: Oats"].

Definition grocery_two_sections : str :=
  lines [u "## Vegetables"; u "- Carrot " ++ ENDASH :: u " 200g";
         u "## Fruits"; u "- Apple"].

Definition plan_day1_seven_times : str :=
  u "Day 1 Day 1 Day 1 Day 1 Day 1 Day 1 Day 1".

(** A world for the image search: the number of requests made so far.
    The key is set; the first two requests are answered 404, the later
    ones 200 with one photo. *)
Definition third_request_succeeds (w : nat) (query : str)
  : AiMealPexels.reply * nat :=
  (if (w <? 2)%nat then AiMealPexels.Response 404 None
   else AiMealPexels.Response 200 (Some [u "https://images.example/3.jpg"]),
   S w).

(** A world where the key is set and every request raises. *)
Definition every_request_fails (w : nat) (query : str)
  : AiMealPexels.reply * nat :=
  (AiMealPexels.Fails, S w).

Definition key_set (w : nat) : option str := Some (u "secret").
Definition key_unset (w : nat) : option str := None.

Definition fresh : AiMealPexels.state nat :=
  {| AiMealPexels.world := 0%nat; AiMealPexels.queries := [];
     AiMealPexels.page := [] |}.

Definition male_20_60_170 : profile :=
  {| age := 20; gender := "Male"; weight := 60.0; height := 170.0;
     body_fat_percent := 10; activity_level := "Sedentary";
     goal := "Fat Loss" |}.

Definition male_20_50_170 : profile :=
  {| age := 20; gender := "Male"; weight := 50.0; height := 170.0;
     body_fat_percent := 10; activity_level := "Sedentary";
     goal := "Fat Loss" |}.

End Samples.

(** ** Further [str] operations of the scripts *)

Module StrOps.
Import Text.

(** [sub in s] on two strings. *)
Fixpoint contains (sub s : str) : bool :=
  starts_with sub s
  || match s with [] => false | _ :: s' => contains sub s' end.

(** [s.strip(chars)] *)
Definition strip_chars (chars s : str) : str :=
  rstrip_by (fun c => mem c chars) (lstrip_by (fun c => mem c chars) s).

End StrOps.

(** ** meal_text.py: display of the plan (lines 91-99) *)

Module MealTextPlan.
Import Text.

Inductive ui :=
| st_subheader (text : str)
| st_expander (label : str)
| st_markdown (text : str).

Definition plan_title : str := 128197%N :: u " Your 7-Day Diet Plan".

(** Line 92. *)
Definition days (plan : str) : list str := split [NL; NL] plan.

(** Lines 94-97: the heading and the body of a block that is not blank;
    [None] is a block that is skipped. *)
Definition day_block (day : str) : option (str * str) :=
  if truthy (strip day) then
    let lines := splitlines (strip day) in
    let heading := match lines with l0 :: _ => l0 | [] => u "Day" end in
    let body :=
      if (1 <? List.length lines)%nat then join [NL] (tl lines) else [] in
    Some (heading, body)
  else None.

(** Lines 93-99. *)
Definition show_day (day : str) : list ui :=
  match day_block day with
  | Some (heading, body) => [st_expander heading; st_markdown body]
  | None => []
  end.

(** Lines 91-99: the elements written to the page, in order. *)
Definition show_plan (plan : str) : list ui :=
  st_subheader plan_title :: flat_map show_day (days plan).

End MealTextPlan.

(** ** meal_hugging.py: the grocery table (lines 155-167) *)

Module MealHuggingGrocery.
Import Text Re StrOps AiMealPexels.

Section Grocery.
Variable Nd : char -> bool.

(** Lines 163-166; the pattern is the item pattern of the other scripts. *)
Definition grocery_row (category : str) (item : str) : GroceryItem :=
  match re_match Nd item_re item with
  | Some gs =>
      {| Category := category; Item := strip (nth 0 gs []);
         Quantity := strip (nth 1 gs []) |}
  | None =>
      {| Category := category; Item := strip_chars (u "- ") item;
         Quantity := [] |}
  end.

(** Lines 159-166. *)
Definition section_rows (section : str) : list GroceryItem :=
  if truthy (strip section) then
    match splitlines (strip section) with
    | [] => []
    | l0 :: items => List.map (grocery_row l0) items
    end
  else [].

(** Lines 155-167. *)
Definition parse_grocery (text : str) : list GroceryItem :=
  flat_map section_rows (re_split Nd section_re text).

End Grocery.
End MealHuggingGrocery.

(** ** meal_hugging.py: prompts and display of the plan (lines 46-51 and
       131-147) *)

Module MealHuggingFlow.
Import Text Re Eff StrOps MealHugging.

Section Flow.
Variable World : Type.
Variable image : Type.
Variable requests_post : World -> str -> reply image * World.
Variable unicode_lower : str -> str.
Variable Nd : char -> bool.

(** Lines 46-51. *)
Definition enhance_meal_prompt (meal_line : str) : str :=
  u "A high-resolution food photo of " ++ lower unicode_lower meal_line
  ++ u ", "
  ++ u "realistic and beautifully plated, served in a clean white ceramic dish. "
  ++ u "Top-down view, bright natural light, professional food photography style.".

Definition meal_words : list str :=
  [u "breakfast"; u "lunch"; u "dinner"; u "snack"].

(** The test of line 140. *)
Definition is_meal_line (line : str) : bool :=
  existsb (fun m => contains m (lower unicode_lower line)) meal_words.

Inductive ui :=
| st_subheader (text : str)
| st_expander (label : str)
| st_markdown (text : str)
| st_image (img : image) (caption : str)
| st_caption (text : str)
| st_error (e : exn).

(** The state of the script: the image service with its cache, and the
    elements written to the page (latest first). *)
Record session := { service : state World image; page : list ui }.

Definition emit (x : ui) : M session unit :=
  modify (fun s => {| service := service s; page := x :: page s |}).

(** A computation on the image service, run inside the session. *)
Definition on_service {A} (c : M (state World image) A) : M session A :=
  fun s =>
    let (o, sv) := c (service s) in
    (o, {| service := sv; page := page s |}).

Definition plan_title : str := 128197%N :: u " Your 7-Day Diet Plan".
Definition no_image_text : str := [9888; 65039]%N ++ u " Image not available".

(** Lines 140-147. *)
Definition show_line (line : str) : M session unit :=
  if is_meal_line line then
    (emit (st_markdown (u "**" ++ line ++ u "**")) ;;;
     img <- on_service
              (generate_meal_image World image requests_post
                 (enhance_meal_prompt line)) ;;
     match img with
     | Some i => emit (st_image i line)
     | None => emit (st_caption no_image_text)
     end)%eff
  else ret tt.

(** Lines 138-147. *)
Definition show_day (d : DayPlan) : M session unit :=
  (emit (st_expander (heading d)) ;;; for_each show_line (content d))%eff.

(** Lines 131-147. *)
Definition show_plan (full_plan : str) : M session unit :=
  (emit (st_subheader plan_title) ;;;
   for_each show_day (parse_plan Nd full_plan))%eff.

End Flow.
End MealHuggingFlow.

(** ** Conditions and measures used by the statements *)

Module Conditions.
Import Text Re Reference.

(** A text whose only line boundaries are newline characters. *)
Definition only_newlines (s : str) : bool :=
  forallb (fun c => negb (islinebreak c) || (c =? NL)%N) s.

(** An ASCII character that is not a capital letter. *)
Definition lowered (c : char) : bool := isascii c && negb (between 65 90 c).

(** The number of places of a text where a day heading begins. *)
Fixpoint count_days (Nd : char -> bool) (s : str) : nat :=
  match s with
  | [] => 0
  | _ :: s' => (if begins_with_day Nd s then 1 else 0) + count_days Nd s'
  end.

(** [a <= b] on two floats that may be missing: both present and in
    order. *)
Definition opt_le (a b : option float) : bool :=
  match a, b with
  | Some x, Some y => (x <=? y)%float
  | _, _ => false
  end.

Section Service.
Import AiMealPexels.
Variable World : Type.
Variable getenv_PEXELS_API_KEY : World -> option str.
Variable requests_get : World -> str -> reply * World.

(** A service that answers every request, and whose answers with status
    200 can be read. *)
Definition answers : Prop :=
  forall w q,
    match fst (requests_get w q) with
    | Fails => False
    | Response status_code None => status_code <> 200%Z
    | Response _ (Some _) => True
    end.

(** A service whose every request raises. *)
Definition all_fail : Prop := forall w q, fst (requests_get w q) = Fails.

(** The key is set in every world. *)
Definition key_always : Prop :=
  forall w, truthy_opt (getenv_PEXELS_API_KEY w) = true.

End Service.
End Conditions.

(** ** The matcher on two patterns, written out *)

Module Patterns.
Import Text Re AiMealPexels.
Section WithDigits.
Variable Nd : char -> bool.

(** The day token after its three letters: the run of [exec] on
    [day_token_re] from there (lemma [token_match_at]). *)
Definition token_k : str -> option result :=
  greedy (cmatch Nd CSpace)
    (one (cmatch Nd CDigit) (fun s5 => Some ([], s5))).

(** The meal pattern: the run of [exec] on [meal_re] (lemma
    [meal_exec_eq]).  [s0] is the input where the first group opens, [s1]
    where it closes. *)
Definition meal_tail (s0 s1 : str) : str -> option result :=
  fun s3 =>
    let s4 := lstrip_by isspace s3 in
    let s5 := lstrip_by (cmatch Nd CDot) s4 in
    Some ([firstn (List.length s0 - List.length s1) s0;
           firstn (List.length s4 - List.length s5) s4], s5).

Definition meal_k1 (s0 : str) : str -> option result :=
  fun s1 =>
    one (cmatch Nd (clit "*"))
      (one (cmatch Nd (clit "*"))
         (fun s2 =>
            match one (cmatch Nd (clit ":")) (meal_tail s0 s1) s2 with
            | Some r => Some r
            | None => meal_tail s0 s1 s2
            end))
      s1.

Definition meal_exec (s : str) : option result :=
  one (cmatch Nd (clit "*"))
    (one (cmatch Nd (clit "*"))
       (fun s0 => lazy (cmatch Nd CDot) (meal_k1 s0) s0))
    s.

End WithDigits.
End Patterns.

(** ** The order of floats: products by any positive normal float *)

Module FloatOrderMore.
Import PyFloat FloatOrder.
Local Open Scope Z_scope.

(** The place of the product of the magnitude [u] by the float
    [mc * 2^-k]. *)
Definition times_place_k (mc : positive) (k : Z) (u : Z) : Z :=
  place (u * Z.pos mc) (2 ^ k).

End FloatOrderMore.

(** ** Item lines of the grocery list *)

Module ItemLines.
Import Text Reference.

(** A dash with at least one character before it and one after it. *)
Definition dash_between (s : str) : bool :=
  existsb is_dash (removelast (tl s)).

End ItemLines.

(** ** More sample inputs *)

Module MoreSamples.
Import Text Reference MealHugging MealHuggingFlow.

Definition plan_two_blocks : str :=
  u "Day 1" ++ [NL] ++ u "Oats" ++ [NL; NL] ++ u "Day 2" ++ [NL] ++ u "Eggs".

Definition plan_seven_headings : str :=
  lines [u "Day 1"; u "Day 2"; u "Day 3"; u "Day 4"; u "Day 5"; u "Day 6";
         u "Day 7"].

Definition plan_one_heading : str := lines [u "Day 1"; u "**Breakfast**: Oats"].

Definition plan_same_breakfast : str :=
  lines [u "Day 1"; u "Breakfast: Oats"; u "Day 2"; u "BREAKFAST: OATS"].

(** The two answers of the model, each repeating the range it was asked
    for, with the meals of days 1, 2 and 4 only. *)
Definition plan_echoed_ranges : str :=
  lines [u "Here are Day 1 to Day 3:"; u "Day 1"; u "**Breakfast**: Oats";
         u "Day 2"; u "**Breakfast**: Eggs"; [];
         u "Here are Day 4 to Day 7:"; u "Day 4"; u "**Breakfast**: Rice"].

(** A world for the image generation: the number of requests made so far;
    every request is answered with a new image, numbered by the world. *)
Definition every_post_succeeds (w : nat) (prompt : str) : reply nat * nat :=
  (Response nat 200 (Some w), S w).

(** A world where every request raises. *)
Definition every_post_fails (w : nat) (prompt : str) : reply nat * nat :=
  (Fails nat, S w).

Definition no_posts : state nat nat :=
  {| world := 0%nat; posts := []; cache := [] |}.

Definition empty_page : session nat nat :=
  {| service := no_posts; page := [] |}.

End MoreSamples.

(* ================================================================== *)
(** * Part II: properties *)
(* ================================================================== *)

(** ** Facts about the text functions *)

Module TextFacts.
Import Text Reference.

Ltac bool_to_prop :=
  repeat (rewrite ?Bool.orb_true_iff, ?Bool.andb_true_iff, ?Bool.orb_false_iff,
            ?Bool.andb_false_iff, ?Bool.negb_true_iff, ?Bool.negb_false_iff,
            ?N.leb_le, ?N.leb_gt, ?N.eqb_eq, ?N.eqb_neq, ?N.ltb_lt, ?N.ltb_ge in *).

Lemma islinebreak_isspace (c : char) :
  islinebreak c = true -> isspace c = true.
Proof.
  unfold islinebreak, isspace, between, mem, existsb.
  bool_to_prop. lia.
Qed.

Lemma not_space_not_break (c : char) :
  isspace c = false -> islinebreak c = false /\ (c =? CR)%N = false.
Proof.
  intros H. split.
  - destruct (islinebreak c) eqn:E; [|reflexivity].
    apply islinebreak_isspace in E. congruence.
  - destruct (c =? CR)%N eqn:E; [|reflexivity].
    apply N.eqb_eq in E. subst c. discriminate H.
Qed.

Lemma lstrip_by_snoc (p : char -> bool) (a : str) (c : char) :
  p c = false -> lstrip_by p (a ++ [c]) = lstrip_by p a ++ [c].
Proof.
  intros Hc. induction a as [|x a IH]; simpl.
  - now rewrite Hc.
  - destruct (p x); [exact IH | reflexivity].
Qed.

Lemma rstrip_by_cons (p : char -> bool) (c : char) (t : str) :
  p c = false -> rstrip_by p (c :: t) = c :: rstrip_by p t.
Proof.
  intros Hc. unfold rstrip_by. simpl.
  rewrite lstrip_by_snoc by exact Hc.
  now rewrite rev_app_distr.
Qed.

Lemma rstrip_by_nil (p : char -> bool) : rstrip_by p [] = [].
Proof. reflexivity. Qed.

Lemma lstrip_by_head (p : char -> bool) (s : str) :
  lstrip_by p s = [] \/ exists c t, lstrip_by p s = c :: t /\ p c = false.
Proof.
  induction s as [|x s IH]; simpl.
  - now left.
  - destruct (p x) eqn:E; [exact IH|].
    right. now exists x, s.
Qed.

(** A stripped text is empty or begins with a character that is not white
    space. *)
Lemma strip_head (s : str) :
  strip s = [] \/ exists c t, strip s = c :: t /\ isspace c = false.
Proof.
  unfold strip.
  destruct (lstrip_by_head isspace s) as [E | (c & t & E & Hc)]; rewrite E.
  - now left.
  - right. exists c, (rstrip_by isspace t).
    split; [now apply rstrip_by_cons | exact Hc].
Qed.

Lemma lstrip_by_all (p : char -> bool) (s : str) :
  forallb p s = true -> lstrip_by p s = [].
Proof.
  induction s as [|x s IH]; simpl; [reflexivity|].
  destruct (p x); simpl; [exact IH | discriminate].
Qed.

Lemma lstrip_by_nil_all (p : char -> bool) (s : str) :
  lstrip_by p s = [] -> forallb p s = true.
Proof.
  induction s as [|x s IH]; simpl; [reflexivity|].
  destruct (p x); simpl; [exact IH | discriminate].
Qed.

(** A text strips to nothing exactly when it is blank. *)
Lemma strip_nil_blank (s : str) : strip s = [] <-> blank s = true.
Proof.
  unfold blank. split.
  - intros H. unfold strip in H.
    destruct (lstrip_by_head isspace s) as [E | (c & t & E & Hc)].
    + now apply lstrip_by_nil_all.
    + rewrite E, rstrip_by_cons in H by exact Hc. discriminate.
  - intros H. unfold strip. now rewrite lstrip_by_all.
Qed.

(** With a line under way, [splitlines] returns at least that line. *)
Lemma splitlines_aux_cons (s : str) :
  forall cur, cur <> [] ->
  exists l rest, splitlines_aux cur s = (rev cur ++ l) :: rest.
Proof.
  induction s as [|c s IH]; intros cur Hcur.
  - destruct cur; [congruence|]. exists [], []. simpl. now rewrite app_nil_r.
  - simpl. destruct (c =? CR)%N.
    + destruct s as [|d s'].
      * exists [], []. now rewrite app_nil_r.
      * destruct (d =? NL)%N; eexists [], _; now rewrite app_nil_r.
    + destruct (islinebreak c).
      * eexists [], _. now rewrite app_nil_r.
      * destruct (IH (c :: cur)) as (l & rest & E); [discriminate|].
        exists (c :: l), rest. rewrite E. simpl. now rewrite <- app_assoc.
Qed.

(** The lines of a stripped text that is not empty: there is a first line,
    and it begins with a character that is not white space. *)
Lemma splitlines_strip_cons (s : str) :
  strip s <> [] ->
  exists c l rest,
    splitlines (strip s) = (c :: l) :: rest /\ isspace c = false.
Proof.
  intros H.
  destruct (strip_head s) as [E | (c & t & E & Hc)]; [congruence|].
  rewrite E. unfold splitlines. simpl.
  destruct (not_space_not_break c Hc) as [Hb Hr]. rewrite Hr, Hb.
  destruct (splitlines_aux_cons t [c]) as (l & rest & E'); [discriminate|].
  exists c, l, rest. now rewrite E'.
Qed.

Lemma splitlines_strip_nil (s : str) :
  strip s = [] -> splitlines (strip s) = [].
Proof. intros ->. reflexivity. Qed.

Lemma strip_cons_keep (c : char) (l : str) :
  isspace c = false -> strip (c :: l) = c :: rstrip_by isspace l.
Proof.
  intros Hc. unfold strip. simpl. rewrite Hc. now apply rstrip_by_cons.
Qed.

End TextFacts.

(** ** Facts about the matcher *)

Module ReFacts.
Import Text Re Reference.

Section WithDigits.
Variable Nd : char -> bool.

(** *** Greedy and lazy repetition *)

(** A greedy repetition that can take all of [w] and whose continuation
    then succeeds returns that result. *)
Lemma greedy_all (p : char -> bool) (k : str -> option (result)) :
  forall w s r,
    forallb p w = true ->
    match s with [] => True | c :: _ => p c = false end ->
    k s = Some r ->
    greedy p k (w ++ s) = Some r.
Proof.
  induction w as [|a w IH]; intros s r Hw Hs Hk; simpl in *.
  - destruct s as [|c s']; [exact Hk|]. simpl. now rewrite Hs.
  - apply Bool.andb_true_iff in Hw as [Ha Hw].
    rewrite Ha, (IH s r Hw Hs Hk). reflexivity.
Qed.

(** A greedy repetition fails when the continuation fails after every
    prefix it can take. *)
Lemma greedy_none (p : char -> bool) (k : str -> option (result)) :
  forall x,
    (forall w rest, x = w ++ rest -> forallb p w = true -> k rest = None) ->
    greedy p k x = None.
Proof.
  induction x as [|a x IH]; intros H; simpl.
  - apply (H [] []); reflexivity.
  - destruct (p a) eqn:Ha.
    + rewrite IH.
      * apply (H [] (a :: x)); reflexivity.
      * intros w rest E Hw. apply (H (a :: w) rest).
        -- simpl. now rewrite E.
        -- simpl. now rewrite Ha.
    + apply (H [] (a :: x)); reflexivity.
Qed.

Lemma greedy_some (p : char -> bool) (k : str -> option (result)) :
  forall x r,
    greedy p k x = Some r ->
    exists w rest, x = w ++ rest /\ forallb p w = true /\ k rest = Some r.
Proof.
  induction x as [|a x IH]; intros r H; simpl in H.
  - exists [], []. auto.
  - destruct (p a) eqn:Ha.
    + destruct (greedy p k x) as [r'|] eqn:E.
      * injection H as <-. destruct (IH r' eq_refl) as (w & rest & -> & Hw & Hk).
        exists (a :: w), rest. simpl. rewrite Ha. auto.
      * exists [], (a :: x). auto.
    + exists [], (a :: x). auto.
Qed.

(** A lazy repetition stops at the first place where the continuation
    succeeds. *)
Lemma lazy_first (p : char -> bool) (k : str -> option (result)) :
  forall w s r,
    forallb p w = true ->
    (forall w1 w2, w = w1 ++ w2 -> w2 <> [] -> k (w2 ++ s) = None) ->
    k s = Some r ->
    lazy p k (w ++ s) = Some r.
Proof.
  induction w as [|a w IH]; intros s r Hw Hfail Hk.
  - simpl. destruct s; simpl; now rewrite Hk.
  - apply Bool.andb_true_iff in Hw as [Ha Hw].
    assert (Hf : k (a :: w ++ s) = None)
      by (apply (Hfail [] (a :: w) eq_refl); discriminate).
    simpl. rewrite Hf, Ha. apply IH; auto.
    intros w1 w2 E Hne. apply (Hfail (a :: w1) w2); [simpl; now rewrite E | exact Hne].
Qed.

Lemma lazy_some (p : char -> bool) (k : str -> option (result)) :
  forall x r,
    lazy p k x = Some r ->
    exists w rest, x = w ++ rest /\ forallb p w = true /\ k rest = Some r.
Proof.
  induction x as [|a x IH]; intros r H; simpl in H.
  - destruct (k []) eqn:E; [|discriminate]. exists [], []. injection H as <-. auto.
  - destruct (k (a :: x)) eqn:E.
    + injection H as <-. exists [], (a :: x). auto.
    + destruct (p a) eqn:Ha; [|discriminate].
      destruct (IH r H) as (w & rest & -> & Hw & Hk).
      exists (a :: w), rest. simpl. rewrite Ha. auto.
Qed.

Lemma one_some (p : char -> bool) (k : str -> option (result)) (x : str) (r : result) :
  one p k x = Some r -> exists c rest, x = c :: rest /\ p c = true /\ k rest = Some r.
Proof.
  destruct x as [|c rest]; simpl; [discriminate|].
  destruct (p c) eqn:E; [|discriminate]. intros H. now exists c, rest.
Qed.

(** The text between two positions of the same input. *)
Lemma firstn_consumed (a b : str) :
  firstn (List.length (a ++ b) - List.length b) (a ++ b) = a.
Proof.
  rewrite length_app, Nat.add_sub.
  rewrite firstn_app, Nat.sub_diag, firstn_all. simpl. apply app_nil_r.
Qed.

(** *** The lookahead split of the plan *)

Lemma match_at_look (l : list cclass) (s : str) :
  match_at Nd [Look l] s false
  = (if look_ok Nd l s then Some ([], [], s) else None)
  /\ match_at Nd [Look l] s true = None.
Proof.
  unfold match_at. simpl.
  destruct (look_ok Nd l s); [|split; reflexivity].
  rewrite Nat.sub_diag, Nat.ltb_irrefl. simpl. split; reflexivity.
Qed.

Lemma scan_look (l : list cclass) :
  look_ok Nd l [] = false ->
  forall s gap,
    (let (ms, tl) := scan Nd [Look l] s 0 gap in
     flat_map (fun m => m_pre m :: m_groups m) ms ++ [tl])
    = split_before (look_ok Nd l) s gap.
Proof.
  intros Hnil. induction s as [|c s IH]; intros gap.
  - cbn [scan]. destruct (match_at_look l []) as [-> _]. rewrite Hnil. reflexivity.
  - cbn [scan split_before]. destruct (match_at_look l (c :: s)) as [-> ->].
    destruct (look_ok Nd l (c :: s)).
    + specialize (IH [c]). destruct (scan Nd [Look l] s 0 [c]) as [ms tl].
      simpl. simpl in IH. now rewrite IH.
    + apply IH.
Qed.

(** [re.split] on a lookahead cuts the text before every position where
    the lookahead holds. *)
Lemma re_split_look (l : list cclass) (s : str) :
  look_ok Nd l [] = false ->
  re_split Nd [Look l] s = split_before (look_ok Nd l) s [].
Proof. intros H. unfold re_split. now apply (scan_look l H s []). Qed.

End WithDigits.
End ReFacts.

(** ** The plan text parser *)

Module PlanFacts.
Import Text Re Reference TextFacts ReFacts.

Section WithDigits.
Variable Nd : char -> bool.

Local Abbreviation day := (begins_with_day Nd).

Lemma split_before_hd (P : str -> bool) (s : str) :
  forall gap, exists l tl, split_before P s gap = (rev gap ++ l) :: tl.
Proof.
  induction s as [|c s IH]; intros gap; simpl.
  - exists [], []. now rewrite app_nil_r.
  - destruct (P (c :: s)).
    + eexists [], _. now rewrite app_nil_r.
    + destruct (IH (c :: gap)) as (l & tl & E).
      exists (c :: l), tl. rewrite E. simpl. now rewrite <- app_assoc.
Qed.

Lemma split_before_concat (P : str -> bool) (s : str) :
  forall gap, List.concat (split_before P s gap) = rev gap ++ s.
Proof.
  induction s as [|c s IH]; intros gap; simpl.
  - reflexivity.
  - destruct (P (c :: s)); simpl; rewrite IH; simpl; [reflexivity|].
    now rewrite <- app_assoc.
Qed.

(** A day heading is five characters, the first of them the letter D. *)
Lemma day_inv (s : str) :
  day s = true ->
  exists d rest, s = u "Day " ++ d :: rest /\ isdigit Nd d = true.
Proof.
  unfold begins_with_day. simpl.
  destruct s as [|c1 [|c2 [|c3 [|c4 [|d rest]]]]]; simpl;
    rewrite ?Bool.andb_false_r; try discriminate.
  rewrite !Bool.andb_true_iff, !N.eqb_eq.
  intros (-> & -> & -> & -> & Hd & _). now exists d, rest.
Qed.

Lemma day_intro (d : char) (rest : str) :
  isdigit Nd d = true -> day (u "Day " ++ d :: rest) = true.
Proof. intros H. unfold begins_with_day. simpl. now rewrite H. Qed.

Lemma day_not (c : char) (s : str) : c <> 68%N -> day (c :: s) = false.
Proof.
  intros Hc. destruct (day (c :: s)) eqn:E; [|reflexivity].
  destruct (day_inv _ E) as (d & rest & E' & _). simpl in E'. congruence.
Qed.

(** After a cut at a day heading the next segment holds that heading. *)
Lemma split_before_day_hd (s : str) (c : char) :
  day (c :: s) = true ->
  exists l tl, split_before day s [c] = (u "Day " ++ l) :: tl /\ day (u "Day " ++ l) = true.
Proof.
  intros H. destruct (day_inv _ H) as (d & rest & E & Hd).
  simpl in E. injection E as -> ->.
  assert (Hd68 : d <> 68%N) by (intros ->; discriminate Hd).
  cbn [split_before]. rewrite !day_not by (exact Hd68 || discriminate).
  destruct (split_before_hd day rest [d; 32; 121; 97; 68]%N) as (l & tl & E).
  exists (d :: l), tl. split; [exact E | now apply day_intro].
Qed.

(** Every segment after the first begins with a day heading. *)
Lemma split_before_day_tl (s : str) :
  forall gap seg, In seg (tl (split_before day s gap)) -> day seg = true.
Proof.
  induction s as [|c s IH]; intros gap seg Hin.
  - destruct Hin.
  - cbn [split_before] in Hin. destruct (day (c :: s)) eqn:Hd.
    + simpl in Hin.
      destruct (split_before_day_hd s c Hd) as (l & tl' & E & Hl).
      pose proof (IH [c] seg) as IH'. rewrite E in Hin, IH'.
      destruct Hin as [<- | Hin]; [exact Hl | now apply IH'].
    + now apply (IH (c :: gap)).
Qed.

Lemma day_look_nil : look_ok Nd (clits "Day " ++ [CDigit]) [] = false.
Proof. reflexivity. Qed.

Lemma pexels_segments_split (plan : str) :
  AiMealPexels.segments Nd plan = split_before day (strip plan) [].
Proof.
  unfold AiMealPexels.segments, AiMealPexels.day_split_re.
  now rewrite re_split_look by apply day_look_nil.
Qed.

(** A pattern that only marks positions: empty matches where [P] holds. *)
Lemma scan_marks (r : regex) (P : str -> bool) :
  (forall s, match_at Nd r s false = if P s then Some ([], [], s) else None) ->
  (forall s, match_at Nd r s true = None) ->
  P [] = false ->
  forall s gap,
    (let (ms, tl) := scan Nd r s 0 gap in
     flat_map (fun m => m_pre m :: m_groups m) ms ++ [tl])
    = split_before P s gap.
Proof.
  intros Hm Ha Hnil. induction s as [|c s IH]; intros gap.
  - cbn [scan]. rewrite Hm, Hnil. reflexivity.
  - cbn [scan split_before]. rewrite Hm, Ha.
    destruct (P (c :: s)).
    + specialize (IH [c]). destruct (scan Nd r s 0 [c]) as [ms tl].
      simpl. simpl in IH. now rewrite IH.
    + apply IH.
Qed.

Lemma hugging_match_at (s : str) :
  match_at Nd MealHugging.day_split_re s false
  = (if day s then Some ([], [], s) else None)
  /\ match_at Nd MealHugging.day_split_re s true = None.
Proof.
  unfold match_at, MealHugging.day_split_re. cbn [exec].
  change (look_ok Nd (clits "Day " ++ [CDigit]) s) with (day s).
  destruct (day s) eqn:Hd; [|split; reflexivity].
  destruct (day_inv _ Hd) as (d & rest & -> & _).
  simpl. rewrite Nat.sub_diag, Nat.ltb_irrefl. split; reflexivity.
Qed.

Lemma hugging_segments_split (full_plan : str) :
  MealHugging.segments Nd full_plan = split_before day full_plan [].
Proof.
  unfold MealHugging.segments, re_split.
  apply (scan_marks MealHugging.day_split_re day).
  - intros s. apply hugging_match_at.
  - intros s. apply hugging_match_at.
  - reflexivity.
Qed.

(** A text that begins with a day heading is cut at its first character:
    the first segment is empty. *)
Lemma split_before_day_first (s : str) :
  day s = true -> exists rest, split_before day s [] = [] :: rest.
Proof.
  intros H. destruct s as [|c s]; [discriminate H|].
  cbn [split_before]. rewrite H. now eexists.
Qed.

Lemma split_before_hd_prefix (P : str -> bool) (s : str) :
  forall gap, exists l r tl,
    split_before P s gap = (rev gap ++ l) :: tl /\ s = l ++ r.
Proof.
  induction s as [|c s IH]; intros gap; simpl.
  - exists [], [], []. now rewrite app_nil_r.
  - destruct (P (c :: s)).
    + eexists [], (c :: s), _. now rewrite app_nil_r.
    + destruct (IH (c :: gap)) as (l & r & tl & E & ->).
      exists (c :: l), r, tl. rewrite E. simpl. now rewrite <- app_assoc.
Qed.

Lemma day_app (a b : str) : day a = true -> day (a ++ b) = true.
Proof.
  intros H. destruct (day_inv _ H) as (d & rest & -> & Hd).
  rewrite <- app_assoc. simpl. now apply (day_intro d (rest ++ b)).
Qed.

(** The first segment never begins with a day heading: it is the text
    before the first one. *)
Lemma split_before_day_first_not (s : str) :
  exists first rest, split_before day s [] = first :: rest /\ day first = false.
Proof.
  destruct s as [|c s]; [now exists [], []|].
  cbn [split_before]. destruct (day (c :: s)) eqn:Hd.
  - now eexists [], _.
  - destruct (split_before_hd_prefix day s [c]) as (l & r & tl & E & ->).
    exists (c :: l), tl. split; [exact E|].
    destruct (day (c :: l)) eqn:Hl; [|reflexivity].
    apply (day_app _ r) in Hl. simpl in Hl. congruence.
Qed.

(** Every position where [P] holds is a cut: the text before it is the
    first [k] segments put together, for some [k] that is at least 1. *)
Lemma split_before_cuts (P : str -> bool) :
  P [] = false ->
  forall s gap a b,
    s = a ++ b -> P b = true ->
    exists k, (1 <= k <= List.length (split_before P s gap))%nat
              /\ rev gap ++ a = List.concat (firstn k (split_before P s gap)).
Proof.
  intros Hnil. induction s as [|c s IH]; intros gap a b E Hb.
  - symmetry in E. apply app_eq_nil in E as [_ ->]. congruence.
  - cbn [split_before]. destruct a as [|x a].
    + simpl in E. subst b. rewrite Hb. exists 1%nat. split; [simpl; lia|].
      simpl. now rewrite !app_nil_r.
    + simpl in E. injection E as <- E. destruct (P (c :: s)) eqn:Hx.
      * destruct (IH [c] a b E Hb) as (k & Hk & Ek).
        exists (S k). split; [simpl; lia|].
        cbn [firstn List.concat]. rewrite <- Ek. reflexivity.
      * destruct (IH (c :: gap) a b E Hb) as (k & Hk & Ek).
        exists k. split; [exact Hk|]. rewrite <- Ek. simpl.
        now rewrite <- app_assoc.
Qed.

Lemma day_nil : day [] = false.
Proof. reflexivity. Qed.

Lemma keep_some_in {A} (l : list (option A)) (a : A) :
  In a (AiMealPexels.keep_some l) <-> In (Some a) l.
Proof.
  induction l as [|[x|] l IH]; simpl.
  - tauto.
  - rewrite IH. split; intros [H|H]; auto; left; congruence.
  - rewrite IH. split; [auto | intros [H|H]; [discriminate | auto]].
Qed.

Lemma pexels_parse_day_some (seg : str) (d : AiMealPexels.DayPlan) :
  AiMealPexels.parse_day Nd seg = Some d ->
  strip seg <> [] /\ AiMealPexels.heading d <> [].
Proof.
  unfold AiMealPexels.parse_day.
  destruct (strip seg) as [|c0 t0] eqn:Es.
  - discriminate.
  - destruct (splitlines_strip_cons seg) as (c & l & rest & E & Hc);
      [rewrite Es; discriminate|].
    rewrite Es in E. rewrite E. intros H. injection H as <-. simpl.
    split; [discriminate|]. rewrite strip_cons_keep by exact Hc. discriminate.
Qed.

Lemma hugging_parse_day_some (seg : str) (d : MealHugging.DayPlan) :
  MealHugging.parse_day seg = Some d ->
  strip seg <> [] /\ MealHugging.heading d <> [].
Proof.
  unfold MealHugging.parse_day.
  destruct (strip seg) as [|c0 t0] eqn:Es.
  - discriminate.
  - destruct (splitlines_strip_cons seg) as (c & l & rest & E & Hc);
      [rewrite Es; discriminate|].
    rewrite Es in E. rewrite E. intros H. injection H as <-. simpl.
    split; discriminate.
Qed.

Lemma parse_day_blank (seg : str) :
  blank seg = true ->
  AiMealPexels.parse_day Nd seg = None /\ MealHugging.parse_day seg = None.
Proof.
  intros H. apply strip_nil_blank in H.
  unfold AiMealPexels.parse_day, MealHugging.parse_day. rewrite H. split; reflexivity.
Qed.

End WithDigits.
End PlanFacts.

Module PlanClaims.
Import Text Re Reference Samples TextFacts ReFacts PlanFacts.

(** C3, as stated, fails: a text that does not start with a day heading
    has a first segment that is not empty and does not begin with a
    heading.  Here the plan has one line of introduction before Day 1. *)
Lemma plan_preamble_segment_without_heading :
  exists seg,
    (forall Nd, In seg (AiMealPexels.segments Nd plan_with_preamble))
    /\ seg <> []
    /\ (forall Nd, begins_with_day Nd seg = false)
    /\ (forall Nd, exists d, In d (AiMealPexels.parse_plan Nd plan_with_preamble)
                             /\ AiMealPexels.heading d = u "Here is your plan").
Proof.
  exists (u "Here is your plan" ++ [NL]). split; [|split; [|split]].
  - intros Nd. vm_compute. left. reflexivity.
  - discriminate.
  - intros Nd. vm_compute. reflexivity.
  - intros Nd. eexists. split; [vm_compute; left; reflexivity | reflexivity].
Qed.

(** C3 (amended): the plan is cut before every day heading and nowhere
    else.  The segments put together give back the stripped text; every
    segment after the first begins with its own day heading; every place
    of the text where a day heading begins is the end of a segment; the
    segments are those of the reference split before each heading.  The
    first segment is the text before the first heading: no heading begins
    before its end, what follows it begins with a heading, it does not
    begin with one itself, and it is empty when the text starts with one.
    On the sample text of two days the parser yields exactly two records,
    in order: Day 1 with (Breakfast, Oats) and (Lunch, Salad), Day 2 with
    (Breakfast, Eggs). *)
Theorem plan_parser_lookahead_split : forall Nd : char -> bool,
  (forall plan, List.concat (AiMealPexels.segments Nd plan) = strip plan)
  /\ (forall plan seg,
        In seg (tl (AiMealPexels.segments Nd plan)) ->
        begins_with_day Nd seg = true)
  /\ (forall plan a b,
        strip plan = a ++ b -> begins_with_day Nd b = true ->
        exists k, (1 <= k <= List.length (AiMealPexels.segments Nd plan))%nat
                  /\ a = List.concat (firstn k (AiMealPexels.segments Nd plan)))
  /\ (forall plan,
        AiMealPexels.segments Nd plan
        = split_before (begins_with_day Nd) (strip plan) [])
  /\ (forall plan, exists first rest,
        AiMealPexels.segments Nd plan = first :: rest
        /\ begins_with_day Nd first = false
        /\ (begins_with_day Nd (strip plan) = true -> first = [])
        /\ (forall a b,
              strip plan = a ++ b -> begins_with_day Nd b = true ->
              exists a', a = first ++ a')
        /\ (rest = [] \/ begins_with_day Nd (List.concat rest) = true))
  /\ AiMealPexels.segments Nd plan_two_days
     = [ [];
         lines [u "Day 1"; u "**Breakfast**: Oats"; u "**Lunch**: Salad"; []];
         lines [u "Day 2"; u "**Breakfast**: Eggs"] ]
  /\ AiMealPexels.parse_plan Nd plan_two_days
     = [ {| AiMealPexels.heading := u "Day 1";
            AiMealPexels.content :=
              lines [u "**Breakfast**: Oats"; u "**Lunch**: Salad"];
            AiMealPexels.meals :=
              [(u "Breakfast", u "Oats"); (u "Lunch", u "Salad")] |};
         {| AiMealPexels.heading := u "Day 2";
            AiMealPexels.content := u "**Breakfast**: Eggs";
            AiMealPexels.meals := [(u "Breakfast", u "Eggs")] |} ]
  /\ List.map AiMealPexels.entries (AiMealPexels.parse_plan Nd plan_two_days)
     = [ [(u "Breakfast", u "Oats"); (u "Lunch", u "Salad")];
         [(u "Breakfast", u "Eggs")] ].
Proof.
  intros Nd. split; [|split; [|split; [|split; [|split; [|split; [|split]]]]]].
  - intros plan. rewrite pexels_segments_split. apply split_before_concat.
  - intros plan seg. rewrite pexels_segments_split. apply split_before_day_tl.
  - intros plan a b E Hb. rewrite pexels_segments_split.
    apply (split_before_cuts (begins_with_day Nd) (day_nil Nd) _ [] a b E Hb).
  - intros plan. apply pexels_segments_split.
  - intros plan. rewrite pexels_segments_split.
    destruct (split_before_day_first_not Nd (strip plan)) as (first & rest & E & Hf).
    exists first, rest. split; [exact E|]. split; [exact Hf|].
    split; [|split].
    + intros Hd. destruct (split_before_day_first Nd _ Hd) as (rest' & E').
      congruence.
    + intros a b Ea Hb.
      destruct (split_before_cuts (begins_with_day Nd) (day_nil Nd) _ [] a b Ea Hb)
        as (k & Hk & Ek).
      rewrite E in Ek. destruct k as [|k]; [lia|].
      cbn [firstn List.concat rev app] in Ek.
      exists (List.concat (firstn k rest)). exact Ek.
    + destruct rest as [|seg rest']; [now left | right].
      cbn [List.concat]. apply day_app.
      apply (split_before_day_tl Nd (strip plan) [] seg). rewrite E. now left.
  - vm_compute. reflexivity.
  - vm_compute. reflexivity.
  - vm_compute. reflexivity.
Qed.

(** The text with one line of introduction: its second segment is in the
    tail of the split and begins with the heading of day 1. *)
Lemma plan_parser_lookahead_split_witness :
  In (lines [u "Day 1"; u "**Breakfast**: Oats"])
     (tl (AiMealPexels.segments (fun _ => false) plan_with_preamble))
  /\ begins_with_day (fun _ => false)
       (lines [u "Day 1"; u "**Breakfast**: Oats"]) = true.
Proof.
  assert (H : In (lines [u "Day 1"; u "**Breakfast**: Oats"])
                (tl (AiMealPexels.segments (fun _ => false) plan_with_preamble)))
    by (vm_compute; left; reflexivity).
  split; [exact H|].
  exact (proj1 (proj2 (plan_parser_lookahead_split (fun _ => false)))
           plan_with_preamble _ H).
Defined.

(** C10: every record of the plan parser has a heading that is not empty,
    in ai_meal_pexels.py and in meal_hugging.py: a segment that is empty or
    blank yields no record, and when the text starts with a day heading the
    first segment of the split is the empty one, which is skipped. *)
Theorem day_plan_heading_nonempty : forall Nd : char -> bool,
  (forall plan d,
     In d (AiMealPexels.parse_plan Nd plan) -> AiMealPexels.heading d <> [])
  /\ (forall plan d,
        In d (MealHugging.parse_plan Nd plan) -> MealHugging.heading d <> [])
  /\ (forall seg,
        blank seg = true ->
        AiMealPexels.parse_day Nd seg = None /\ MealHugging.parse_day seg = None)
  /\ (forall plan,
        begins_with_day Nd (strip plan) = true ->
        exists rest, AiMealPexels.segments Nd plan = [] :: rest)
  /\ (forall plan,
        begins_with_day Nd plan = true ->
        exists rest, MealHugging.segments Nd plan = [] :: rest).
Proof.
  intros Nd. split; [|split; [|split; [|split]]].
  - intros plan d Hin. unfold AiMealPexels.parse_plan in Hin.
    apply keep_some_in, in_map_iff in Hin. destruct Hin as (seg & E & _).
    now apply (pexels_parse_day_some Nd seg d).
  - intros plan d Hin. unfold MealHugging.parse_plan in Hin.
    apply keep_some_in, in_map_iff in Hin. destruct Hin as (seg & E & _).
    now apply (hugging_parse_day_some seg d).
  - now apply parse_day_blank.
  - intros plan H. rewrite pexels_segments_split. now apply split_before_day_first.
  - intros plan H. rewrite hugging_segments_split. now apply split_before_day_first.
Qed.

(** The record of day 2 of the sample text is in the result and its
    heading is not empty. *)
Lemma day_plan_heading_nonempty_witness :
  In {| AiMealPexels.heading := u "Day 2";
        AiMealPexels.content := u "**Breakfast**: Eggs";
        AiMealPexels.meals := [(u "Breakfast", u "Eggs")] |}
     (AiMealPexels.parse_plan (fun _ => false) plan_two_days)
  /\ u "Day 2" <> [].
Proof.
  assert (H : In {| AiMealPexels.heading := u "Day 2";
                    AiMealPexels.content := u "**Breakfast**: Eggs";
                    AiMealPexels.meals := [(u "Breakfast", u "Eggs")] |}
                (AiMealPexels.parse_plan (fun _ => false) plan_two_days))
    by (vm_compute; right; left; reflexivity).
  split; [exact H|].
  exact (proj1 (day_plan_heading_nonempty (fun _ => false)) plan_two_days _ H).
Defined.

End PlanClaims.

(** ** The grocery text parser *)

Module GroceryFacts.
Import Text Re Reference TextFacts ReFacts.

(** *** Stripping as a decomposition *)

Lemma lstrip_by_split (p : char -> bool) (s : str) :
  exists w, s = w ++ lstrip_by p s /\ forallb p w = true.
Proof.
  induction s as [|c s (w & E & Hw)]; simpl.
  - now exists [].
  - destruct (p c) eqn:Hc.
    + exists (c :: w). simpl. rewrite Hc, <- E. auto.
    + now exists [].
Qed.

Lemma forallb_rev (p : char -> bool) (s : str) :
  forallb p (rev s) = forallb p s.
Proof.
  induction s as [|c s IH]; simpl; [reflexivity|].
  rewrite forallb_app, IH. simpl. rewrite Bool.andb_true_r. apply Bool.andb_comm.
Qed.

Lemma rstrip_by_split (p : char -> bool) (s : str) :
  exists w, s = rstrip_by p s ++ w /\ forallb p w = true.
Proof.
  destruct (lstrip_by_split p (rev s)) as (w & E & Hw).
  exists (rev w). split.
  - unfold rstrip_by. rewrite <- rev_app_distr, <- E. now rewrite rev_involutive.
  - now rewrite forallb_rev.
Qed.

Lemma rstrip_by_last (p : char -> bool) (s : str) (d : char) :
  rstrip_by p s <> [] -> p (last (rstrip_by p s) d) = false.
Proof.
  unfold rstrip_by.
  destruct (lstrip_by_head p (rev s)) as [E | (c & t & E & Hc)]; rewrite E.
  - simpl. congruence.
  - intros _. simpl. now rewrite last_last.
Qed.

Lemma lstrip_by_twice (p : char -> bool) (s : str) :
  lstrip_by p (lstrip_by p s) = lstrip_by p s.
Proof.
  destruct (lstrip_by_head p s) as [E | (c & t & E & Hc)]; rewrite E.
  - reflexivity.
  - simpl. now rewrite Hc.
Qed.

Lemma strip_lstrip (s : str) : strip (lstrip_by isspace s) = strip s.
Proof. unfold strip. now rewrite lstrip_by_twice. Qed.

Lemma strip_twice (s : str) : strip (strip s) = strip s.
Proof.
  destruct (strip_head s) as [E | (c & t & E & Hc)]; rewrite E; [reflexivity|].
  rewrite strip_cons_keep by exact Hc.
  f_equal.
  (* [t] is what is left of a right-stripped text *)
  unfold strip in E. destruct (lstrip_by_head isspace s) as [E0 | (c' & t' & E0 & Hc')].
  - rewrite E0 in E. discriminate.
  - rewrite E0, rstrip_by_cons in E by exact Hc'. injection E as _ <-.
    unfold rstrip_by. rewrite rev_involutive. now rewrite lstrip_by_twice.
Qed.

(** A text that is not blank is its stripped text between two runs of white
    space; the stripped text begins and ends with other characters. *)
Lemma strip_split (s : str) :
  blank s = false ->
  exists w1 c0 t w2,
    s = w1 ++ (c0 :: t) ++ w2 /\ strip s = c0 :: t
    /\ blank w1 = true /\ blank w2 = true
    /\ isspace c0 = false /\ isspace (last (c0 :: t) c0) = false.
Proof.
  intros Hs.
  destruct (strip_head s) as [E | (c0 & t & E & Hc)].
  - apply strip_nil_blank in E. congruence.
  - destruct (lstrip_by_split isspace s) as (w1 & E1 & Hw1).
    destruct (rstrip_by_split isspace (lstrip_by isspace s)) as (w2 & E2 & Hw2).
    fold (strip s) in E2.
    exists w1, c0, t, w2. rewrite <- E.
    split; [|split; [|split; [|split; [|split]]]].
    + now rewrite <- E2.
    + reflexivity.
    + exact Hw1.
    + exact Hw2.
    + exact Hc.
    + unfold strip. apply rstrip_by_last. fold (strip s). rewrite E. discriminate.
Qed.

Lemma lstrip_split (s : str) :
  blank s = false ->
  exists w x t,
    s = w ++ x :: t /\ lstrip_by isspace s = x :: t
    /\ blank w = true /\ isspace x = false.
Proof.
  intros Hs.
  destruct (lstrip_by_split isspace s) as (w & E & Hw).
  destruct (lstrip_by_head isspace s) as [E0 | (x & t & E0 & Hx)].
  - apply lstrip_by_nil_all in E0. unfold blank in Hs. congruence.
  - exists w, x, t. rewrite <- E0. auto.
Qed.

(** A run of white space at the start of [u ++ t] ends inside [u] when [u]
    ends with another character. *)
Lemma space_prefix_inside (w : str) :
  forall u t rest d,
    forallb isspace w = true ->
    u <> [] -> isspace (last u d) = false ->
    w ++ rest = u ++ t ->
    exists x u', rest = x :: u' ++ t /\ In x u.
Proof.
  induction w as [|a w IH]; intros u t rest d Hw Hu Hl E.
  - destruct u as [|x u']; [congruence|]. simpl in E. subst rest.
    exists x, u'. split; [reflexivity | now left].
  - destruct u as [|a' u']; [congruence|].
    simpl in E. injection E as <- E.
    simpl in Hw. apply Bool.andb_true_iff in Hw as [Ha Hw].
    destruct u' as [|b u''].
    + simpl in Hl. congruence.
    + destruct (IH (b :: u'') t rest d Hw ltac:(discriminate) Hl E) as (x & u1 & E1 & Hin).
      exists x, u1. split; [exact E1 | now right].
Qed.

Lemma last_app_ne (a b : str) (d : char) :
  b <> [] -> last (a ++ b) d = last b d.
Proof.
  intros Hb. induction a as [|x a IH]; [reflexivity|].
  simpl. rewrite IH. destruct (a ++ b) eqn:E; [|reflexivity].
  apply app_eq_nil in E as [_ ->]. congruence.
Qed.

Lemma dash_not_space (c : char) : is_dash c = true -> isspace c = false.
Proof.
  unfold is_dash, mem, existsb. rewrite !Bool.orb_true_iff, !N.eqb_eq.
  intros [-> | [-> | H]]; [reflexivity | reflexivity | discriminate].
Qed.

Lemma not_space_is_dot (c : char) : isspace c = false -> negb (c =? NL)%N = true.
Proof.
  intros H. destruct (c =? NL)%N eqn:E; [|reflexivity].
  apply N.eqb_eq in E. subst c. discriminate H.
Qed.

Section WithDigits.
Variable Nd : char -> bool.

(** *** The item pattern *)

Lemma item_exec_eq (item : str) :
  exec Nd AiMealPexels.item_re item [] []
       (fun rest => negb false || (List.length rest <? List.length item)%nat)
  = item_exec Nd item.
Proof. reflexivity. Qed.

Lemma forallb_dot (s : str) : no_newline s = true -> forallb (cmatch Nd CDot) s = true.
Proof. intros H; exact H. Qed.

Lemma item_k4_ok (s0 s1 : str) (x : char) (g : str) :
  isspace x = false -> no_newline g = true ->
  item_k4 Nd s0 s1 (x :: g)
  = Some ([firstn (List.length s0 - List.length s1) s0; x :: g], []).
Proof.
  intros Hx Hg. unfold item_k4. cbn [one cmatch].
  rewrite (not_space_is_dot _ Hx).
  rewrite <- (app_nil_r g) at 1.
  erewrite greedy_all; [| exact Hg | exact I | reflexivity].
  simpl List.length. rewrite Nat.sub_0_r.
  change (S (List.length g)) with (List.length (x :: g)). now rewrite firstn_all.
Qed.

Lemma item_k1_ok (s0 w2 : str) (d : char) (w3 : str) (x : char) (g : str) :
  blank w2 = true -> is_dash d = true -> blank w3 = true ->
  isspace x = false -> no_newline g = true ->
  item_k1 Nd s0 (w2 ++ d :: w3 ++ x :: g)
  = Some ([firstn (List.length s0 - List.length (w2 ++ d :: w3 ++ x :: g)) s0;
           x :: g], []).
Proof.
  intros Hw2 Hd Hw3 Hx Hg. unfold item_k1.
  apply greedy_all; [exact Hw2 | simpl; now apply dash_not_space |].
  cbn [one cmatch]. fold (is_dash d). rewrite Hd.
  apply greedy_all; [exact Hw3 | simpl; exact Hx |].
  now apply item_k4_ok.
Qed.

Lemma item_k1_fail (s0 u rest : str) (d0 : char) :
  u <> [] -> isspace (last u d0) = false -> no_dash u = true ->
  item_k1 Nd s0 (u ++ rest) = None.
Proof.
  intros Hu Hl Hnd. unfold item_k1. apply greedy_none.
  intros w r E Hw. symmetry in E.
  destruct (space_prefix_inside w u rest r d0 Hw Hu Hl E) as (y & u' & -> & Hin).
  cbn [one cmatch]. fold (is_dash y).
  unfold no_dash in Hnd. rewrite forallb_forall in Hnd.
  specialize (Hnd y Hin). apply Bool.negb_true_iff in Hnd. now rewrite Hnd.
Qed.

Lemma no_dash_app (a b : str) : no_dash (a ++ b) = true -> no_dash a = true /\ no_dash b = true.
Proof. unfold no_dash. rewrite forallb_app. apply Bool.andb_true_iff. Qed.

Lemma item_k0_ok (c0 : char) (t w2 : str) (d : char) (w3 : str) (x : char) (g : str) :
  isspace c0 = false -> isspace (last (c0 :: t) c0) = false ->
  no_dash (c0 :: t) = true -> no_newline t = true ->
  blank w2 = true -> is_dash d = true -> blank w3 = true ->
  isspace x = false -> no_newline g = true ->
  item_k0 Nd ((c0 :: t) ++ w2 ++ d :: w3 ++ x :: g) = Some ([c0 :: t; x :: g], []).
Proof.
  intros Hc0 Hl Hnd Hnl Hw2 Hd Hw3 Hx Hg.
  unfold item_k0. cbn [one cmatch app]. rewrite (not_space_is_dot _ Hc0).
  apply lazy_first.
  - exact Hnl.
  - intros t1 t2 E Hne. apply (item_k1_fail _ t2 _ c0 Hne).
    + subst t. rewrite <- (last_app_ne (c0 :: t1) t2 c0 Hne). exact Hl.
    + subst t. change (c0 :: t1 ++ t2) with ((c0 :: t1) ++ t2) in Hnd.
      now apply no_dash_app in Hnd.
  - rewrite item_k1_ok by assumption.
    change (c0 :: t ++ w2 ++ d :: w3 ++ x :: g) with ((c0 :: t) ++ (w2 ++ d :: w3 ++ x :: g)).
    now rewrite firstn_consumed.
Qed.

Lemma item_exec_ok (w1 : str) (c0 : char) (t w2 : str) (d : char) (w3 : str) (x : char) (g : str) :
  blank w1 = true ->
  isspace c0 = false -> isspace (last (c0 :: t) c0) = false ->
  no_dash (c0 :: t) = true -> no_newline t = true ->
  blank w2 = true -> is_dash d = true -> blank w3 = true ->
  isspace x = false -> no_newline g = true ->
  item_exec Nd (HYPHEN :: w1 ++ (c0 :: t) ++ w2 ++ d :: w3 ++ x :: g)
  = Some ([c0 :: t; x :: g], []).
Proof.
  intros Hw1 Hc0 Hl Hnd Hnl Hw2 Hd Hw3 Hx Hg.
  unfold item_exec. cbn [one cmatch]. rewrite N.eqb_refl.
  apply greedy_all; [exact Hw1 | simpl; exact Hc0 |].
  now apply item_k0_ok.
Qed.

(** A greedy repetition before a continuation that always succeeds takes
    every character it can. *)
Lemma greedy_total (p : char -> bool) (f : str -> result) (x : str) :
  greedy p (fun s => Some (f s)) x = Some (f (lstrip_by p x)).
Proof.
  induction x as [|a x IH]; simpl; [reflexivity|].
  destruct (p a); [now rewrite IH | reflexivity].
Qed.

(** A match of the item pattern splits the line at a dash: a hyphen, white
    space, the first group, white space, the dash, white space, the second
    group, which runs to the end of the line. *)
Lemma item_exec_some (item : str) (r : result) :
  item_exec Nd item = Some r ->
  exists w1 g1 w2 d w3 g2,
    item = HYPHEN :: w1 ++ g1 ++ w2 ++ d :: w3 ++ g2 ++ snd r
    /\ fst r = [g1; g2]
    /\ blank w1 = true /\ blank w2 = true /\ blank w3 = true
    /\ is_dash d = true /\ g1 <> [] /\ g2 <> []
    /\ match snd r with [] => True | c :: _ => c = NL end.
Proof.
  unfold item_exec. intros H.
  apply one_some in H as (c & r0 & -> & Hc & H).
  apply greedy_some in H as (w1 & s0 & -> & Hw1 & H).
  unfold item_k0 in H.
  apply one_some in H as (c0 & r1 & E0 & Hc0 & H).
  apply lazy_some in H as (wl & s1 & -> & Hwl & H).
  unfold item_k1 in H.
  apply greedy_some in H as (w2 & r2 & E1 & Hw2 & H).
  apply one_some in H as (d & r3 & -> & Hd & H).
  apply greedy_some in H as (w3 & s4 & -> & Hw3 & H).
  unfold item_k4 in H.
  apply one_some in H as (x & r5 & E4 & Hx & H).
  rewrite (greedy_total (cmatch Nd CDot)
             (fun s5 => ([firstn (List.length s0 - List.length s1) s0;
                          firstn (List.length s4 - List.length s5) s4], s5))) in H.
  injection H as <-. cbn [fst snd].
  destruct (lstrip_by_split (cmatch Nd CDot) r5) as (wg & Eg & Hwg).
  set (s5 := lstrip_by (cmatch Nd CDot) r5) in *.
  simpl in Hc. apply N.eqb_eq in Hc. subst c.
  exists w1, (c0 :: wl), w2, d, w3, (x :: wg).
  subst s0 s1 s4. rewrite Eg.
  split; [|split; [|split; [|split; [|split; [|split; [|split; [|split]]]]]]].
  - simpl. rewrite <- ?app_assoc. reflexivity.
  - change (c0 :: wl ++ w2 ++ d :: w3 ++ x :: wg ++ s5)
      with ((c0 :: wl) ++ (w2 ++ d :: w3 ++ x :: wg ++ s5)).
    rewrite firstn_consumed.
    change (x :: wg ++ s5) with ((x :: wg) ++ s5).
    now rewrite firstn_consumed.
  - exact Hw1.
  - exact Hw2.
  - exact Hw3.
  - exact Hd.
  - discriminate.
  - discriminate.
  - subst s5. destruct (lstrip_by_head (cmatch Nd CDot) r5) as [E | (c & t & E & Hn)];
      rewrite E; [exact I|].
    simpl in Hn. apply Bool.negb_false_iff, N.eqb_eq in Hn. exact Hn.
Qed.

Lemma re_match_item (item : str) :
  re_match Nd AiMealPexels.item_re item
  = match item_exec Nd item with Some r => Some (fst r) | None => None end.
Proof.
  unfold re_match, match_at. rewrite item_exec_eq.
  destruct (item_exec Nd item) as [[gs rest]|]; reflexivity.
Qed.

End WithDigits.

(** The lines that [splitlines] returns hold no newline. *)
Lemma splitlines_aux_no_newline (n : nat) :
  forall s cur l,
    (List.length s <= n)%nat ->
    no_newline cur = true -> In l (splitlines_aux cur s) -> no_newline l = true.
Proof.
  assert (R : forall cur, no_newline cur = true -> no_newline (rev cur) = true)
    by (intros cur H; unfold no_newline; now rewrite forallb_rev).
  induction n as [|n IH]; intros s cur l Hn Hcur Hin.
  - destruct s; [|simpl in Hn; lia].
    simpl in Hin. destruct cur; [destruct Hin|].
    destruct Hin as [<- | []]. now apply R.
  - destruct s as [|c s].
    + simpl in Hin. destruct cur; [destruct Hin|].
      destruct Hin as [<- | []]. now apply R.
    + simpl in Hn. simpl in Hin. destruct (c =? CR)%N eqn:Ec.
      * destruct s as [|d s'].
        -- destruct Hin as [<- | []]. now apply R.
        -- simpl in Hn.
           destruct (d =? NL)%N;
             (destruct Hin as [<- | Hin]; [now apply R|]).
           ++ apply (IH s' [] l); [lia | reflexivity | exact Hin].
           ++ apply (IH (d :: s') [] l); [simpl; lia | reflexivity | exact Hin].
      * destruct (islinebreak c) eqn:Eb.
        -- destruct Hin as [<- | Hin]; [now apply R|].
           apply (IH s [] l); [lia | reflexivity | exact Hin].
        -- apply (IH s (c :: cur) l); [lia | | exact Hin].
           unfold no_newline in *. simpl. rewrite Hcur, Bool.andb_true_r.
           destruct (c =? NL)%N eqn:En; [|reflexivity].
           apply N.eqb_eq in En. subst c. discriminate Eb.
Qed.

Lemma splitlines_no_newline (s l : str) :
  In l (splitlines s) -> no_newline l = true.
Proof.
  apply (splitlines_aux_no_newline (List.length s) s []); [lia | reflexivity].
Qed.

End GroceryFacts.

Module GroceryClaims.
Import Text Re Reference Samples TextFacts ReFacts GroceryFacts.
Import AiMealPexels.

Lemma no_newline_app (a b : str) :
  no_newline (a ++ b) = true -> no_newline a = true /\ no_newline b = true.
Proof. unfold no_newline. rewrite forallb_app. apply Bool.andb_true_iff. Qed.

(** The row of an item line that holds no newline: either the line is a
    hyphen, the name, a dash and the quantity, with optional white space
    around each, or the row is the stripped line with no quantity. *)
Lemma grocery_row_cases (Nd : char -> bool) (category item : str) :
  no_newline item = true ->
  (exists w1 g1 w2 d w3 g2,
      item = HYPHEN :: w1 ++ g1 ++ w2 ++ d :: w3 ++ g2
      /\ blank w1 = true /\ blank w2 = true /\ blank w3 = true
      /\ is_dash d = true /\ g1 <> [] /\ g2 <> []
      /\ grocery_row Nd category item
         = {| Category := category; Item := strip g1; Quantity := strip g2 |})
  \/ (re_match Nd item_re item = None
      /\ grocery_row Nd category item
         = {| Category := category; Item := lstrip (u "- ") (strip item);
              Quantity := [] |}).
Proof.
  intros Hnl. unfold grocery_row. rewrite re_match_item.
  destruct (item_exec Nd item) as [r|] eqn:E; [left | right; split; reflexivity].
  destruct (item_exec_some Nd item r E)
    as (w1 & g1 & w2 & d & w3 & g2 & Ei & Er & H1 & H2 & H3 & Hd & N1 & N2 & Hend).
  exists w1, g1, w2, d, w3, g2. rewrite Er. simpl.
  assert (Hr : snd r = []).
  { destruct (snd r) as [|c t]; [reflexivity|]. subst c.
    rewrite Ei in Hnl. unfold no_newline in Hnl. simpl in Hnl.
    rewrite !forallb_app in Hnl. simpl in Hnl. rewrite !forallb_app in Hnl.
    simpl in Hnl. rewrite !Bool.andb_false_r in Hnl. discriminate. }
  rewrite Hr, app_nil_r in Ei. auto 10.
Qed.

End GroceryClaims.

(** ** Image lookup and the display of the plan *)

Module ImageFacts.
Import Text Re Eff Reference Samples TextFacts.
Import AiMealPexels.

(** *** [split] and the text before a separator *)

Lemma split_aux_hd (sep s : str) :
  forall cur, hd [] (split_aux sep s 0 cur) = rev cur ++ before sep s.
Proof.
  induction s as [|c s IH]; intros cur.
  - simpl. now rewrite app_nil_r.
  - cbn [split_aux before]. destruct (starts_with sep (c :: s)).
    + simpl. now rewrite app_nil_r.
    + rewrite IH. simpl. now rewrite <- app_assoc.
Qed.

Lemma first_split (sep s : str) : first (split sep s) = before sep s.
Proof. unfold first, split. now rewrite split_aux_hd. Qed.

(** [before sep s] is the part of [s] up to the first place where [sep]
    starts. *)
Lemma before_spec (sep s : str) :
  exists rest,
    s = before sep s ++ rest
    /\ (rest = [] \/ starts_with sep rest = true)
    /\ forall a b, before sep s = a ++ b -> b <> [] ->
                   starts_with sep (b ++ rest) = false.
Proof.
  induction s as [|c s (rest & E & Hr & Hno)]; cbn [before].
  - exists []. split; [reflexivity|]. split; [now left|].
    intros a b H Hb. symmetry in H. apply app_eq_nil in H as [_ ->]. congruence.
  - destruct (starts_with sep (c :: s)) eqn:Hs.
    + exists (c :: s). split; [reflexivity|]. split; [now right|].
      intros a b H Hb. symmetry in H. apply app_eq_nil in H as [_ ->]. congruence.
    + exists rest. split; [simpl; now rewrite <- E|]. split; [exact Hr|].
      intros a b H Hb. destruct a as [|x a].
      * simpl in H. subst b. simpl. rewrite <- E. exact Hs.
      * simpl in H. injection H as _ H. now apply (Hno a b).
Qed.

Section WithWorld.
Variable World : Type.
Variable getenv_PEXELS_API_KEY : World -> option str.
Variable requests_get : World -> str -> reply * World.
Variable unicode_lower : str -> str.
Variable Nd : char -> bool.

Local Abbreviation call := (call_pexels_api World getenv_PEXELS_API_KEY requests_get).
Local Abbreviation search := (search_pexels World getenv_PEXELS_API_KEY requests_get unicode_lower).
Local Abbreviation simplified := (simplify unicode_lower).

(** The simplified query, in the words of its description. *)
Lemma simplify_before (text : str) :
  simplified text
  = strip (before (u "with") (before (u ",") (lower unicode_lower text))).
Proof. unfold simplify. now rewrite !first_split. Qed.

Local Abbreviation key_is_set st := (truthy_opt (getenv_PEXELS_API_KEY (world st))).

(** Without a key a call returns nothing and sends no request. *)
Lemma call_no_key (q : str) (st : state World) :
  key_is_set st = false -> call q st = (Ok None, st).
Proof.
  intros H. unfold call_pexels_api, bind, get, ret. now rewrite H.
Qed.

(** With a key a call sends one request, the query it was given, and
    leaves the page alone. *)
Lemma call_with_key (q : str) (st : state World) :
  key_is_set st = true ->
  exists o w,
    call q st = (o, {| world := w; queries := q :: queries st; page := page st |}).
Proof.
  intros H. unfold call_pexels_api, bind, get, http_get, ret, raise. rewrite H.
  destruct (requests_get (world st) q) as [[|code body] w]; simpl; [eauto|].
  destruct (code =? 200)%Z; [|simpl; eauto].
  destruct body as [[|m ms]|]; simpl; eauto.
Qed.

(** The loop over the queries: the first result that is not empty. *)
Lemma search_loop_cons (q : str) (qs : list str) (st : state World) :
  search_loop World getenv_PEXELS_API_KEY requests_get (q :: qs) st
  = match call q st with
    | (Ok r, st') =>
        if truthy_opt r then (Ok r, st')
        else search_loop World getenv_PEXELS_API_KEY requests_get qs st'
    | (Raised e, st') => (Raised e, st')
    end.
Proof.
  cbn [search_loop]. unfold bind at 1.
  destruct (call q st) as [[r|e] st']; [|reflexivity].
  destruct (truthy_opt r); reflexivity.
Qed.

Lemma search_loop_no_key (qs : list str) (st : state World) :
  key_is_set st = false ->
  search_loop World getenv_PEXELS_API_KEY requests_get qs st = (Ok None, st).
Proof.
  intros H. induction qs as [|q qs IH]; [reflexivity|].
  rewrite search_loop_cons, call_no_key by exact H. simpl. exact IH.
Qed.

(** The requests of the loop are the first queries of the list, in order;
    the page is left alone. *)
Lemma search_loop_effect (qs : list str) :
  forall st,
    exists n,
      page (snd (search_loop World getenv_PEXELS_API_KEY requests_get qs st)) = page st
      /\ queries (snd (search_loop World getenv_PEXELS_API_KEY requests_get qs st))
         = rev (firstn n qs) ++ queries st.
Proof.
  induction qs as [|q qs IH]; intros st.
  - exists 0%nat. simpl. auto.
  - destruct (key_is_set st) eqn:Hk.
    + rewrite search_loop_cons.
      destruct (call_with_key q st Hk) as (o & w & E). rewrite E.
      destruct o as [r|e].
      * destruct (truthy_opt r).
        -- exists 1%nat. simpl. auto.
        -- destruct (IH {| world := w; queries := q :: queries st; page := page st |})
             as (n & Hp & Hq).
           exists (S n). rewrite Hp, Hq. simpl. rewrite <- app_assoc. auto.
      * exists 1%nat. simpl. auto.
    + rewrite search_loop_no_key by exact Hk. exists 0%nat. simpl. auto.
Qed.

Lemma search_effect (meal : str) (st : state World) :
  exists n,
    (n <= 3)%nat
    /\ page (snd (search meal st)) = page st
    /\ queries (snd (search meal st))
       = rev (firstn n [meal; simplified meal; u "healthy food"]) ++ queries st.
Proof.
  unfold search_pexels, fallback_queries.
  destruct (search_loop_effect [meal; simplified meal; u "healthy food"] st)
    as (n & Hp & Hq).
  exists (Nat.min n 3). split; [lia|]. split; [exact Hp|].
  rewrite Hq. f_equal. f_equal.
  destruct n as [|[|[|[|n]]]]; reflexivity.
Qed.

(** A request that raises makes the search raise. *)
Lemma search_raises (meal : str) (st : state World) (w : World) :
  key_is_set st = true ->
  requests_get (world st) meal = (Fails, w) ->
  search meal st
  = (Raised RequestException,
     {| world := w; queries := meal :: queries st; page := page st |}).
Proof.
  intros Hk Hr. unfold search_pexels, fallback_queries.
  rewrite search_loop_cons.
  unfold call_pexels_api, bind, get, http_get, ret, raise. rewrite Hk, Hr.
  reflexivity.
Qed.

(** *** The page *)

Local Abbreviation keeps_warnings c :=
  (forall st : state World, warnings (page (snd (c st))) = warnings (page st)).

Lemma bind_keeps {A B} (c : M (state World) A) (k : A -> M (state World) B) :
  keeps_warnings c -> (forall a, keeps_warnings (k a)) ->
  keeps_warnings (bind c k).
Proof.
  intros Hc Hk st. unfold bind. specialize (Hc st).
  destruct (c st) as [[a|e] st']; simpl in *; [|exact Hc].
  now rewrite Hk.
Qed.

Lemma emit_keeps (x : ui) :
  is_warning x = false -> keeps_warnings (emit World x).
Proof. intros H st. unfold emit, modify. simpl. now rewrite H. Qed.

Lemma ret_keeps {A} (a : A) : keeps_warnings (ret a).
Proof. intros st. reflexivity. Qed.

Lemma for_each_keeps {A} (body : A -> M (state World) unit) (xs : list A) :
  (forall x, keeps_warnings (body x)) -> keeps_warnings (for_each body xs).
Proof.
  intros H. induction xs as [|x xs IH]; cbn [for_each].
  - intros st. reflexivity.
  - apply bind_keeps; [apply H | intros _; exact IH].
Qed.

Local Abbreviation show_meal' :=
  (show_meal World getenv_PEXELS_API_KEY requests_get unicode_lower).
Local Abbreviation show_day' :=
  (show_day World getenv_PEXELS_API_KEY requests_get unicode_lower).
Local Abbreviation show_plan' :=
  (show_plan World getenv_PEXELS_API_KEY requests_get unicode_lower Nd).

Lemma show_meal_keeps (m : str * str) : keeps_warnings (show_meal' m).
Proof.
  destruct m as [meal_type meal_desc]. unfold show_meal.
  destruct (truthy meal_desc); [|intros st; reflexivity].
  apply bind_keeps.
  - intros st. unfold get_meal_image.
    destruct (search_effect meal_desc st) as (n & _ & Hp & _). now rewrite Hp.
  - intros image_url. apply bind_keeps.
    + destruct image_url as [[|c url]|]; now apply emit_keeps.
    + intros _. now apply emit_keeps.
Qed.

Lemma show_day_keeps (d : DayPlan) : keeps_warnings (show_day' d).
Proof.
  unfold show_day. apply bind_keeps; [now apply emit_keeps|].
  intros _. apply for_each_keeps, show_meal_keeps.
Qed.

(** The display of the plan: the warning when the plan is short, the
    title, then the days, whatever the warning. *)
Lemma show_plan_unfold (plan : str) (st : state World) :
  show_plan' plan st
  = for_each show_day' (parse_plan Nd plan)
      (set_page (st_subheader plan_title
                   :: (if short_plan Nd plan then [st_warning warning_text] else [])
                   ++ page st) st).
Proof.
  unfold show_plan, bind, emit, modify, ret, set_page.
  destruct (short_plan Nd plan); reflexivity.
Qed.

Lemma show_plan_warnings (plan : str) (st : state World) :
  warnings (page (snd (show_plan' plan st)))
  = (if short_plan Nd plan then [st_warning warning_text] else [])
    ++ warnings (page st).
Proof.
  rewrite show_plan_unfold.
  rewrite (for_each_keeps show_day' (parse_plan Nd plan) show_day_keeps).
  destruct (short_plan Nd plan); reflexivity.
Qed.

(** The handler of the button never lets an exception out. *)
Lemma generate_ok (plan : str) (grocery : M (state World) unit) (st : state World) :
  fst (generate World getenv_PEXELS_API_KEY requests_get unicode_lower Nd
         plan grocery st) = Ok tt.
Proof.
  unfold generate, try_except.
  destruct (bind _ _ st) as [[[]|e] st']; reflexivity.
Qed.

End WithWorld.

(** *** The generated image of meal_hugging.py *)

(** [generate_meal_image] returns, with or without an image, and never
    raises. *)
Lemma generate_meal_image_never_raises
      (World image : Type)
      (requests_post : World -> str -> MealHugging.reply image * World)
      (prompt : str) (st : MealHugging.state World image) :
  raises (fst (MealHugging.generate_meal_image World image requests_post prompt st))
  = false.
Proof.
  unfold MealHugging.generate_meal_image, MealHugging.generate_meal_image_body,
    MealHugging.http_post, MealHugging.print_error,
    bind, get, ret, raise, modify, try_except.
  destruct (MealHugging.cache_lookup image prompt (MealHugging.cache World image st));
    [reflexivity|].
  destruct (requests_post (MealHugging.world World image st) prompt) as [[|code decoded] w];
    [reflexivity|].
  destruct (code =? 200)%Z; [|reflexivity].
  destruct decoded; reflexivity.
Qed.

End ImageFacts.

Module ImageClaims.
Import Text Re Eff Reference Samples ImageFacts.
Import AiMealPexels.

(** C5: the search sends at most three requests, for the description, the
    simplified description and the fixed fallback, in that order; the
    simplified description is the lowercased text before the first comma,
    then before the first "with", stripped; the search returns the first
    result that is not empty, and nothing when the three results are
    empty. *)
Theorem search_pexels_fallback_chain :
  forall (World : Type) (getenv_PEXELS_API_KEY : World -> option str)
         (requests_get : World -> str -> reply * World)
         (unicode_lower : str -> str) (meal : str) (st : state World),
    (exists n,
        (n <= 3)%nat
        /\ queries (snd (search_pexels World getenv_PEXELS_API_KEY requests_get
                           unicode_lower meal st))
           = rev (firstn n [meal; simplify unicode_lower meal; u "healthy food"])
             ++ queries st)
    /\ simplify unicode_lower meal
       = strip (before (u "with") (before (u ",") (lower unicode_lower meal)))
    /\ (forall r1 s1,
          call_pexels_api World getenv_PEXELS_API_KEY requests_get meal st
          = (Ok r1, s1) ->
          truthy_opt r1 = true ->
          search_pexels World getenv_PEXELS_API_KEY requests_get unicode_lower meal st
          = (Ok r1, s1))
    /\ (forall r1 s1 r2 s2,
          call_pexels_api World getenv_PEXELS_API_KEY requests_get meal st
          = (Ok r1, s1) ->
          truthy_opt r1 = false ->
          call_pexels_api World getenv_PEXELS_API_KEY requests_get
            (simplify unicode_lower meal) s1 = (Ok r2, s2) ->
          truthy_opt r2 = true ->
          search_pexels World getenv_PEXELS_API_KEY requests_get unicode_lower meal st
          = (Ok r2, s2))
    /\ (forall r1 s1 r2 s2 r3 s3,
          call_pexels_api World getenv_PEXELS_API_KEY requests_get meal st
          = (Ok r1, s1) ->
          truthy_opt r1 = false ->
          call_pexels_api World getenv_PEXELS_API_KEY requests_get
            (simplify unicode_lower meal) s1 = (Ok r2, s2) ->
          truthy_opt r2 = false ->
          call_pexels_api World getenv_PEXELS_API_KEY requests_get
            (u "healthy food") s2 = (Ok r3, s3) ->
          search_pexels World getenv_PEXELS_API_KEY requests_get unicode_lower meal st
          = (Ok (if truthy_opt r3 then r3 else None), s3)).
Proof.
  intros World getenv requests_get unicode_lower meal st.
  split; [|split; [|split; [|split]]].
  - destruct (search_effect World getenv requests_get unicode_lower meal st)
      as (n & Hn & _ & Hq).
    now exists n.
  - apply simplify_before.
  - intros r1 s1 E1 T1. unfold search_pexels, fallback_queries.
    now rewrite search_loop_cons, E1, T1.
  - intros r1 s1 r2 s2 E1 T1 E2 T2. unfold search_pexels, fallback_queries.
    now rewrite search_loop_cons, E1, T1, search_loop_cons, E2, T2.
  - intros r1 s1 r2 s2 r3 s3 E1 T1 E2 T2 E3. unfold search_pexels, fallback_queries.
    rewrite search_loop_cons, E1, T1, search_loop_cons, E2, T2, search_loop_cons, E3.
    destruct (truthy_opt r3); reflexivity.
Qed.

(** Two requests answered 404, the third answered with a photo: the URL of
    the third response is returned after exactly three requests. *)
Lemma search_pexels_fallback_chain_witness :
  search_pexels nat key_set third_request_succeeds (fun s => s)
    (u "Paneer Tikka with mint, grilled") fresh
  = (Ok (Some (u "https://images.example/3.jpg")),
     {| world := 3%nat;
        queries := [u "healthy food"; u "paneer tikka";
                    u "Paneer Tikka with mint, grilled"];
        page := [] |}).
Proof.
  destruct (search_pexels_fallback_chain nat key_set third_request_succeeds
              (fun s => s) (u "Paneer Tikka with mint, grilled") fresh)
    as (_ & _ & _ & _ & H).
  exact (H None _ None _ (Some (u "https://images.example/3.jpg")) _
           eq_refl eq_refl eq_refl eq_refl eq_refl).
Defined.

(** C6, at the failing input: with the key set and a request that raises,
    the search strategy lets the exception out to its caller. *)
Theorem search_pexels_propagates_request_exception :
  get_meal_image nat key_set every_request_fails (fun s => s) (u "Oats") fresh
  = (Raised RequestException,
     {| world := 1%nat; queries := [u "Oats"]; page := [] |}).
Proof.
  unfold get_meal_image.
  now rewrite (search_raises nat key_set every_request_fails (fun s => s)
                 (u "Oats") fresh 1%nat).
Qed.

(** C7, at the failing input: a plan that repeats the ranges of the two
    requests ("Day 1 to Day 3", "Day 4 to Day 7") and holds the meals of
    days 1, 2 and 4 only.  The day pattern is found seven times, five of
    the tokens are distinct, and no warning is shown: the test counts the
    matches, repeated ones too.  Seven repetitions of the token of day 1
    pass the test in the same way. *)
Theorem repeated_day_tokens_hide_short_plan :
  (forall Nd,
     day_tokens Nd MoreSamples.plan_echoed_ranges
     = [u "Day 1"; u "Day 3"; u "Day 1"; u "Day 2"; u "Day 4"; u "Day 7";
        u "Day 4"])
  /\ (forall Nd,
        List.length (distinct_day_tokens Nd MoreSamples.plan_echoed_ranges)
        = 5%nat)
  /\ (forall Nd,
        List.map (fun d => (heading d, entries d))
                 (parse_plan Nd MoreSamples.plan_echoed_ranges)
        = [ (u "Here are", []); (u "Day 1 to", []); (u "Day 3:", []);
            (u "Day 1", [(u "Breakfast", u "Oats")]);
            (u "Day 2", [(u "Breakfast", u "Eggs")]);
            (u "Day 4 to", []); (u "Day 7:", []);
            (u "Day 4", [(u "Breakfast", u "Rice")]) ])
  /\ (forall Nd, short_plan Nd MoreSamples.plan_echoed_ranges = false)
  /\ (forall Nd,
        warnings (page (snd (show_plan nat key_unset third_request_succeeds
                               (fun s => s) Nd MoreSamples.plan_echoed_ranges
                               fresh)))
        = [])
  /\ (forall Nd, List.length (distinct_day_tokens Nd plan_day1_seven_times) = 1%nat)
  /\ (forall Nd, short_plan Nd plan_day1_seven_times = false)
  /\ (forall Nd,
        warnings (page (snd (show_plan nat key_unset third_request_succeeds
                               (fun s => s) Nd plan_day1_seven_times fresh)))
        = []).
Proof.
  split; [|split; [|split; [|split; [|split; [|split; [|split]]]]]]; intros Nd.
  - vm_compute. reflexivity.
  - vm_compute. reflexivity.
  - vm_compute. reflexivity.
  - vm_compute. reflexivity.
  - rewrite show_plan_warnings. vm_compute. reflexivity.
  - vm_compute. reflexivity.
  - vm_compute. reflexivity.
  - rewrite show_plan_warnings. vm_compute. reflexivity.
Qed.

End ImageClaims.

(** ** Energy and macro targets *)

Module TargetFacts.
Import Profile Samples.
Local Open Scope float_scope.

Lemma in_options_In (x : string) (options : list string) :
  in_options x options = true -> In x options.
Proof.
  unfold in_options. rewrite existsb_exists.
  intros (y & Hin & E). apply String.eqb_eq in E. now subst.
Qed.

Lemma valid_text_fields (p : profile) :
  MealText.valid p = true ->
  In (gender p) genders /\ In (activity_level p) MealText.activity_levels
  /\ In (goal p) goals /\ (1 <= age p <= 120)%Z.
Proof.
  unfold MealText.valid. rewrite !Bool.andb_true_iff, !Z.leb_le.
  intros ((((((A1 & A2) & G) & W) & H) & L) & O).
  auto using in_options_In.
Qed.

Lemma valid_pexels_fields (p : profile) :
  AiMealPexels.valid p = true ->
  In (gender p) genders /\ In (activity_level p) AiMealPexels.activity_levels
  /\ In (goal p) goals /\ (1 <= age p <= 120)%Z
  /\ (5 <= body_fat_percent p <= 50)%Z.
Proof.
  unfold AiMealPexels.valid. rewrite !Bool.andb_true_iff, !Z.leb_le.
  intros (((((((A1 & A2) & G) & W) & H) & (B1 & B2)) & L) & O).
  auto 10 using in_options_In.
Qed.

(** The conversion of five times the age to a float is exact for the ages
    of the sidebar: the float holds [5 * age] units of [2^1074] units. *)
Lemma five_times_age_exact (a : Z) :
  (1 <= a <= 120)%Z ->
  exists m e,
    Prim2SF (PyFloat.of_int (5 * a)) = S754_finite false m e
    /\ PyFloat.units m e = (5 * a * 2 ^ 1074)%Z.
Proof.
  intros H.
  assert (E : forallb
                (fun a =>
                   match Prim2SF (PyFloat.of_int (5 * a)) with
                   | S754_finite false m e =>
                       (PyFloat.units m e =? 5 * a * 2 ^ 1074)%Z
                   | _ => false
                   end)
                (List.map Z.of_nat (seq 1 120)) = true) by (vm_compute; reflexivity).
  rewrite forallb_forall in E.
  specialize (E a). 
  assert (Hin : In a (List.map Z.of_nat (seq 1 120))).
  { apply in_map_iff. exists (Z.to_nat a). split; [lia|]. apply in_seq. lia. }
  specialize (E Hin).
  destruct (Prim2SF (PyFloat.of_int (5 * a))) as [s|s| |[|] m e]; try discriminate.
  exists m, e. split; [reflexivity|]. now apply Z.eqb_eq.
Qed.

End TargetFacts.

Module TargetClaims.
Import Profile Samples TargetFacts.
Local Open Scope float_scope.

(** C1, as stated, fails on its example: for the male profile of 20 years,
    50 kg and 170 cm the two scripts compute 1467.5, not 1067.5
    (500 + 1062.5 - 100 + 5). *)
Lemma bmr_sample_is_not_1067_5 :
  MealText.bmr male_20_50_170 = 1467.5
  /\ AiMealPexels.bmr male_20_50_170 = 1467.5
  /\ (AiMealPexels.bmr male_20_50_170 =? 1067.5) = false
  /\ AiMealPexels.bmr male_20_50_170 <> 1067.5.
Proof.
  split; [reflexivity|]. split; [reflexivity|]. split; [reflexivity|].
  intros H. apply (f_equal Prim2SF) in H. vm_compute in H. discriminate H.
Qed.

(** C1 (amended): for every valid profile, in meal_text.py and in
    ai_meal_pexels.py, bmr is 10*weight + 6.25*height - 5*age, plus 5 for
    Male, minus 161 for Female, with no offset for Other, in float
    arithmetic from left to right; the gender is one of the three; for the
    male profile of 20 years, 50 kg and 170 cm bmr is exactly 1467.5; the
    same profile gives the same result. *)
Theorem bmr_formula : forall p : profile,
  (MealText.valid p = true ->
     (gender p = "Male"%string ->
        MealText.bmr p
        = 10 * weight p + 6.25 * height p - PyFloat.of_int (5 * age p) + 5)
     /\ (gender p = "Female"%string ->
        MealText.bmr p
        = 10 * weight p + 6.25 * height p - PyFloat.of_int (5 * age p) - 161)
     /\ (gender p = "Other"%string ->
        MealText.bmr p
        = 10 * weight p + 6.25 * height p - PyFloat.of_int (5 * age p))
     /\ In (gender p) ["Male"; "Female"; "Other"]%string)
  /\ (AiMealPexels.valid p = true ->
     (gender p = "Male"%string ->
        AiMealPexels.bmr p
        = 10 * weight p + 6.25 * height p - PyFloat.of_int (5 * age p) + 5)
     /\ (gender p = "Female"%string ->
        AiMealPexels.bmr p
        = 10 * weight p + 6.25 * height p - PyFloat.of_int (5 * age p) - 161)
     /\ (gender p = "Other"%string ->
        AiMealPexels.bmr p
        = 10 * weight p + 6.25 * height p - PyFloat.of_int (5 * age p))
     /\ In (gender p) ["Male"; "Female"; "Other"]%string)
  /\ MealText.bmr male_20_50_170 = 1467.5
  /\ AiMealPexels.bmr male_20_50_170 = 1467.5
  /\ (forall q : profile,
        p = q -> MealText.bmr p = MealText.bmr q
                 /\ AiMealPexels.bmr p = AiMealPexels.bmr q).
Proof.
  intros p. split; [|split; [|split; [|split]]].
  - intros V. destruct (valid_text_fields p V) as (G & _).
    unfold MealText.bmr.
    split; [|split; [|split]]; try (intros ->; reflexivity). exact G.
  - intros V. destruct (valid_pexels_fields p V) as (G & _).
    unfold AiMealPexels.bmr.
    split; [|split; [|split]]; try (intros ->; reflexivity). exact G.
  - reflexivity.
  - reflexivity.
  - intros q <-. split; reflexivity.
Qed.

(** The sample profile is valid in both scripts and its bmr is the Male
    formula. *)
Lemma bmr_formula_witness :
  (MealText.valid male_20_50_170 = true
   /\ MealText.bmr male_20_50_170 = 10 * 50 + 6.25 * 170 - PyFloat.of_int (5 * 20) + 5)
  /\ (AiMealPexels.valid male_20_50_170 = true
      /\ AiMealPexels.bmr male_20_50_170
         = 10 * 50 + 6.25 * 170 - PyFloat.of_int (5 * 20) + 5).
Proof.
  destruct (bmr_formula male_20_50_170) as (HT & HP & _).
  split; (split; [reflexivity|]).
  - exact (proj1 (HT eq_refl) eq_refl).
  - exact (proj1 (HP eq_refl) eq_refl).
Defined.

Lemma factor_cases_text (p : profile) :
  In (activity_level p) MealText.activity_levels ->
  exists f,
    lookup (activity_level p) MealText.activity_factors = Some f
    /\ ((1.2 <=? f) && (f <=? 1.9))%bool = true.
Proof.
  intros [<- | [<- | [<- | [<- | []]]]]; eexists; split; reflexivity.
Qed.

Lemma factor_cases_pexels (p : profile) :
  In (activity_level p) AiMealPexels.activity_levels ->
  exists f,
    lookup (activity_level p) AiMealPexels.activity_factors = Some f
    /\ ((1.2 <=? f) && (f <=? 1.9))%bool = true.
Proof.
  intros [<- | [<- | [<- | [<- | [<- | []]]]]]; eexists; split; reflexivity.
Qed.

(** C2: for every valid profile, in meal_text.py and in ai_meal_pexels.py,
    the activity level has a factor in the table, the factor lies between
    1.2 and 1.9, tdee is bmr times the factor, and calorie_goal is tdee
    times 0.7 for the goal Fat Loss and tdee for the other goals; the
    tables are Sedentary 1.2, Light 1.375, Moderate 1.55, Active 1.725
    and, in ai_meal_pexels.py, Extra_Active 1.9. *)
Theorem tdee_and_calorie_goal : forall p : profile,
  (MealText.valid p = true ->
     exists factor,
       lookup (activity_level p) MealText.activity_factors = Some factor
       /\ ((1.2 <=? factor) && (factor <=? 1.9))%bool = true
       /\ MealText.tdee p = Some (MealText.bmr p * factor)
       /\ (goal p = "Fat Loss"%string ->
           MealText.calorie_goal p = Some (MealText.bmr p * factor * 0.7))
       /\ (goal p <> "Fat Loss"%string ->
           MealText.calorie_goal p = Some (MealText.bmr p * factor)))
  /\ (AiMealPexels.valid p = true ->
     exists factor,
       lookup (activity_level p) AiMealPexels.activity_factors = Some factor
       /\ ((1.2 <=? factor) && (factor <=? 1.9))%bool = true
       /\ AiMealPexels.tdee p = Some (AiMealPexels.bmr p * factor)
       /\ (goal p = "Fat Loss"%string ->
           AiMealPexels.calorie_goal p = Some (AiMealPexels.bmr p * factor * 0.7))
       /\ (goal p <> "Fat Loss"%string ->
           AiMealPexels.calorie_goal p = Some (AiMealPexels.bmr p * factor)))
  /\ MealText.activity_factors
     = [("Sedentary", 1.2); ("Light", 1.375); ("Moderate", 1.55);
        ("Active", 1.725)]%string
  /\ AiMealPexels.activity_factors
     = [("Sedentary", 1.2); ("Light", 1.375); ("Moderate", 1.55);
        ("Active", 1.725); ("Extra_Active", 1.9)]%string.
Proof.
  intros p. split; [|split; [|split]]; try reflexivity.
  - intros V. destruct (valid_text_fields p V) as (_ & L & _).
    destruct (factor_cases_text p L) as (f & E & B).
    exists f. unfold MealText.calorie_goal, MealText.tdee. rewrite E.
    split; [reflexivity|]. split; [exact B|]. split; [reflexivity|]. split.
    + intros ->. reflexivity.
    + intros N. apply String.eqb_neq in N. now rewrite N.
  - intros V. destruct (valid_pexels_fields p V) as (_ & L & _).
    destruct (factor_cases_pexels p L) as (f & E & B).
    exists f. unfold AiMealPexels.calorie_goal, AiMealPexels.tdee. rewrite E.
    split; [reflexivity|]. split; [exact B|]. split; [reflexivity|]. split.
    + intros ->. reflexivity.
    + intros N. apply String.eqb_neq in N. now rewrite N.
Qed.

(** The sample profile (Sedentary, Fat Loss): tdee is bmr times 1.2 and
    the calorie goal is tdee times 0.7. *)
Lemma tdee_and_calorie_goal_witness :
  MealText.valid male_20_50_170 = true
  /\ AiMealPexels.valid male_20_50_170 = true
  /\ AiMealPexels.tdee male_20_50_170 = Some (1467.5 * 1.2)
  /\ AiMealPexels.calorie_goal male_20_50_170 = Some (1467.5 * 1.2 * 0.7)
  /\ exists factor,
       lookup "Sedentary" MealText.activity_factors = Some factor
       /\ ((1.2 <=? factor) && (factor <=? 1.9))%bool = true.
Proof.
  destruct (tdee_and_calorie_goal male_20_50_170) as (HT & HP & _).
  destruct (HT eq_refl) as (f & E & B & _).
  split; [reflexivity|]. split; [reflexivity|]. split; [reflexivity|].
  split; [reflexivity|]. exists f. split; [exact E | exact B].
Defined.

End TargetClaims.

(** ** Rounding and the order of floats *)

Module FloatFacts.
Import PyFloat FloatOrder.
Local Open Scope Z_scope.

(** *** Rounding a quotient to the nearest integer *)

Lemma div_le_cross (n1 d1 n2 d2 : Z) :
  0 < d1 -> 0 < d2 -> n1 * d2 <= n2 * d1 -> n1 / d1 <= n2 / d2.
Proof.
  intros H1 H2 H.
  pose proof (Z.div_mod n1 d1 ltac:(lia)) as E1.
  pose proof (Z.div_mod n2 d2 ltac:(lia)) as E2.
  pose proof (Z.mod_pos_bound n1 d1 H1) as B1.
  pose proof (Z.mod_pos_bound n2 d2 H2) as B2.
  destruct (Z_le_gt_dec (n1 / d1) (n2 / d2)) as [L|G]; [exact L|exfalso].
  assert (n2 / d2 + 1 <= n1 / d1) by lia.
  assert (d1 * (n2 / d2 + 1) <= n1) by nia.
  assert (n2 < d2 * (n2 / d2 + 1)) by nia.
  nia.
Qed.

Lemma rne_div_bounds (n d : Z) :
  0 < d -> n / d <= rne_div n d <= n / d + 1.
Proof.
  intros H. unfold rne_div.
  destruct (2 * (n mod d) ?= d); [destruct (Z.even (n / d))| |]; lia.
Qed.

Lemma rne_div_exact (z d : Z) : 0 < d -> rne_div (z * d) d = z.
Proof.
  intros H. unfold rne_div.
  rewrite Z.div_mul, Z.mod_mul by lia.
  replace (2 * 0 ?= d) with Lt by (symmetry; apply Z.compare_lt_iff; lia).
  reflexivity.
Qed.

Lemma rne_div_le (n1 d1 n2 d2 : Z) :
  0 < d1 -> 0 < d2 -> n1 * d2 <= n2 * d1 -> rne_div n1 d1 <= rne_div n2 d2.
Proof.
  intros H1 H2 H.
  pose proof (div_le_cross n1 d1 n2 d2 H1 H2 H) as Q.
  pose proof (rne_div_bounds n1 d1 H1) as B1.
  pose proof (rne_div_bounds n2 d2 H2) as B2.
  destruct (Z.eq_dec (n1 / d1) (n2 / d2)) as [E|N]; [|lia].
  pose proof (Z.div_mod n1 d1 ltac:(lia)) as E1.
  pose proof (Z.div_mod n2 d2 ltac:(lia)) as E2.
  pose proof (Z.mod_pos_bound n1 d1 H1) as M1.
  pose proof (Z.mod_pos_bound n2 d2 H2) as M2.
  assert (R : (n1 mod d1) * d2 <= (n2 mod d2) * d1) by nia.
  assert (A : d1 <= 2 * (n1 mod d1) -> d2 <= 2 * (n2 mod d2)).
  { intros G. destruct (Z_lt_ge_dec (2 * (n2 mod d2)) d2) as [L|L]; [exfalso|lia].
    assert (2 * (n2 mod d2) * d1 < d2 * d1) by (apply Z.mul_lt_mono_pos_r; lia).
    assert (d1 * d2 <= 2 * (n1 mod d1) * d2) by (apply Z.mul_le_mono_nonneg_r; lia).
    lia. }
  assert (B : d1 < 2 * (n1 mod d1) -> d2 < 2 * (n2 mod d2)).
  { intros G. destruct (Z_le_gt_dec (2 * (n2 mod d2)) d2) as [L|L]; [exfalso|lia].
    assert (2 * (n2 mod d2) * d1 <= d2 * d1) by (apply Z.mul_le_mono_nonneg_r; lia).
    assert (d1 * d2 < 2 * (n1 mod d1) * d2) by (apply Z.mul_lt_mono_pos_r; lia).
    lia. }
  unfold rne_div. rewrite <- E.
  destruct (Z.compare_spec (2 * (n1 mod d1)) d1);
    destruct (Z.compare_spec (2 * (n2 mod d2)) d2);
    destruct (Z.even (n1 / d1)); lia.
Qed.

Lemma rne_div_ge (n d z : Z) : 0 < d -> z * d <= n -> z <= rne_div n d.
Proof.
  intros H L. rewrite <- (rne_div_exact z d H).
  apply rne_div_le; try lia. apply Z.mul_le_mono_nonneg_r; lia.
Qed.

Lemma rne_div_le_int (n d z : Z) : 0 < d -> n <= z * d -> rne_div n d <= z.
Proof.
  intros H L. rewrite <- (rne_div_exact z d H).
  apply rne_div_le; try lia. apply Z.mul_le_mono_nonneg_r; lia.
Qed.

Lemma rne_div_scale (n d c : Z) :
  0 < d -> 0 < c -> rne_div (n * c) (d * c) = rne_div n d.
Proof.
  intros Hd Hc. unfold rne_div.
  rewrite Z.div_mul_cancel_r, Z.mul_mod_distr_r by lia.
  replace (2 * (n mod d * c)) with (2 * (n mod d) * c) by ring.
  now rewrite <- (Zmult_compare_compat_r (2 * (n mod d)) d c) by lia.
Qed.

(** *** The nearest binary64 number, in units *)


Lemma nearest_shift_nonneg (n d : Z) : 0 <= snd (nearest n d).
Proof. unfold nearest. simpl. lia. Qed.

Lemma log2_bounds (q : Z) : 0 <= q -> q < 2 ^ (Z.log2 q + 1).
Proof.
  intros H. destruct (Z.eq_dec q 0) as [->|N]; [reflexivity|].
  apply Z.log2_spec. lia.
Qed.

Lemma nearest_le_2_53 (n d : Z) :
  0 <= n -> 0 < d -> 0 <= fst (nearest n d) <= 2 ^ 53.
Proof.
  intros Hn Hd. unfold nearest. cbn [fst].
  set (q := n / d). set (k := Z.max (Z.log2 q + 1 - 53) 0).
  assert (Hq : 0 <= q) by (apply Z.div_pos; lia).
  assert (Hk : 0 <= k) by lia.
  assert (P : 0 < 2 ^ k) by (apply Z.pow_pos_nonneg; lia).
  split.
  - apply rne_div_ge; nia.
  - apply rne_div_le_int; [nia|].
    pose proof (log2_bounds q Hq) as Hl.
    assert (Hl' : q + 1 <= 2 ^ (53 + k)).
    { assert (2 ^ (Z.log2 q + 1) <= 2 ^ (53 + k)) by (apply Z.pow_le_mono_r; lia). lia. }
    rewrite Z.pow_add_r in Hl' by lia.
    pose proof (Z.div_mod n d ltac:(lia)) as E.
    pose proof (Z.mod_pos_bound n d Hd) as B. fold q in E.
    nia.
Qed.

Lemma nearest_ge_2_52 (n d : Z) :
  0 <= n -> 0 < d -> 1 <= snd (nearest n d) -> 2 ^ 52 <= fst (nearest n d).
Proof.
  intros Hn Hd. unfold nearest. cbn [fst snd].
  set (q := n / d). set (k := Z.max (Z.log2 q + 1 - 53) 0). intros Hk.
  assert (Hq : 0 < q).
  { destruct (Z.eq_dec q 0) as [E|N]; [|assert (0 <= q) by (apply Z.div_pos; lia); lia].
    subst k. rewrite E in Hk. simpl in Hk. lia. }
  assert (P : 0 < 2 ^ k) by (apply Z.pow_pos_nonneg; lia).
  apply rne_div_ge; [nia|].
  pose proof (proj1 (Z.log2_spec q Hq)) as Hl.
  assert (Ek : Z.log2 q = 52 + k) by lia.
  rewrite Ek, Z.pow_add_r in Hl by lia.
  pose proof (Z.div_mod n d ltac:(lia)) as E.
  pose proof (Z.mod_pos_bound n d Hd) as B. fold q in E.
  nia.
Qed.

Lemma nearest_value_le (n1 d1 n2 d2 : Z) :
  0 <= n1 -> 0 < d1 -> 0 <= n2 -> 0 < d2 -> n1 * d2 <= n2 * d1 ->
  value (nearest n1 d1) <= value (nearest n2 d2).
Proof.
  intros Hn1 Hd1 Hn2 Hd2 H.
  pose proof (nearest_le_2_53 n1 d1 Hn1 Hd1) as A1.
  pose proof (nearest_ge_2_52 n2 d2 Hn2 Hd2) as A2.
  pose proof (nearest_le_2_53 n2 d2 Hn2 Hd2) as A3.
  unfold value. unfold nearest in *. cbn [fst snd] in *.
  set (q1 := n1 / d1) in *. set (q2 := n2 / d2) in *.
  set (k1 := Z.max (Z.log2 q1 + 1 - 53) 0) in *.
  set (k2 := Z.max (Z.log2 q2 + 1 - 53) 0) in *.
  assert (Q : q1 <= q2) by (apply div_le_cross; assumption).
  assert (Hq1 : 0 <= q1) by (apply Z.div_pos; lia).
  assert (L : Z.log2 q1 <= Z.log2 q2) by (apply Z.log2_le_mono; exact Q).
  assert (K : k1 <= k2) by lia.
  assert (P1 : 0 < 2 ^ k1) by (apply Z.pow_pos_nonneg; lia).
  assert (P2 : 0 < 2 ^ k2) by (apply Z.pow_pos_nonneg; lia).
  destruct (Z.eq_dec k1 k2) as [E|N].
  - rewrite <- E in *. apply Z.mul_le_mono_nonneg_r; [lia|].
    apply rne_div_le; nia.
  - assert (K' : k1 + 1 <= k2) by lia.
    specialize (A2 ltac:(lia)).
    assert (2 ^ (k1 + 1) <= 2 ^ k2) by (apply Z.pow_le_mono_r; lia).
    rewrite Z.pow_add_r in H0 by lia. change (2 ^ 1) with 2 in H0.
    change (2 ^ 53) with (2 * 2 ^ 52) in A1.
    assert (0 < 2 ^ 52) by reflexivity.
    nia.
Qed.


(** *** Floats from units *)

Lemma digits2_size (m : positive) : digits2_pos m = Pos.size m.
Proof. induction m; simpl; congruence. Qed.

Lemma digits2_log2 (m : positive) : Z.pos (digits2_pos m) = Z.log2 (Z.pos m) + 1.
Proof.
  rewrite digits2_size. destruct m; simpl; try rewrite Pos2Z.inj_succ; lia.
Qed.

Lemma pow2_pos (k : Z) : 0 <= k -> 0 < 2 ^ k.
Proof. intros. apply Z.pow_pos_nonneg; lia. Qed.

Lemma units_pos (m : positive) (e : Z) : -1074 <= e -> 0 < units m e.
Proof.
  intros H. unfold units. pose proof (pow2_pos (e + 1074) ltac:(lia)). nia.
Qed.

(** What validity says of a finite float. *)
Lemma valid_finite (s : bool) (m : positive) (e : Z) :
  valid_binary (S754_finite s m e) = true ->
  -1074 <= e <= 971 /\ Z.pos m < 2 ^ 53 /\ (-1074 < e -> 2 ^ 52 <= Z.pos m).
Proof.
  unfold SpecFloat.valid_binary, bounded, canonical_mantissa, fexp, SpecFloat.emin, prec, emax.
  rewrite Bool.andb_true_iff, Z.eqb_eq, Z.leb_le, digits2_log2.
  intros [C B].
  assert (L : Z.log2 (Z.pos m) <= 52) by lia.
  split; [lia|]. split.
  - apply Z.log2_lt_pow2; lia.
  - intros He. assert (E : Z.log2 (Z.pos m) = 52) by lia.
    rewrite <- E. apply Z.log2_spec. lia.
Qed.

Lemma valid_finite_intro (s : bool) (m : positive) (e : Z) :
  -1074 <= e <= 971 -> Z.pos m < 2 ^ 53 -> (-1074 < e -> 2 ^ 52 <= Z.pos m) ->
  valid_binary (S754_finite s m e) = true.
Proof.
  intros He Hm Hn.
  unfold SpecFloat.valid_binary, bounded, canonical_mantissa, fexp, SpecFloat.emin, prec, emax.
  rewrite Bool.andb_true_iff, Z.eqb_eq, Z.leb_le, digits2_log2.
  assert (L : Z.log2 (Z.pos m) < 53) by (apply Z.log2_lt_pow2; lia).
  split; [|lia].
  destruct (Z.eq_dec e (-1074)) as [->|N]; [lia|].
  assert (52 <= Z.log2 (Z.pos m)) by (apply Z.log2_le_pow2; lia).
  lia.
Qed.

Lemma units_lt_2098 (m : positive) (e : Z) :
  -1074 <= e <= 971 -> Z.pos m < 2 ^ 53 -> units m e < 2 ^ 2098.
Proof.
  intros He Hm. unfold units.
  assert (2 ^ (e + 1074) <= 2 ^ 2045) by (apply Z.pow_le_mono_r; lia).
  pose proof (pow2_pos (e + 1074) ltac:(lia)).
  change (2 ^ 2098) with (2 ^ 53 * 2 ^ 2045).
  assert (0 < 2 ^ 53) by reflexivity.
  nia.
Qed.

Lemma capped_le (v w : Z) : v <= w -> capped v <= capped w.
Proof.
  unfold capped, INF. intros H.
  assert (2 ^ 2098 <= 2 ^ 2200) by (apply Z.pow_le_mono_r; lia).
  destruct (Z.ltb_spec v (2 ^ 2098)); destruct (Z.ltb_spec w (2 ^ 2098)); lia.
Qed.

Lemma capped_nonneg (v : Z) : 0 <= v -> 0 <= capped v.
Proof.
  unfold capped, INF. intros H. destruct (v <? 2 ^ 2098); [exact H|].
  apply Z.pow_nonneg. lia.
Qed.

(** The float built from a mantissa and a shift that meet the bounds of
    [nearest] is valid, and its place in the order is its capped value. *)
Lemma SF_of_units_spec (s : bool) (M k : Z) :
  0 <= k -> 0 <= M <= 2 ^ 53 -> (1 <= k -> 2 ^ 52 <= M) ->
  ord (SF_of_units s (M, k)) = signed s (capped (M * 2 ^ k))
  /\ valid_binary (SF_of_units s (M, k)) = true
  /\ is_nan (SF_of_units s (M, k)) = false.
Proof.
  intros Hk HM Hn. unfold SF_of_units.
  assert (P53 : 2 ^ 53 = 2 * 2 ^ 52) by reflexivity.
  assert (P52 : 0 < 2 ^ 52) by reflexivity.
  assert (Pk : 0 < 2 ^ k) by (apply pow2_pos; lia).
  assert (T : 2 ^ 2098 = 2 ^ 53 * 2 ^ 2045) by reflexivity.
  destruct (Z.eqb_spec M 0) as [->|N0].
  { split; [|split; reflexivity]. simpl. unfold capped, signed. simpl. now destruct s. }
  destruct (Z.eqb_spec M (2 ^ 53)) as [->|N53].
  - destruct (Z.leb_spec (k + 1 - 1074) 971) as [L|L].
    + assert (E : units (Z.to_pos (2 ^ 52)) (k + 1 - 1074) = 2 ^ 53 * 2 ^ k).
      { unfold units. rewrite Z2Pos.id by lia.
        replace (k + 1 - 1074 + 1074) with (k + 1) by lia.
        rewrite Z.pow_add_r by lia. change (2 ^ 1) with 2. lia. }
      split; [|split; [|reflexivity]].
      * cbn [ord]. rewrite E. unfold capped.
        assert (2 ^ k <= 2 ^ 2044) by (apply Z.pow_le_mono_r; lia).
        assert (2 ^ 2045 = 2 * 2 ^ 2044) by reflexivity.
        destruct (Z.ltb_spec (2 ^ 53 * 2 ^ k) (2 ^ 2098)); [reflexivity|nia].
      * apply valid_finite_intro; rewrite ?Z2Pos.id by lia; lia.
    + split; [|split; reflexivity].
      cbn [ord]. unfold capped, signed.
      assert (2 ^ 2045 <= 2 ^ k) by (apply Z.pow_le_mono_r; lia).
      destruct (Z.ltb_spec (2 ^ 53 * 2 ^ k) (2 ^ 2098)); [nia|reflexivity].
  - assert (HM' : 0 < M < 2 ^ 53) by lia.
    destruct (Z.leb_spec (k - 1074) 971) as [L|L].
    + assert (E : units (Z.to_pos M) (k - 1074) = M * 2 ^ k).
      { unfold units. rewrite Z2Pos.id by lia. f_equal. f_equal. lia. }
      split; [|split; [|reflexivity]].
      * cbn [ord]. rewrite E. unfold capped.
        assert (2 ^ k <= 2 ^ 2045) by (apply Z.pow_le_mono_r; lia).
        destruct (Z.ltb_spec (M * 2 ^ k) (2 ^ 2098)); [reflexivity|nia].
      * apply valid_finite_intro; rewrite ?Z2Pos.id by lia;
          [lia | lia | intros Hk1; apply Hn; lia].
    + split; [|split; reflexivity].
      cbn [ord]. unfold capped, signed.
      assert (2 ^ 2046 <= 2 ^ k) by (apply Z.pow_le_mono_r; lia).
      assert (2 ^ 2046 = 2 * 2 ^ 2045) by reflexivity.
      specialize (Hn ltac:(lia)).
      destruct (Z.ltb_spec (M * 2 ^ k) (2 ^ 2098)); [nia|reflexivity].
Qed.

(** *** The order of valid floats *)

Lemma valid_ord_bound (x : spec_float) :
  valid_binary x = true -> is_nan x = false -> - INF <= ord x <= INF.
Proof.
  intros V N. assert (I : 2 ^ 2098 <= INF) by (apply Z.pow_le_mono_r; lia).
  assert (0 < 2 ^ 2098) by (apply pow2_pos; lia).
  destruct x as [s|[|]| |[|] m e]; cbn [ord]; try lia; try discriminate;
    destruct (valid_finite _ m e V) as (He & Hm & _);
    pose proof (units_lt_2098 m e He Hm); pose proof (units_pos m e ltac:(lia)); lia.
Qed.

Lemma units_compare (m1 m2 : positive) (e1 e2 : Z) :
  valid_binary (S754_finite false m1 e1) = true ->
  valid_binary (S754_finite false m2 e2) = true ->
  (units m1 e1 ?= units m2 e2)
  = match e1 ?= e2 with
    | Lt => Lt
    | Gt => Gt
    | Eq => Pos.compare_cont Eq m1 m2
    end.
Proof.
  intros V1 V2.
  destruct (valid_finite _ _ _ V1) as (He1 & Hm1 & Hn1).
  destruct (valid_finite _ _ _ V2) as (He2 & Hm2 & Hn2).
  assert (P53 : 2 ^ 53 = 2 * 2 ^ 52) by reflexivity.
  assert (P52 : 0 < 2 ^ 52) by reflexivity.
  assert (Lt12 : forall ma ea mb eb,
             -1074 <= ea -> ea < eb -> Z.pos ma < 2 ^ 53 -> 2 ^ 52 <= Z.pos mb ->
             units ma ea < units mb eb).
  { intros ma ea mb eb Ha Hab Hma Hmb. unfold units.
    assert (2 ^ (ea + 1074 + 1) <= 2 ^ (eb + 1074)) by (apply Z.pow_le_mono_r; lia).
    rewrite Z.pow_add_r in H by lia. change (2 ^ 1) with 2 in H.
    pose proof (pow2_pos (ea + 1074) ltac:(lia)). nia. }
  unfold units in *.
  destruct (Z.compare_spec e1 e2) as [->|L|G].
  - pose proof (pow2_pos (e2 + 1074) ltac:(lia)).
    rewrite <- (Zmult_compare_compat_r (Z.pos m1) (Z.pos m2) (2 ^ (e2 + 1074))) by lia.
    reflexivity.
  - apply Z.compare_lt_iff. apply Lt12; try lia; apply Hn2; lia.
  - apply Z.compare_gt_iff. apply Lt12; try lia; apply Hn1; lia.
Qed.

(** On valid floats the comparison of the standard is the comparison of
    the places in the order. *)
Lemma SFcompare_ord (x y : spec_float) :
  valid_binary x = true -> valid_binary y = true ->
  is_nan x = false -> is_nan y = false ->
  SFcompare x y = Some (ord x ?= ord y).
Proof.
  intros Vx Vy Nx Ny.
  assert (F : forall s m e, valid_binary (S754_finite s m e) = true ->
                            0 < units m e < INF).
  { intros s m e V. destruct (valid_finite _ m e V) as (He & Hm & _).
    pose proof (units_lt_2098 m e He Hm). pose proof (units_pos m e ltac:(lia)).
    assert (I' : 2 ^ 2098 < INF) by (apply Z.pow_lt_mono_r; lia). lia. }
  assert (I : 0 < INF) by (apply pow2_pos; lia).
  destruct x as [sx|sx| |sx mx ex]; try discriminate;
  destruct y as [sy|sy| |sy my ey]; try discriminate;
  cbn [SFcompare ord]; set (inf := INF) in *; clearbody inf;
  apply f_equal; symmetry.
  - reflexivity.
  - destruct sy; [apply Z.compare_gt_iff | apply Z.compare_lt_iff]; lia.
  - pose proof (F _ _ _ Vy) as Fy. set (uy := units my ey) in *. clearbody uy.
    destruct sy; [apply Z.compare_gt_iff | apply Z.compare_lt_iff]; lia.
  - destruct sx; [apply Z.compare_lt_iff | apply Z.compare_gt_iff]; lia.
  - destruct sx, sy;
      [apply Z.compare_eq_iff | apply Z.compare_lt_iff
       | apply Z.compare_gt_iff | apply Z.compare_eq_iff]; lia.
  - pose proof (F _ _ _ Vy) as Fy. set (uy := units my ey) in *. clearbody uy.
    destruct sx, sy;
      [apply Z.compare_lt_iff | apply Z.compare_lt_iff
       | apply Z.compare_gt_iff | apply Z.compare_gt_iff]; lia.
  - pose proof (F _ _ _ Vx) as Fx. set (ux := units mx ex) in *. clearbody ux.
    destruct sx; [apply Z.compare_lt_iff | apply Z.compare_gt_iff]; lia.
  - pose proof (F _ _ _ Vx) as Fx. set (ux := units mx ex) in *. clearbody ux.
    destruct sx, sy;
      [apply Z.compare_gt_iff | apply Z.compare_lt_iff
       | apply Z.compare_gt_iff | apply Z.compare_lt_iff]; lia.
  - pose proof (F _ _ _ Vx) as Fx. pose proof (F _ _ _ Vy) as Fy.
    destruct sx, sy.
    + rewrite Z.compare_opp, (units_compare my mx ey ex Vy Vx).
      rewrite (Z.compare_antisym ex ey).
      pose proof (Pos.compare_cont_antisym mx my Eq) as A. cbn [CompOpp] in A.
      rewrite <- A. destruct (ex ?= ey); reflexivity.
    + set (ux := units mx ex) in *. set (uy := units my ey) in *.
      clearbody ux uy. apply Z.compare_lt_iff. lia.
    + set (ux := units mx ex) in *. set (uy := units my ey) in *.
      clearbody ux uy. apply Z.compare_gt_iff. lia.
    + apply units_compare; assumption.
Qed.

Lemma SFleb_ord (x y : spec_float) :
  valid_binary x = true -> valid_binary y = true ->
  is_nan x = false -> is_nan y = false ->
  SFleb x y = (ord x <=? ord y).
Proof.
  intros Vx Vy Nx Ny. unfold SFleb. rewrite SFcompare_ord by assumption.
  unfold Z.leb. destruct (ord x ?= ord y); reflexivity.
Qed.

Lemma SFleb_not_nan (x y : spec_float) :
  SFleb x y = true -> is_nan x = false /\ is_nan y = false.
Proof.
  unfold SFleb. destruct x as [sx|sx| |sx mx ex]; destruct y as [sy|sy| |sy my ey];
    simpl; try discriminate; auto.
Qed.

(** *** The rounding of the standard *)

Lemma iter_pos_nat {A} (f : A -> A) (p : positive) :
  forall x, iter_pos f p x = Nat.iter (Pos.to_nat p) f x.
Proof.
  induction p as [p IH|p IH|]; intros x; cbn [iter_pos].
  - rewrite !IH. rewrite Pos2Nat.inj_xI.
    replace (S (2 * Pos.to_nat p)) with (Pos.to_nat p + (Pos.to_nat p + 1))%nat by lia.
    rewrite !Nat.iter_add. reflexivity.
  - rewrite !IH. rewrite Pos2Nat.inj_xO.
    replace (2 * Pos.to_nat p)%nat with (Pos.to_nat p + Pos.to_nat p)%nat by lia.
    rewrite Nat.iter_add. reflexivity.
  - reflexivity.
Qed.

Lemma shr_1_spec (m : Z) (r s : bool) :
  0 <= m ->
  shr_1 {| shr_m := m; shr_r := r; shr_s := s |}
  = {| shr_m := m / 2; shr_r := Z.odd m; shr_s := r || s |}.
Proof.
  intros H. rewrite <- Z.div2_div.
  destruct m as [|[p|p|]|]; try reflexivity. lia.
Qed.

(** After [j] shifts of [m]: the quotient by [2^j], the bit shifted out
    last, and whether anything was shifted out before it. *)
Lemma shr_iter (m : Z) (j : nat) :
  0 <= m ->
  exists r s,
    Nat.iter j shr_1 {| shr_m := m; shr_r := false; shr_s := false |}
    = {| shr_m := m / 2 ^ Z.of_nat j; shr_r := r; shr_s := s |}
    /\ ((j = 0%nat /\ r = false /\ s = false)
        \/ ((0 < j)%nat
            /\ exists t,
                 0 <= t < 2 ^ (Z.of_nat j - 1)
                 /\ m mod 2 ^ Z.of_nat j
                    = (if r then 2 ^ (Z.of_nat j - 1) else 0) + t
                 /\ s = negb (t =? 0))).
Proof.
  intros Hm. induction j as [|j (r & s & E & Inv)].
  - exists false, false. split; [simpl; now rewrite Z.div_1_r | left; auto].
  - rewrite Nat.iter_succ, E.
    assert (Pj : 0 < 2 ^ Z.of_nat j) by (apply pow2_pos; lia).
    assert (Q : 0 <= m / 2 ^ Z.of_nat j) by (apply Z.div_pos; lia).
    rewrite shr_1_spec by exact Q.
    exists (Z.odd (m / 2 ^ Z.of_nat j)), (r || s)%bool. split.
    + f_equal. rewrite Z.div_div by lia. f_equal.
      rewrite Nat2Z.inj_succ, Z.pow_succ_r by lia. lia.
    + right. split; [lia|].
      exists (m mod 2 ^ Z.of_nat j).
      replace (Z.of_nat (S j) - 1) with (Z.of_nat j) by lia.
      split; [apply Z.mod_pos_bound; lia|]. split.
      * rewrite Nat2Z.inj_succ, Z.pow_succ_r by lia.
        rewrite (Z.mul_comm 2), Z.rem_mul_r by lia.
        rewrite Zmod_odd. destruct (Z.odd (m / 2 ^ Z.of_nat j)); lia.
      * destruct Inv as [(-> & -> & ->) | (Hj & t & Ht & Et & ->)].
        -- simpl. now rewrite Z.mod_1_r.
        -- rewrite Et.
           assert (0 < 2 ^ (Z.of_nat j - 1)) by (apply pow2_pos; lia).
           destruct r; simpl.
           ++ symmetry. apply Bool.negb_true_iff, Z.eqb_neq. lia.
           ++ reflexivity.
Qed.

Lemma round_shr (m : Z) (p : positive) :
  0 <= m ->
  let rec := iter_pos shr_1 p {| shr_m := m; shr_r := false; shr_s := false |} in
  round_nearest_even (shr_m rec) (loc_of_shr_record rec) = rne_div m (2 ^ Z.pos p).
Proof.
  intros Hm rec. subst rec. rewrite iter_pos_nat.
  destruct (shr_iter m (Pos.to_nat p) Hm) as (r & s & E & Inv).
  rewrite E. rewrite positive_nat_Z in *.
  destruct Inv as [(Hj & _) | (_ & t & Ht & Et & ->)]; [lia|].
  cbn [shr_m]. unfold rne_div. rewrite Et.
  assert (P : 2 ^ Z.pos p = 2 * 2 ^ (Z.pos p - 1)).
  { rewrite <- Z.pow_succ_r by lia. f_equal. lia. }
  assert (0 < 2 ^ (Z.pos p - 1)) by (apply pow2_pos; lia).
  destruct (Z.eq_dec t 0) as [Zt|Nt].
  - rewrite (proj2 (Z.eqb_eq t 0) Zt).
    destruct r; cbn [negb loc_of_shr_record round_nearest_even].
    + replace (2 * (2 ^ (Z.pos p - 1) + t) ?= 2 ^ Z.pos p) with Eq
        by (symmetry; apply Z.compare_eq_iff; lia).
      reflexivity.
    + replace (2 * (0 + t) ?= 2 ^ Z.pos p) with Lt
        by (symmetry; apply Z.compare_lt_iff; lia).
      reflexivity.
  - rewrite (proj2 (Z.eqb_neq t 0) Nt).
    destruct r; cbn [negb loc_of_shr_record round_nearest_even].
    + replace (2 * (2 ^ (Z.pos p - 1) + t) ?= 2 ^ Z.pos p) with Gt
        by (symmetry; apply Z.compare_gt_iff; lia).
      reflexivity.
    + replace (2 * (0 + t) ?= 2 ^ Z.pos p) with Lt
        by (symmetry; apply Z.compare_lt_iff; lia).
      reflexivity.
Qed.

Lemma log2_scaled (m : positive) (a b : Z) :
  0 <= a -> 0 <= b ->
  Z.log2 (Z.pos m * 2 ^ a / 2 ^ b) = Z.max 0 (Z.log2 (Z.pos m) + a - b).
Proof.
  intros Ha Hb.
  rewrite <- Z.shiftl_mul_pow2, <- Z.shiftr_div_pow2 by lia.
  assert (0 < Z.shiftl (Z.pos m) a).
  { rewrite Z.shiftl_mul_pow2 by lia. pose proof (pow2_pos a Ha). lia. }
  rewrite Z.log2_shiftr by lia. rewrite Z.log2_shiftl by lia. reflexivity.
Qed.

(** The rounding of the standard on an exact product [m * 2^e] whose last
    bits have to go is the nearest float of this development. *)
Lemma round_aux_nearest (s : bool) (m : positive) (e a b : Z) :
  0 <= a -> 0 <= b -> a - b = e + 1074 ->
  1 <= Z.max (Z.log2 (Z.pos m) + 1 + e - 53) (-1074) - e ->
  binary_round_aux prec emax s (Z.pos m) e loc_Exact
  = SF_of_units s (nearest (Z.pos m * 2 ^ a) (2 ^ b)).
Proof.
  intros Ha Hb Hab Hn.
  unfold binary_round_aux, shr_fexp at 1.
  cbn [Zdigits2 shr_record_of_loc]. rewrite digits2_log2.
  unfold fexp at 1. unfold SpecFloat.emin, prec, emax.
  change (3 - 1024 - 53) with (-1074).
  set (E := Z.max (Z.log2 (Z.pos m) + 1 + e - 53) (-1074)) in *.
  destruct (E - e) as [|p|p] eqn:En; try lia.
  cbn [shr].
  pose proof (round_shr (Z.pos m) p ltac:(lia)) as R. cbn zeta in R. rewrite R. clear R.
  replace (e + Z.pos p) with E by lia.
  set (M1 := rne_div (Z.pos m) (2 ^ Z.pos p)).
  (* the same mantissa and shift as [nearest] *)
  assert (Pp : 0 < 2 ^ Z.pos p) by (apply pow2_pos; lia).
  assert (Pa : 0 < 2 ^ a) by (apply pow2_pos; lia).
  assert (Pb : 0 < 2 ^ b) by (apply pow2_pos; lia).
  assert (HN : nearest (Z.pos m * 2 ^ a) (2 ^ b) = (M1, E + 1074)).
  { unfold nearest. rewrite log2_scaled by lia.
    replace (Z.max (Z.max 0 (Z.log2 (Z.pos m) + a - b) + 1 - 53) 0)
      with (E + 1074) by lia.
    f_equal. rewrite <- Z.pow_add_r by lia.
    replace (b + (E + 1074)) with (Z.pos p + a) by lia.
    rewrite Z.pow_add_r by lia. now apply rne_div_scale. }
  rewrite HN.
  assert (B1 : 0 <= M1 <= 2 ^ 53).
  { pose proof (nearest_le_2_53 (Z.pos m * 2 ^ a) (2 ^ b) ltac:(lia) Pb) as B.
    now rewrite HN in B. }
  unfold SF_of_units, shr_fexp, fexp, SpecFloat.emin.
  change (3 - 1024 - 53) with (-1074). change (1024 - 53) with 971.
  destruct M1 as [|q|q] eqn:EM; [| |lia].
  - (* the product rounds to zero *)
    cbn [Zdigits2 Z.eqb shr_record_of_loc].
    destruct (Z.max (0 + E - 53) (-1074) - E) as [|p'|p'] eqn:En'; try lia.
    + reflexivity.
    + reflexivity.
  - cbn [Zdigits2 shr_record_of_loc]. rewrite digits2_log2.
    replace (Z.pos q =? 0) with false by reflexivity.
    destruct (Z.eqb_spec (Z.pos q) (2 ^ 53)) as [E53|N53].
    + (* the mantissa reached 2^53: one more shift *)
      rewrite E53. change (Z.log2 (2 ^ 53)) with 53.
      replace (Z.max (53 + 1 + E - 53) (-1074) - E) with 1 by lia.
      cbn [shr iter_pos]. rewrite shr_1_spec by lia.
      change (2 ^ 53 / 2) with (2 ^ 52). cbn [shr_m].
      replace (E + 1074 + 1 - 1074) with (E + 1) by lia.
      reflexivity.
    + assert (L : Z.log2 (Z.pos q) < 53) by (apply Z.log2_lt_pow2; lia).
      destruct (Z.max (Z.log2 (Z.pos q) + 1 + E - 53) (-1074) - E) as [|p'|p'] eqn:En';
        try lia; cbn [shr shr_m];
        replace (E + 1074 - 1074) with E by lia; reflexivity.
Qed.

(** *** Places are monotone *)

Lemma place_le (n1 d1 n2 d2 : Z) :
  0 <= n1 -> 0 < d1 -> 0 <= n2 -> 0 < d2 -> n1 * d2 <= n2 * d1 ->
  place n1 d1 <= place n2 d2.
Proof. intros. unfold place. now apply capped_le, nearest_value_le. Qed.

Lemma value_nonneg (n d : Z) : 0 <= n -> 0 < d -> 0 <= value (nearest n d).
Proof.
  intros Hn Hd. unfold value.
  pose proof (nearest_le_2_53 n d Hn Hd). pose proof (nearest_shift_nonneg n d).
  pose proof (pow2_pos (snd (nearest n d)) ltac:(lia)). nia.
Qed.

Lemma place_nonneg (n d : Z) : 0 <= n -> 0 < d -> 0 <= place n d.
Proof. intros. unfold place. now apply capped_nonneg, value_nonneg. Qed.

Lemma place_zero (d : Z) : 0 < d -> place 0 d = 0.
Proof.
  intros Hd. unfold place, nearest, value. rewrite Z.div_0_l by lia.
  cbn [Z.log2 Z.max Z.add Z.sub Z.opp Z.compare Z.pos_sub fst snd].
  unfold rne_div. rewrite Z.div_0_l, Z.mod_0_l by lia. 
  replace (2 * 0 ?= d * 2 ^ 0) with Lt by (symmetry; apply Z.compare_lt_iff; lia).
  reflexivity.
Qed.

(** A quotient beyond the finite floats has the place of infinity. *)
Lemma place_big (n d : Z) : 0 < d -> 2 ^ 2098 * d <= n -> place n d = INF.
Proof.
  intros Hd H.
  assert (P : 0 < 2 ^ 2098) by (apply pow2_pos; lia).
  assert (V : value (nearest (2 ^ 2098) 1) = 2 ^ 2098) by (vm_compute; reflexivity).
  pose proof (nearest_value_le (2 ^ 2098) 1 n d ltac:(lia) ltac:(lia) ltac:(nia) Hd ltac:(lia)) as L.
  rewrite V in L. unfold place, capped.
  destruct (Z.ltb_spec (value (nearest n d)) (2 ^ 2098)); [lia | reflexivity].
Qed.

Lemma odd_ext_le (g : Z -> Z) (v1 v2 : Z) :
  (forall u1 u2, 0 <= u1 <= u2 -> g u1 <= g u2) ->
  (forall u, 0 <= u -> 0 <= g u) ->
  v1 <= v2 -> odd_ext g v1 <= odd_ext g v2.
Proof.
  intros Hm Hp H. unfold odd_ext.
  destruct (Z.ltb_spec v1 0); destruct (Z.ltb_spec v2 0).
  - assert (g (- v2) <= g (- v1)) by (apply Hm; lia). lia.
  - pose proof (Hp (- v1) ltac:(lia)). pose proof (Hp v2 ltac:(lia)). lia.
  - lia.
  - apply Hm. lia.
Qed.

Lemma times_place_le (mc : positive) (v1 v2 : Z) :
  v1 <= v2 -> odd_ext (times_place mc) v1 <= odd_ext (times_place mc) v2.
Proof.
  assert (P : 0 < 2 ^ 52) by reflexivity.
  apply odd_ext_le.
  - intros u1 u2 H. unfold times_place. apply place_le; try nia.
  - intros u H. unfold times_place. apply place_nonneg; nia.
Qed.

Lemma round1_place_le (v1 v2 : Z) :
  v1 <= v2 -> odd_ext round1_place v1 <= odd_ext round1_place v2.
Proof.
  assert (P : 0 < 2 ^ 1074) by (apply pow2_pos; lia).
  assert (T : forall u, 0 <= u -> 0 <= rne_div (10 * u) (2 ^ 1074))
    by (intros u H; apply rne_div_ge; lia).
  apply odd_ext_le.
  - intros u1 u2 H. unfold round1_place.
    pose proof (T u1 ltac:(lia)). pose proof (T u2 ltac:(lia)).
    assert (rne_div (10 * u1) (2 ^ 1074) <= rne_div (10 * u2) (2 ^ 1074))
      by (apply rne_div_le; lia).
    apply place_le; nia.
  - intros u H. unfold round1_place. pose proof (T u H).
    apply place_nonneg; nia.
Qed.

(** *** Multiplication by a positive normal float and rounding to one
        decimal, in the order *)

Lemma SFmul_place (x : spec_float) (mc : positive) :
  valid_binary x = true -> is_nan x = false ->
  2 ^ 52 <= Z.pos mc ->
  ord (SFmul prec emax x (S754_finite false mc (-52)))
  = odd_ext (times_place mc) (ord x)
  /\ is_nan (SFmul prec emax x (S754_finite false mc (-52))) = false.
Proof.
  intros V N Hc.
  assert (P52 : 0 < 2 ^ 52) by reflexivity.
  destruct x as [s|s| |s m e]; try discriminate.
  - split; [|reflexivity]. cbn [SFmul ord]. unfold odd_ext, times_place.
    cbn [Z.ltb Z.compare Z.mul]. now rewrite place_zero.
  - split; [|reflexivity]. cbn [SFmul ord]. rewrite Bool.xorb_false_r.
    assert (I : 0 < INF) by (apply pow2_pos; lia).
    assert (B : times_place mc INF = INF).
    { unfold times_place. apply place_big; [exact P52|].
      assert (2 ^ 2098 * 2 ^ 52 <= INF) by (vm_compute; discriminate). nia. }
    unfold odd_ext. destruct s.
    + replace (- INF <? 0) with true by (symmetry; apply Z.ltb_lt; lia).
      now rewrite Z.opp_involutive, B.
    + replace (INF <? 0) with false by (symmetry; apply Z.ltb_ge; lia).
      now rewrite B.
  - destruct (valid_finite s m e V) as (He & Hm & Hn).
    pose proof (units_pos m e ltac:(lia)) as U.
    cbn [SFmul]. rewrite Bool.xorb_false_r.
    assert (L : Z.log2 (Z.pos m) + 52 <= Z.log2 (Z.pos (m * mc))).
    { assert (52 <= Z.log2 (Z.pos mc)) by (apply Z.log2_le_pow2; lia).
      pose proof (Z.log2_mul_below (Z.pos m) (Z.pos mc) ltac:(lia) ltac:(lia)).
      rewrite Pos2Z.inj_mul. lia. }
    assert (L0 : 0 <= Z.log2 (Z.pos m)) by apply Z.log2_nonneg.
    assert (Ln : -1074 < e -> 52 <= Z.log2 (Z.pos m)).
    { intros H. apply Z.log2_le_pow2; [lia | now apply Hn]. }
    rewrite (round_aux_nearest s (m * mc) (e + -52) (e + 1074) 52) by lia.
    replace (Z.pos (m * mc) * 2 ^ (e + 1074)) with (units m e * Z.pos mc)
      by (unfold units; rewrite Pos2Z.inj_mul; ring).
    set (n := units m e * Z.pos mc).
    assert (Hn0 : 0 <= n) by (subst n; nia).
    pose proof (nearest_le_2_53 n (2 ^ 52) Hn0 P52) as B1.
    pose proof (nearest_ge_2_52 n (2 ^ 52) Hn0 P52) as B2.
    pose proof (nearest_shift_nonneg n (2 ^ 52)) as B3.
    destruct (nearest n (2 ^ 52)) as [M k] eqn:EN. cbn [fst snd] in *.
    destruct (SF_of_units_spec s M k B3 B1 B2) as (O & _ & Nn).
    split; [|exact Nn]. rewrite O.
    unfold odd_ext, times_place, place, signed. cbn [ord].
    destruct s.
    + replace (- units m e <? 0) with true by (symmetry; apply Z.ltb_lt; lia).
      rewrite Z.opp_involutive. fold n. now rewrite EN.
    + replace (units m e <? 0) with false by (symmetry; apply Z.ltb_ge; lia).
      fold n. now rewrite EN.
Qed.

Lemma round1_SF_place (y : spec_float) :
  valid_binary y = true -> is_nan y = false ->
  ord (round1_SF y) = odd_ext round1_place (ord y)
  /\ valid_binary (round1_SF y) = true
  /\ is_nan (round1_SF y) = false.
Proof.
  intros V N.
  destruct y as [s|s| |s m e]; try discriminate.
  - split; [|split; reflexivity]. cbn [round1_SF ord]. unfold odd_ext, round1_place.
    cbn [Z.ltb Z.compare]. vm_compute. reflexivity.
  - split; [|split; reflexivity]. cbn [round1_SF ord].
    assert (I : 0 < INF) by (apply pow2_pos; lia).
    assert (B : round1_place INF = INF) by (vm_compute; reflexivity).
    unfold odd_ext. destruct s.
    + replace (- INF <? 0) with true by (symmetry; apply Z.ltb_lt; lia).
      now rewrite Z.opp_involutive, B.
    + replace (INF <? 0) with false by (symmetry; apply Z.ltb_ge; lia).
      now rewrite B.
  - destruct (valid_finite s m e V) as (He & Hm & Hn).
    pose proof (units_pos m e ltac:(lia)) as U.
    cbn [round1_SF].
    assert (P : 0 < 2 ^ 1074) by (apply pow2_pos; lia).
    set (tenths := rne_div (10 * units m e) (2 ^ 1074)).
    assert (T : 0 <= tenths) by (apply rne_div_ge; lia).
    set (n := tenths * 2 ^ 1074).
    assert (Hn0 : 0 <= n) by (subst n; nia).
    pose proof (nearest_le_2_53 n 10 Hn0 ltac:(lia)) as B1.
    pose proof (nearest_ge_2_52 n 10 Hn0 ltac:(lia)) as B2.
    pose proof (nearest_shift_nonneg n 10) as B3.
    destruct (nearest n 10) as [M k] eqn:EN. cbn [fst snd] in *.
    destruct (SF_of_units_spec s M k B3 B1 B2) as (O & Vr & Nn).
    split; [|split; assumption]. rewrite O.
    unfold odd_ext, round1_place, place, signed. cbn [ord].
    destruct s.
    + replace (- units m e <? 0) with true by (symmetry; apply Z.ltb_lt; lia).
      rewrite Z.opp_involutive. fold tenths. fold n. now rewrite EN.
    + replace (units m e <? 0) with false by (symmetry; apply Z.ltb_ge; lia).
      fold tenths. fold n. now rewrite EN.
Qed.

(** *** The primitive floats *)

Local Open Scope float_scope.

Lemma leb_not_nan (x y : float) :
  (x <=? y) = true ->
  is_nan (Prim2SF x) = false /\ is_nan (Prim2SF y) = false.
Proof. rewrite leb_spec. apply SFleb_not_nan. Qed.

Lemma leb_ord (x y : float) :
  is_nan (Prim2SF x) = false -> is_nan (Prim2SF y) = false ->
  (x <=? y) = (ord (Prim2SF x) <=? ord (Prim2SF y))%Z.
Proof.
  intros Nx Ny. rewrite leb_spec. apply SFleb_ord; auto using Prim2SF_valid.
Qed.

Lemma Prim2SF_round1 (y : float) :
  is_nan (Prim2SF y) = false ->
  Prim2SF (round1 y) = round1_SF (Prim2SF y).
Proof.
  intros N. unfold round1. apply Prim2SF_SF2Prim.
  now apply round1_SF_place; [apply Prim2SF_valid|].
Qed.

(** Multiplying by 1.8 and rounding to one decimal keeps the order. *)
Lemma round1_times_1_8_le (x1 x2 : float) :
  (x1 <=? x2) = true ->
  (round1 (x1 * 1.8) <=? round1 (x2 * 1.8)) = true.
Proof.
  intros H. destruct (leb_not_nan x1 x2 H) as [N1 N2].
  rewrite (leb_ord x1 x2 N1 N2) in H. apply Z.leb_le in H.
  assert (C : Prim2SF 1.8 = S754_finite false 8106479329266893 (-52))
    by (vm_compute; reflexivity).
  assert (Hc : (2 ^ 52 <= Z.pos 8106479329266893)%Z) by (vm_compute; discriminate).
  assert (M : forall x, is_nan (Prim2SF x) = false ->
                ord (Prim2SF (x * 1.8))
                = odd_ext (times_place 8106479329266893) (ord (Prim2SF x))
                /\ is_nan (Prim2SF (x * 1.8)) = false).
  { intros x N. rewrite mul_spec, C. unfold SF64mul.
    apply SFmul_place; [apply Prim2SF_valid | exact N | exact Hc]. }
  destruct (M x1 N1) as [O1 Ny1]. destruct (M x2 N2) as [O2 Ny2].
  assert (R : forall y, is_nan (Prim2SF y) = false ->
                ord (Prim2SF (round1 y)) = odd_ext round1_place (ord (Prim2SF y))
                /\ is_nan (Prim2SF (round1 y)) = false).
  { intros y N. rewrite Prim2SF_round1 by exact N.
    destruct (round1_SF_place (Prim2SF y) (Prim2SF_valid y) N) as (O & _ & Nr).
    now split. }
  destruct (R _ Ny1) as [Or1 Nr1]. destruct (R _ Ny2) as [Or2 Nr2].
  rewrite (leb_ord _ _ Nr1 Nr2). apply Z.leb_le.
  rewrite Or1, Or2, O1, O2.
  now apply round1_place_le, times_place_le.
Qed.
End FloatFacts.

Module ProteinClaims.
Import Profile Samples FloatFacts.
Local Open Scope float_scope.

(** [round1] on some floats, as [round(x, 1)] gives them in CPython:
    0.25 -> 0.2 and 0.35 -> 0.3 (ties and near-ties on the exact binary
    value), -0.04 -> -0.0, 2.675 -> 2.7, 89.1 -> 89.1, 99.95 -> 100.0. *)
Lemma round1_examples :
  List.map PyFloat.round1 [0.25; 0.35; -0.04; 2.675; 89.1; 99.95; 1e300; infinity]
  = [0.2; 0.3; -0.0; 2.7; 89.1; 100.0; 1e300; infinity].
Proof. vm_compute. reflexivity. Qed.

(** C8: the protein target is monotone in the lean body mass: for two
    profiles with lbm1 <= lbm2 the targets round(lbm * 1.8, 1) satisfy
    target1 <= target2, in ai_meal_pexels.py and in meal_hugging.py, on
    binary64 floats with their rounding (and for every two floats, not
    only those of valid profiles). *)
Theorem protein_target_monotone : forall p1 p2 : profile,
  ((AiMealPexels.lbm_kg p1 <=? AiMealPexels.lbm_kg p2) = true ->
   (AiMealPexels.protein_target p1 <=? AiMealPexels.protein_target p2) = true)
  /\ ((MealHugging.lbm_kg p1 <=? MealHugging.lbm_kg p2) = true ->
      (MealHugging.protein_target p1 <=? MealHugging.protein_target p2) = true)
  /\ AiMealPexels.protein_target p1
     = PyFloat.round1 (AiMealPexels.lbm_kg p1 * 1.8)
  /\ MealHugging.protein_target p1
     = PyFloat.round1 (MealHugging.lbm_kg p1 * 1.8)
  /\ (forall lbm1 lbm2 : float,
        (lbm1 <=? lbm2) = true ->
        (PyFloat.round1 (lbm1 * 1.8) <=? PyFloat.round1 (lbm2 * 1.8)) = true).
Proof.
  intros p1 p2. split; [|split; [|split; [|split]]].
  - apply round1_times_1_8_le.
  - apply round1_times_1_8_le.
  - reflexivity.
  - reflexivity.
  - apply round1_times_1_8_le.
Qed.

(** Two profiles of 50 kg and 60 kg with 10 percent of body fat: lean body
    masses 45.0 and 54.0, protein targets 81.0 and 97.2. *)
Lemma protein_target_monotone_witness :
  (AiMealPexels.lbm_kg male_20_50_170 <=? AiMealPexels.lbm_kg male_20_60_170) = true
  /\ (AiMealPexels.protein_target male_20_50_170
      <=? AiMealPexels.protein_target male_20_60_170) = true
  /\ AiMealPexels.protein_target male_20_50_170 = 81.0
  /\ AiMealPexels.protein_target male_20_60_170 = 97.2.
Proof.
  split; [reflexivity|]. split; [|split; vm_compute; reflexivity].
  exact (proj1 (protein_target_monotone male_20_50_170 male_20_60_170) eq_refl).
Defined.

End ProteinClaims.

(* ================================================================== *)
(** * Part III: further properties of the scripts *)
(* ================================================================== *)

(** ** [split], [join] and the containment of one string in another *)

Module SplitFacts.
Import Text Reference ImageFacts StrOps.

Lemma starts_with_app (p t : str) : starts_with p (p ++ t) = true.
Proof. induction p as [|a p IH]; simpl; [reflexivity|]. now rewrite N.eqb_refl. Qed.

Lemma starts_with_inv (p s : str) :
  starts_with p s = true -> exists t, s = p ++ t.
Proof.
  revert s. induction p as [|a p IH]; intros s H.
  - now exists s.
  - destruct s as [|b s]; [discriminate|]. simpl in H.
    apply Bool.andb_true_iff in H as [E H]. apply N.eqb_eq in E. subst b.
    destruct (IH s H) as [t ->]. now exists t.
Qed.

(** The characters of a separator that was found are passed over. *)
Lemma split_aux_skip (sep w t cur : str) :
  split_aux sep (w ++ t) (List.length w) cur
  = match t with
    | [] => match w with [] => split_aux sep [] 0 cur | _ => [rev cur] end
    | _ => split_aux sep t 0 cur
    end.
Proof.
  induction w as [|c w IH]; simpl.
  - destruct t; reflexivity.
  - rewrite IH. destruct t as [|x t].
    + destruct w; reflexivity.
    + reflexivity.
Qed.

Lemma split_aux_skip' (sep w t cur : str) :
  split_aux sep (w ++ t) (List.length w) cur = split_aux sep t 0 cur.
Proof.
  rewrite split_aux_skip. destruct t as [|x t]; [|reflexivity].
  destruct w; reflexivity.
Qed.

Lemma split_aux_found (a : char) (p t cur : str) :
  split_aux (a :: p) ((a :: p) ++ t) 0 cur = rev cur :: split_aux (a :: p) t 0 [].
Proof.
  cbn [app split_aux]. 
  change (starts_with (a :: p) (a :: p ++ t)) with (starts_with (a :: p) ((a :: p) ++ t)).
  rewrite starts_with_app. f_equal.
  cbn [List.length]. rewrite Nat.sub_succ, Nat.sub_0_r.
  apply split_aux_skip'.
Qed.

Lemma split_aux_not_nil (sep s : str) (skip : nat) (cur : str) :
  split_aux sep s skip cur <> [].
Proof.
  revert skip cur. induction s as [|c s IH]; intros skip cur; simpl.
  - discriminate.
  - destruct skip; [|apply IH]. destruct (starts_with sep (c :: s)); [discriminate | apply IH].
Qed.

Lemma join_cons (sep p : str) (ps : list str) :
  ps <> [] -> join sep (p :: ps) = p ++ sep ++ join sep ps.
Proof. destruct ps; [congruence | reflexivity]. Qed.

(** Joining the parts with the separator gives the text back. *)
Lemma join_split_aux (sep : str) (n : nat) :
  sep <> [] ->
  forall s cur, (List.length s <= n)%nat ->
    join sep (split_aux sep s 0 cur) = rev cur ++ s.
Proof.
  intros Hsep. destruct sep as [|a p]; [congruence|].
  induction n as [|n IH]; intros s cur Hn.
  - destruct s; [|simpl in Hn; lia]. simpl. now rewrite app_nil_r.
  - destruct s as [|c s]; [simpl; now rewrite app_nil_r|].
    destruct (starts_with (a :: p) (c :: s)) eqn:Hs.
    + destruct (starts_with_inv _ _ Hs) as [t E]. rewrite E.
      rewrite split_aux_found, join_cons by apply split_aux_not_nil.
      rewrite IH.
      * reflexivity.
      * apply (f_equal (@List.length _)) in E. rewrite length_app in E.
        simpl in E, Hn. lia.
    + cbn [split_aux]. rewrite Hs. rewrite IH by (simpl in Hn; lia).
      simpl. now rewrite <- app_assoc.
Qed.

Lemma join_split (sep s : str) : sep <> [] -> join sep (split sep s) = s.
Proof. intros H. unfold split. now rewrite (join_split_aux sep (List.length s) H). Qed.

(** No part holds the separator. *)
Lemma contains_false_cons (sub : str) (c : char) (s : str) :
  contains sub (c :: s) = false <->
  starts_with sub (c :: s) = false /\ contains sub s = false.
Proof. cbn [contains]. apply Bool.orb_false_iff. Qed.

Lemma starts_with_app_l (p a b : str) :
  starts_with p a = true -> starts_with p (a ++ b) = true.
Proof.
  intros H. destruct (starts_with_inv _ _ H) as [t ->].
  rewrite <- app_assoc. apply starts_with_app.
Qed.

Lemma contains_app_r (sub a b : str) :
  contains sub (a ++ b) = false -> contains sub b = false.
Proof.
  induction a as [|c a IH]; [trivial|].
  simpl app. intros H. apply contains_false_cons in H as [_ H]. now apply IH.
Qed.

Lemma contains_app_l (sub a b : str) :
  sub <> [] -> contains sub (a ++ b) = false -> contains sub a = false.
Proof.
  intros Hsub. induction a as [|c a IH]; intros H.
  - destruct sub; [congruence | reflexivity].
  - simpl app in H. apply contains_false_cons in H as [H1 H2].
    apply contains_false_cons. split; [|now apply IH].
    destruct (starts_with sub (c :: a)) eqn:E; [|reflexivity].
    apply (starts_with_app_l _ _ b) in E. simpl app in E. congruence.
Qed.

(** The text before the first occurrence of a separator does not hold
    it. *)
Lemma contains_before (sep s : str) :
  sep <> [] -> contains sep (before sep s) = false.
Proof.
  intros Hsep. destruct (before_spec sep s) as (rest & _ & _ & H).
  assert (G : forall b a, before sep s = a ++ b -> contains sep b = false).
  { induction b as [|c b IH]; intros a E.
    - destruct sep; [congruence | reflexivity].
    - apply contains_false_cons. split.
      + destruct (starts_with sep (c :: b)) eqn:Hs; [|reflexivity].
        apply (starts_with_app_l _ _ rest) in Hs.
        rewrite (H a (c :: b) E) in Hs by discriminate. discriminate.
      + apply (IH (a ++ [c])). now rewrite <- app_assoc. }
  now apply (G _ []).
Qed.

Lemma before_prefix (sep s : str) : exists rest, s = before sep s ++ rest.
Proof. destruct (before_spec sep s) as (rest & E & _). now exists rest. Qed.

(** The parts of a split, one after the other. *)
Lemma split_aux_unfold (a : char) (p s : str) :
  forall cur,
    (split_aux (a :: p) s 0 cur = [rev cur ++ before (a :: p) s]
     /\ contains (a :: p) s = false)
    \/ exists t,
         s = before (a :: p) s ++ (a :: p) ++ t
         /\ split_aux (a :: p) s 0 cur
            = (rev cur ++ before (a :: p) s) :: split_aux (a :: p) t 0 [].
Proof.
  induction s as [|c s IH]; intros cur.
  - left. simpl. now rewrite app_nil_r.
  - cbn [before]. destruct (starts_with (a :: p) (c :: s)) eqn:Hs.
    + right. destruct (starts_with_inv _ _ Hs) as [t E]. exists t.
      split; [exact E|]. rewrite E, split_aux_found. now rewrite app_nil_r.
    + cbn [split_aux]. rewrite Hs.
      destruct (IH (c :: cur)) as [[E N] | (t & E & E')].
      * left. split.
        -- rewrite E. simpl. now rewrite <- app_assoc.
        -- apply contains_false_cons. now split.
      * right. exists t. split.
        -- cbn [app]. f_equal. exact E.
        -- rewrite E'. simpl. now rewrite <- app_assoc.
Qed.

Lemma split_parts (sep : str) (n : nat) :
  sep <> [] ->
  forall s part,
    (List.length s <= n)%nat -> In part (split sep s) ->
    contains sep part = false.
Proof.
  intros Hsep. destruct sep as [|a p]; [congruence|]. unfold split.
  induction n as [|n IH]; intros s part Hn Hin.
  - destruct s; [|simpl in Hn; lia]. simpl in Hin. destruct Hin as [<-|[]].
    reflexivity.
  - destruct (split_aux_unfold a p s []) as [[E _] | (t & E & E')].
    + rewrite E in Hin. destruct Hin as [<-|[]]. now apply contains_before.
    + rewrite E' in Hin. destruct Hin as [<-|Hin]; [now apply contains_before|].
      apply (IH t); [|exact Hin].
      apply (f_equal (@List.length _)) in E. rewrite !length_app in E.
      simpl in E. lia.
Qed.

End SplitFacts.

(** ** Lines: [splitlines] and [join] with newlines *)

Module LineFacts.
Import Text TextFacts GroceryFacts SplitFacts Conditions.

Lemma splitlines_aux_nil (s cur : str) :
  splitlines_aux cur s = [] -> cur = [] /\ s = [].
Proof.
  destruct s as [|c s]; simpl.
  - destruct cur; [auto | discriminate].
  - destruct (c =? CR)%N.
    + destruct s as [|d s]; [discriminate|]. destruct (d =? NL)%N; discriminate.
    + destruct (islinebreak c); [discriminate|].
      intros H. destruct (splitlines_aux_cons s (c :: cur) ltac:(discriminate))
        as (l & rest & E). congruence.
Qed.

(** On a text with newline boundaries only that does not end with one,
    joining the lines with newlines gives the text back. *)
Lemma join_splitlines_aux (s : str) :
  forall cur,
    only_newlines s = true ->
    (s = [] \/ last s NL <> NL) ->
    join [NL] (splitlines_aux cur s) = rev cur ++ s.
Proof.
  induction s as [|c s IH]; intros cur Ho Hl.
  - simpl. destruct cur as [|x cur]; [reflexivity|]. cbn [join]. now rewrite app_nil_r.
  - cbn [only_newlines forallb] in Ho. apply Bool.andb_true_iff in Ho as [Hc Ho].
    destruct Hl as [Hl|Hl]; [discriminate|].
    assert (Hs : s = [] \/ last s NL <> NL).
    { destruct s as [|d s]; [now left | right]. exact Hl. }
    cbn [splitlines_aux].
    destruct (N.eqb_spec c CR) as [->|Ncr]; [discriminate Hc|].
    destruct (islinebreak c) eqn:Hb.
    + simpl in Hc. apply N.eqb_eq in Hc. subst c.
      destruct s as [|d s]; [simpl in Hl; congruence|].
      rewrite join_cons.
      * rewrite IH by (trivial). reflexivity.
      * intros E. apply splitlines_aux_nil in E as [_ E]. discriminate.
    + rewrite IH by trivial. simpl. now rewrite <- app_assoc.
Qed.

Lemma strip_last (s : str) : strip s = [] \/ last (strip s) NL <> NL.
Proof.
  destruct (strip s) as [|c t] eqn:E; [now left | right].
  rewrite <- E. unfold strip in *.
  pose proof (rstrip_by_last isspace (lstrip_by isspace s) NL) as H.
  rewrite E in H. specialize (H ltac:(discriminate)).
  rewrite E. intros K. rewrite K in H. discriminate.
Qed.

Lemma only_newlines_strip (s : str) :
  only_newlines s = true -> only_newlines (strip s) = true.
Proof.
  intros H. unfold strip.
  destruct (lstrip_by_split isspace s) as (w1 & E1 & _).
  destruct (rstrip_by_split isspace (lstrip_by isspace s)) as (w2 & E2 & _).
  rewrite E1, E2 in H. unfold only_newlines in *.
  rewrite !forallb_app in H.
  apply Bool.andb_true_iff in H as [_ H]. now apply Bool.andb_true_iff in H as [H _].
Qed.

Lemma join_splitlines_strip (s : str) :
  only_newlines s = true -> join [NL] (splitlines (strip s)) = strip s.
Proof.
  intros H. unfold splitlines.
  now rewrite join_splitlines_aux by (apply only_newlines_strip, H || apply strip_last).
Qed.

End LineFacts.

(** ** meal_text.py: the blocks of the plan *)

Module MealTextPlanFacts.
Import Text Reference TextFacts MealTextPlan.

Lemma day_block_blank (day : str) : blank day = true -> day_block day = None.
Proof.
  intros H. apply strip_nil_blank in H. unfold day_block. now rewrite H.
Qed.

Lemma day_block_lines (day : str) :
  blank day = false ->
  exists c l rest,
    splitlines (strip day) = (c :: l) :: rest /\ isspace c = false
    /\ day_block day = Some (c :: l, join [NL] rest).
Proof.
  intros H.
  assert (Hs : strip day <> []).
  { intros E. apply strip_nil_blank in E. congruence. }
  destruct (splitlines_strip_cons day Hs) as (c & l & rest & E & Hc).
  exists c, l, rest. split; [exact E|]. split; [exact Hc|].
  unfold day_block. rewrite E.
  destruct (strip day); [congruence|]. cbn [truthy List.length tl].
  destruct rest as [|r rest]; reflexivity.
Qed.

End MealTextPlanFacts.

Module MealTextExtra.
Import Text Reference StrOps SplitFacts Conditions LineFacts MealTextPlanFacts
  MealTextPlan MoreSamples.

(** X1: meal_text.py cuts the plan at the blank lines: the blocks joined by a
    blank line give the plan back, and no block holds a blank line. *)
Theorem meal_text_blocks_round_trip :
  forall plan : str,
    join [NL; NL] (days plan) = plan
    /\ forall day, In day (days plan) -> contains [NL; NL] day = false.
Proof.
  intros plan. split.
  - apply join_split. discriminate.
  - intros day. apply (split_parts [NL; NL] (List.length plan)); [discriminate | lia].
Qed.

Lemma meal_text_blocks_round_trip_witness :
  In (u "Day 2" ++ [NL] ++ u "Eggs") (days plan_two_blocks)
  /\ contains [NL; NL] (u "Day 2" ++ [NL] ++ u "Eggs") = false.
Proof.
  assert (H : In (u "Day 2" ++ [NL] ++ u "Eggs") (days plan_two_blocks))
    by (vm_compute; right; left; reflexivity).
  split; [exact H|].
  exact (proj2 (meal_text_blocks_round_trip plan_two_blocks) _ H).
Defined.

(** X2: a blank block is skipped; any other block is shown under its own first
    line, which starts with a character that is not white space: the
    default heading "Day" is never used, and the body is the other lines
    joined by newlines, also when there is none. *)
Theorem meal_text_block_heading :
  forall day : str,
    (blank day = true -> show_day day = [])
    /\ (blank day = false ->
        exists c l rest,
          splitlines (strip day) = (c :: l) :: rest
          /\ isspace c = false
          /\ show_day day = [st_expander (c :: l); st_markdown (join [NL] rest)]).
Proof.
  intros day. split.
  - intros H. unfold show_day. now rewrite day_block_blank.
  - intros H. destruct (day_block_lines day H) as (c & l & rest & E & Hc & Eb).
    exists c, l, rest. split; [exact E|]. split; [exact Hc|].
    unfold show_day. now rewrite Eb.
Qed.

Lemma meal_text_block_heading_witness :
  blank (u "  ") = true /\ show_day (u "  ") = []
  /\ blank (u "Day 1") = false
  /\ exists c l rest,
       splitlines (strip (u "Day 1")) = (c :: l) :: rest
       /\ show_day (u "Day 1") = [st_expander (c :: l); st_markdown (join [NL] rest)].
Proof.
  split; [reflexivity|].
  split; [exact (proj1 (meal_text_block_heading (u "  ")) eq_refl)|].
  split; [reflexivity|].
  destruct (proj2 (meal_text_block_heading (u "Day 1")) eq_refl)
    as (c & l & rest & E & _ & S).
  now exists c, l, rest.
Defined.

(** X3: when the line boundaries of a block are newline characters, the
    heading line and the content put together give the stripped block
    back: nothing of the text is lost between the split in lines and the
    display, in meal_text.py and in ai_meal_pexels.py. *)
Theorem heading_and_content_give_block :
  forall (Nd : char -> bool) (block : str),
    only_newlines block = true ->
    (forall heading body,
       day_block block = Some (heading, body) ->
       (strip block = heading /\ body = [])
       \/ strip block = heading ++ NL :: body)
    /\ (forall d,
          AiMealPexels.parse_day Nd block = Some d ->
          exists l0,
            AiMealPexels.heading d = strip l0
            /\ ((strip block = l0 /\ AiMealPexels.content d = [])
                \/ strip block = l0 ++ NL :: AiMealPexels.content d)).
Proof.
  intros Nd block Ho.
  pose proof (join_splitlines_strip block Ho) as J.
  split.
  - intros heading body H.
    destruct (blank block) eqn:Hb; [now rewrite day_block_blank in H|].
    destruct (day_block_lines block Hb) as (c & l & rest & E & _ & Eb).
    rewrite Eb in H. injection H as <- <-. rewrite E in J.
    destruct rest as [|r rest]; [left | right]; now rewrite <- J.
  - intros d H. unfold AiMealPexels.parse_day in H.
    destruct (splitlines (strip block)) as [|l0 rest]; [discriminate|].
    injection H as <-. exists l0. cbn [AiMealPexels.heading AiMealPexels.content].
    split; [reflexivity|].
    destruct rest as [|r rest]; [left | right]; now rewrite <- J.
Qed.

Lemma heading_and_content_give_block_witness :
  only_newlines (u "Day 2" ++ [NL] ++ u "Eggs") = true
  /\ day_block (u "Day 2" ++ [NL] ++ u "Eggs") = Some (u "Day 2", u "Eggs")
  /\ ((strip (u "Day 2" ++ [NL] ++ u "Eggs") = u "Day 2" /\ u "Eggs" = [])
      \/ strip (u "Day 2" ++ [NL] ++ u "Eggs") = u "Day 2" ++ NL :: u "Eggs").
Proof.
  split; [reflexivity|]. split; [reflexivity|].
  exact (proj1 (heading_and_content_give_block (fun _ => false)
                  (u "Day 2" ++ [NL] ++ u "Eggs") eq_refl)
           (u "Day 2") (u "Eggs") eq_refl).
Defined.

End MealTextExtra.

(** ** The grocery table: rows and sections *)

Module GroceryMore.
Import Text Re Reference TextFacts GroceryFacts StrOps SplitFacts AiMealPexels.

Section WithDigits.
Variable Nd : char -> bool.

Lemma forallb_lstrip_by (p q : char -> bool) (s : str) :
  forallb q s = true -> forallb q (lstrip_by p s) = true.
Proof.
  intros H. destruct (lstrip_by_split p s) as (w & E & _).
  rewrite E, forallb_app in H. now apply Bool.andb_true_iff in H as [_ H].
Qed.

Lemma forallb_rstrip_by (p q : char -> bool) (s : str) :
  forallb q s = true -> forallb q (rstrip_by p s) = true.
Proof.
  intros H. destruct (rstrip_by_split p s) as (w & E & _).
  rewrite E, forallb_app in H. now apply Bool.andb_true_iff in H as [H _].
Qed.

Lemma forallb_strip (q : char -> bool) (s : str) :
  forallb q s = true -> forallb q (strip s) = true.
Proof. intros H. now apply forallb_rstrip_by, forallb_lstrip_by. Qed.

(** A row comes from a section that is not blank: its category is the
    stripped first line, its item line one of the following lines. *)
Lemma in_section_rows (section : str) (row : GroceryItem) :
  In row (section_rows Nd section) ->
  exists c l items item,
    splitlines (strip section) = (c :: l) :: items
    /\ isspace c = false /\ In item items
    /\ row = grocery_row Nd (strip (c :: l)) item.
Proof.
  unfold section_rows. intros H.
  destruct (strip section) as [|x t] eqn:E; [destruct H|].
  assert (Hs : strip section <> []) by congruence.
  destruct (splitlines_strip_cons section Hs) as (c & l & items & El & Hc).
  rewrite <- E, El in H. cbn [truthy] in H.
  rewrite E in H. cbn [truthy] in H.
  apply in_map_iff in H as (item & <- & Hin).
  exists c, l, items, item. rewrite <- E. auto.
Qed.

Lemma grocery_row_blank (category item : str) :
  blank item = true ->
  grocery_row Nd category item
  = {| Category := category; Item := []; Quantity := [] |}.
Proof.
  intros H. unfold grocery_row. rewrite re_match_item.
  assert (E : item_exec Nd item = None).
  { destruct item as [|c item]; [reflexivity|].
    simpl in H. apply Bool.andb_true_iff in H as [Hc _].
    unfold item_exec. cbn [one cmatch].
    destruct (N.eqb_spec c HYPHEN) as [->|]; [discriminate Hc | reflexivity]. }
  rewrite E. apply strip_nil_blank in H. now rewrite H.
Qed.

Lemma section_rows_length (section : str) :
  List.length (section_rows Nd section)
  = (List.length (splitlines (strip section)) - 1)%nat.
Proof.
  unfold section_rows. destruct (strip section) as [|x t] eqn:E; [reflexivity|].
  cbn [truthy]. destruct (splitlines (x :: t)) as [|l0 items]; [reflexivity|].
  rewrite length_map. simpl. lia.
Qed.

(** *** The first section *)

Lemma section_match_at (s : str) :
  match_at Nd section_re s false
  = if starts_with (u "##") s
    then Some (firstn (List.length s - List.length (lstrip_by isspace (skipn 2 s))) s,
               [], lstrip_by isspace (skipn 2 s))
    else None.
Proof.
  unfold match_at, section_re, lits, lit, clit, u.
  destruct s as [|a [|b s]];
    cbn [List.map list_ascii_of_string app exec one cmatch starts_with];
    try reflexivity.
  - rewrite (N.eqb_sym _ a). destruct (a =? N_of_ascii "#")%N; reflexivity.
  - rewrite (N.eqb_sym _ a), (N.eqb_sym _ b).
    destruct (a =? N_of_ascii "#")%N; [|reflexivity].
    destruct (b =? N_of_ascii "#")%N; [|reflexivity].
    cbn [andb skipn].
    rewrite (greedy_total (cmatch Nd CSpace) (fun s => ([], s))). reflexivity.
Qed.

Lemma scan_section_hd (s : str) :
  forall gap,
    hd [] (let (ms, tl) := scan Nd section_re s 0 gap in
           flat_map (fun m => m_pre m :: m_groups m) ms ++ [tl])
    = rev gap ++ before (u "##") s.
Proof.
  induction s as [|c s IH]; intros gap.
  - cbn. now rewrite app_nil_r.
  - cbn [scan before]. rewrite section_match_at.
    destruct (starts_with (u "##") (c :: s)) eqn:Hs.
    + rewrite app_nil_r.
      destruct (firstn _ (c :: s)) as [|x txt].
      * destruct (match_at Nd section_re (c :: s) true) as [[[txt' gs'] r']|].
        -- destruct (scan Nd section_re s (List.length txt' - 1) []); reflexivity.
        -- destruct (scan Nd section_re s 0 [c]); reflexivity.
      * destruct (scan Nd section_re s (List.length (x :: txt) - 1) []); reflexivity.
    + rewrite IH. simpl. now rewrite <- app_assoc.
Qed.

Lemma re_split_section_hd (text : str) :
  hd [] (re_split Nd section_re text) = before (u "##") text.
Proof. unfold re_split. now rewrite scan_section_hd. Qed.

Lemma before_none (sep s : str) : contains sep s = false -> before sep s = s.
Proof.
  induction s as [|c s IH]; [reflexivity|]. intros H.
  apply contains_false_cons in H as [H1 H2]. cbn [before]. rewrite H1.
  now rewrite IH.
Qed.

Lemma scan_section_none (s : str) :
  forall gap, contains (u "##") s = false ->
    scan Nd section_re s 0 gap = ([], rev gap ++ s).
Proof.
  induction s as [|c s IH]; intros gap H.
  - cbn. now rewrite app_nil_r.
  - apply contains_false_cons in H as [H1 H2].
    cbn [scan]. rewrite section_match_at, H1, IH by exact H2.
    simpl. now rewrite <- app_assoc.
Qed.

Lemma re_split_section_none (text : str) :
  contains (u "##") text = false -> re_split Nd section_re text = [text].
Proof. intros H. unfold re_split. now rewrite scan_section_none. Qed.

End WithDigits.
End GroceryMore.

Module GroceryExtra.
Import Text Re Reference Samples TextFacts GroceryFacts StrOps GroceryMore
  AiMealPexels.

(** X4: every row of the grocery table has a category that is not empty; the
    category and the quantity carry no white space at their ends, and no
    field holds a newline. *)
Theorem grocery_row_fields :
  forall (Nd : char -> bool) (text : str) (row : GroceryItem),
    In row (parse_grocery_list Nd text) ->
    Category row <> []
    /\ strip (Category row) = Category row
    /\ strip (Quantity row) = Quantity row
    /\ no_newline (Category row) = true
    /\ no_newline (Item row) = true
    /\ no_newline (Quantity row) = true.
Proof.
  intros Nd text row H. unfold parse_grocery_list in H.
  apply in_flat_map in H as (section & _ & H).
  apply in_section_rows in H as (c & l & items & item & El & Hc & Hin & ->).
  assert (Hl0 : no_newline (c :: l) = true).
  { apply (splitlines_no_newline (strip section)). rewrite El. now left. }
  assert (Hit : no_newline item = true).
  { apply (splitlines_no_newline (strip section)). rewrite El. now right. }
  assert (Hcat : strip (c :: l) <> []).
  { rewrite strip_cons_keep by exact Hc. discriminate. }
  destruct (GroceryClaims.grocery_row_cases Nd (strip (c :: l)) item Hit)
    as [(w1 & g1 & w2 & d & w3 & g2 & Ei & _ & _ & _ & _ & _ & _ & ->) | (_ & ->)];
    cbn [Category Item Quantity].
  - rewrite !strip_twice.
    rewrite Ei in Hit. unfold no_newline in *. cbn [forallb] in Hit.
    rewrite !forallb_app in Hit. cbn [forallb] in Hit. rewrite !forallb_app in Hit.
    apply Bool.andb_true_iff in Hit as (_ & Hit).
    apply Bool.andb_true_iff in Hit as (_ & Hit).
    apply Bool.andb_true_iff in Hit as (H1 & Hit).
    apply Bool.andb_true_iff in Hit as (_ & Hit).
    apply Bool.andb_true_iff in Hit as (_ & Hit).
    apply Bool.andb_true_iff in Hit as (_ & H2).
    auto 10 using forallb_strip.
  - rewrite strip_twice. unfold no_newline in *.
    repeat split; auto using forallb_strip.
    unfold lstrip. now apply forallb_lstrip_by, forallb_strip.
Qed.

Lemma grocery_row_fields_witness :
  In {| Category := u "Vegetables"; Item := u "Carrot"; Quantity := u "200g" |}
     (parse_grocery_list (fun _ => false) grocery_two_sections)
  /\ u "Vegetables" <> []
  /\ strip (u "Vegetables") = u "Vegetables"
  /\ strip (u "200g") = u "200g".
Proof.
  assert (H : In {| Category := u "Vegetables"; Item := u "Carrot";
                    Quantity := u "200g" |}
                (parse_grocery_list (fun _ => false) grocery_two_sections))
    by (vm_compute; left; reflexivity).
  split; [exact H|].
  destruct (grocery_row_fields (fun _ => false) grocery_two_sections _ H)
    as (A & B & C & _).
  split; [exact A|]. split; [exact B | exact C].
Defined.

(** X5: every line after the first of a section gives one row, a blank line
    too: its row has an empty item and an empty quantity. *)
Theorem grocery_one_row_per_line :
  forall Nd : char -> bool,
    (forall text,
       List.length (parse_grocery_list Nd text)
       = list_sum
           (List.map (fun section =>
                        (List.length (splitlines (strip section)) - 1)%nat)
                     (re_split Nd section_re text)))
    /\ (forall category item,
          blank item = true ->
          grocery_row Nd category item
          = {| Category := category; Item := []; Quantity := [] |}).
Proof.
  intros Nd. split.
  - intros text. unfold parse_grocery_list.
    induction (re_split Nd section_re text) as [|section l IH]; [reflexivity|].
    cbn [flat_map List.map list_sum]. rewrite length_app, IH.
    now rewrite section_rows_length.
  - intros category item. apply grocery_row_blank.
Qed.

Lemma grocery_one_row_per_line_witness :
  blank (u "  ") = true
  /\ grocery_row (fun _ => false) (u "Fruits") (u "  ")
     = {| Category := u "Fruits"; Item := []; Quantity := [] |}.
Proof.
  split; [reflexivity|].
  exact (proj2 (grocery_one_row_per_line (fun _ => false)) (u "Fruits") (u "  ")
           eq_refl).
Defined.

(** X6: the text before the first double hash is a section of its own, and a
    text without any double hash is one section: its first line is taken
    as the category. *)
Theorem grocery_text_before_first_header :
  forall (Nd : char -> bool) (text : str),
    hd [] (re_split Nd section_re text) = before (u "##") text
    /\ (contains (u "##") text = false ->
        parse_grocery_list Nd text = section_rows Nd text).
Proof.
  intros Nd text. split.
  - apply re_split_section_hd.
  - intros H. unfold parse_grocery_list. rewrite re_split_section_none by exact H.
    cbn [flat_map]. apply app_nil_r.
Qed.

Lemma grocery_text_before_first_header_witness :
  contains (u "##") (lines [u "Shopping"; u "- Rice - 1 kg"]) = false
  /\ parse_grocery_list (fun _ => false) (lines [u "Shopping"; u "- Rice - 1 kg"])
     = [ {| Category := u "Shopping"; Item := u "Rice"; Quantity := u "1 kg" |} ].
Proof.
  split; [reflexivity|].
  rewrite (proj2 (grocery_text_before_first_header (fun _ => false)
                    (lines [u "Shopping"; u "- Rice - 1 kg"])) eq_refl).
  vm_compute. reflexivity.
Defined.

(** X7: the grocery parser of meal_hugging.py against the one of the other two
    scripts: the same rows in the same order, with the same quantities;
    the category is the first line as it stands, not stripped again; the
    items agree on the rows that have a quantity. *)
Theorem hugging_grocery_rows_agree :
  forall (Nd : char -> bool) (text : str),
    Forall2
      (fun h p =>
         Category p = strip (Category h)
         /\ Quantity p = Quantity h
         /\ (Quantity h <> [] -> Item p = Item h))
      (MealHuggingGrocery.parse_grocery Nd text)
      (parse_grocery_list Nd text).
Proof.
  intros Nd text. unfold MealHuggingGrocery.parse_grocery, parse_grocery_list.
  induction (re_split Nd section_re text) as [|section l IH]; [constructor|].
  cbn [flat_map]. apply Forall2_app; [|exact IH].
  unfold MealHuggingGrocery.section_rows, section_rows.
  destruct (truthy (strip section)); [|constructor].
  destruct (splitlines (strip section)) as [|l0 items]; [constructor|].
  induction items as [|item items IHi]; [constructor|].
  cbn [List.map]. constructor; [|exact IHi].
  unfold MealHuggingGrocery.grocery_row, grocery_row.
  destruct (re_match Nd item_re item); cbn [Category Item Quantity];
    repeat split; congruence.
Qed.

End GroceryExtra.

(** ** The grocery text parser: sections and item lines *)

Module MatchFacts.
Import Text Re Reference TextFacts ReFacts GroceryFacts ItemLines.

Section WithDigits.
Variable Nd : char -> bool.

(** A greedy repetition succeeds as soon as the continuation succeeds
    after some prefix it can take; a lazy one too. *)
Lemma greedy_reaches (p : char -> bool) (k : str -> option result) :
  forall w s,
    forallb p w = true -> k s <> None -> greedy p k (w ++ s) <> None.
Proof.
  induction w as [|a w IH]; intros s Hw Hk.
  - destruct s as [|c s']; [exact Hk|]. cbn [app greedy].
    destruct (p c); [|exact Hk]. destruct (greedy p k s'); [discriminate | exact Hk].
  - apply Bool.andb_true_iff in Hw as [Ha Hw]. cbn [app greedy]. rewrite Ha.
    specialize (IH s Hw Hk). destruct (greedy p k (w ++ s)); [discriminate | congruence].
Qed.

Lemma lazy_reaches (p : char -> bool) (k : str -> option result) :
  forall w s,
    forallb p w = true -> k s <> None -> lazy p k (w ++ s) <> None.
Proof.
  induction w as [|a w IH]; intros s Hw Hk.
  - destruct s as [|c s']; cbn [app lazy]; destruct (k _); congruence.
  - apply Bool.andb_true_iff in Hw as [Ha Hw]. cbn [app lazy].
    destruct (k (a :: w ++ s)); [discriminate|]. rewrite Ha. now apply IH.
Qed.

Lemma dash_between_intro (x : str) (d : char) (y : str) :
  x <> [] -> y <> [] -> is_dash d = true -> dash_between (x ++ d :: y) = true.
Proof.
  intros Hx Hy Hd. destruct x as [|c x]; [congruence|].
  unfold dash_between. cbn [app tl].
  rewrite removelast_app by discriminate.
  rewrite existsb_app. apply Bool.orb_true_iff. right.
  destruct y as [|c' y]; [congruence|]. cbn [removelast existsb]. now rewrite Hd.
Qed.

Lemma dash_between_elim (s : str) :
  dash_between s = true ->
  exists x d y, s = x ++ d :: y /\ x <> [] /\ y <> [] /\ is_dash d = true.
Proof.
  unfold dash_between. intros H. apply existsb_exists in H as (d & Hin & Hd).
  destruct s as [|c t]; [destruct Hin|]. cbn [tl] in Hin.
  destruct t as [|c1 t1]; [destruct Hin|].
  apply in_split in Hin as (l1 & l2 & E).
  exists (c :: l1), d, (l2 ++ [last (c1 :: t1) c]).
  split; [|split; [discriminate | split; [|exact Hd]]].
  - rewrite (app_removelast_last c (l := c1 :: t1)) at 1 by discriminate.
    rewrite E. cbn [app]. now rewrite <- app_assoc.
  - intros E'. apply app_eq_nil in E' as [_ E']. discriminate.
Qed.

Lemma no_newline_cons (c : char) (s : str) :
  no_newline (c :: s) = true -> negb (c =? NL)%N = true /\ no_newline s = true.
Proof. unfold no_newline. cbn [forallb]. apply Bool.andb_true_iff. Qed.

(** The item pattern matches a line that begins with a hyphen and holds,
    after it, a dash between two texts that are not empty. *)
Lemma item_exec_reaches (x : str) (d : char) (y : str) :
  x <> [] -> y <> [] -> is_dash d = true ->
  no_newline (x ++ d :: y) = true ->
  item_exec Nd (HYPHEN :: x ++ d :: y) <> None.
Proof.
  intros Hx Hy Hd Hnl.
  destruct x as [|c0 x]; [congruence|]. destruct y as [|c1 y]; [congruence|].
  cbn [app] in Hnl. apply no_newline_cons in Hnl as [Hc0 Hnl].
  unfold no_newline in Hnl. rewrite forallb_app in Hnl.
  apply Bool.andb_true_iff in Hnl as [Hxs Hnl].
  cbn [forallb] in Hnl. apply Bool.andb_true_iff in Hnl as [_ Hnl].
  apply Bool.andb_true_iff in Hnl as [Hc1 _].
  unfold item_exec. cbn [one cmatch]. rewrite N.eqb_refl.
  apply (greedy_reaches (cmatch Nd CSpace) (item_k0 Nd) []); [reflexivity|].
  unfold item_k0. cbn [app one cmatch]. rewrite Hc0.
  apply lazy_reaches; [exact Hxs|].
  unfold item_k1.
  apply (greedy_reaches (cmatch Nd CSpace) _ []); [reflexivity|].
  cbn [one cmatch]. fold (is_dash d). rewrite Hd.
  apply (greedy_reaches (cmatch Nd CSpace) _ []); [reflexivity|].
  unfold item_k4. cbn [one cmatch]. rewrite Hc1.
  rewrite (greedy_total (cmatch Nd CDot)
             (fun s5 => ([firstn (List.length ((c0 :: x) ++ d :: c1 :: y)
                                  - List.length (d :: c1 :: y))
                            ((c0 :: x) ++ d :: c1 :: y);
                          firstn (List.length (c1 :: y) - List.length s5) (c1 :: y)],
                         s5))).
  discriminate.
Qed.

(** A line that does not begin with a hyphen is not matched. *)
Lemma item_exec_other (item : str) :
  hd 0%N item <> HYPHEN -> item_exec Nd item = None.
Proof.
  intros H. destruct item as [|c item]; [reflexivity|].
  unfold item_exec. cbn [one cmatch]. cbn [hd] in H.
  destruct (N.eqb_spec c HYPHEN); [congruence | reflexivity].
Qed.

End WithDigits.
End MatchFacts.

Module SectionFacts.
Import Text Re Reference TextFacts ReFacts GroceryFacts StrOps SplitFacts
  GroceryMore AiMealPexels.

Section WithDigits.
Variable Nd : char -> bool.

(** Passing over the characters of a match. *)
Lemma scan_skipn (r : regex) :
  forall n s gap,
    (n <= List.length s)%nat ->
    scan Nd r s n gap = scan Nd r (skipn n s) 0 gap.
Proof.
  induction n as [|n IH]; intros s gap Hn; [reflexivity|].
  destruct s as [|c s]; [simpl in Hn; lia|].
  cbn [scan skipn]. apply IH. simpl in Hn. lia.
Qed.

(** At the first double hash: the text before it is a section, the white
    space after it is dropped, and the rest is split in the same way. *)
Lemma scan_section_cut (s : str) :
  forall gap,
    contains (u "##") s = true ->
    exists b,
      s = before (u "##") s ++ u "##" ++ b
      /\ (let (ms, tl) := scan Nd section_re s 0 gap in
          flat_map (fun m => m_pre m :: m_groups m) ms ++ [tl])
         = (rev gap ++ before (u "##") s)
             :: re_split Nd section_re (lstrip_by isspace b).
Proof.
  induction s as [|c s IH]; intros gap H; [discriminate H|].
  cbn [contains] in H. cbn [scan before]. rewrite section_match_at.
  destruct (starts_with (u "##") (c :: s)) eqn:Hs.
  - destruct (starts_with_inv _ _ Hs) as [b E]. exists b.
    split; [exact E|]. rewrite app_nil_r.
    destruct (lstrip_by_split isspace b) as (w & Eb & _).
    assert (Et : firstn (List.length (c :: s)
                         - List.length (lstrip_by isspace (skipn 2 (c :: s))))
                   (c :: s)
                 = u "##" ++ w).
    { rewrite E. change (skipn 2 (u "##" ++ b)) with b.
      rewrite Eb at 1 3. rewrite app_assoc. apply firstn_consumed. }
    rewrite Et. cbn [u List.map list_ascii_of_string app].
    cbn [List.length]. rewrite Nat.sub_succ, Nat.sub_0_r.
    assert (Es : s = N_of_ascii "#" :: w ++ lstrip_by isspace b).
    { cbn [u List.map list_ascii_of_string app] in E. injection E as _ ->.
      now rewrite <- Eb. }
    rewrite scan_skipn by (rewrite Es; simpl; rewrite length_app; lia).
    rewrite Es. cbn [skipn].
    replace (skipn (List.length w) (w ++ lstrip_by isspace b))
      with (lstrip_by isspace b)
      by (now rewrite skipn_app, skipn_all, Nat.sub_diag).
    unfold re_split.
    destruct (scan Nd section_re (lstrip_by isspace b) 0 []) as [ms tl].
    reflexivity.
  - simpl in H. destruct (IH (c :: gap) H) as (b & E & R).
    exists b. split; [cbn [app]; now rewrite <- E|].
    rewrite R. simpl. now rewrite <- app_assoc.
Qed.

Lemma re_split_section_cut (text : str) :
  contains (u "##") text = true ->
  exists b,
    text = before (u "##") text ++ u "##" ++ b
    /\ re_split Nd section_re text
       = before (u "##") text :: re_split Nd section_re (lstrip_by isspace b).
Proof.
  intros H. destruct (scan_section_cut text [] H) as (b & E & R).
  exists b. split; [exact E | exact R].
Qed.

End WithDigits.
End SectionFacts.

Module RowFacts.
Import Text Re Reference Samples TextFacts ReFacts GroceryFacts StrOps
  GroceryMore ItemLines MatchFacts.
Import AiMealPexels.

Section WithDigits.
Variable Nd : char -> bool.

(** The row of a line made of the hyphen, a text without dash that is not
    blank, a dash and a text that is not blank. *)
Lemma row_at_first_dash (category pre : str) (d : char) (b : str) :
  is_dash d = true -> no_dash pre = true ->
  blank pre = false -> blank b = false ->
  no_newline (pre ++ b) = true ->
  grocery_row Nd category (HYPHEN :: pre ++ d :: b)
  = {| Category := category; Item := strip pre; Quantity := strip b |}.
Proof.
  intros Hd Hnd Hpre Hb Hnl.
  apply GroceryClaims.no_newline_app in Hnl as [Hnl1 Hnl2].
  destruct (strip_split pre Hpre) as (w1 & c0 & t & w2 & Ep & Es & Hw1 & Hw2 & Hc0 & Hl).
  destruct (lstrip_split b Hb) as (w3 & x & g & Eb & El & Hw3 & Hx).
  assert (Hcore : no_dash (c0 :: t) = true /\ no_newline t = true).
  { rewrite Ep in Hnd, Hnl1.
    apply no_dash_app in Hnd as [_ Hnd]. apply no_dash_app in Hnd as [Hnd _].
    apply GroceryClaims.no_newline_app in Hnl1 as [_ Hnl1].
    apply GroceryClaims.no_newline_app in Hnl1 as [Hnl1 _].
    split; [exact Hnd|]. unfold no_newline in *. simpl in Hnl1.
    now apply Bool.andb_true_iff in Hnl1. }
  destruct Hcore as [Hnd' Hnl'].
  assert (Hg : no_newline g = true).
  { rewrite Eb in Hnl2. apply GroceryClaims.no_newline_app in Hnl2 as [_ Hnl2].
    unfold no_newline in *. simpl in Hnl2. now apply Bool.andb_true_iff in Hnl2. }
  assert (Hrun : item_exec Nd (HYPHEN :: pre ++ d :: b) = Some ([c0 :: t; x :: g], [])).
  { rewrite Ep at 1. rewrite Eb at 1. rewrite <- !app_assoc.
    now apply item_exec_ok. }
  unfold grocery_row. rewrite re_match_item, Hrun. simpl.
  rewrite <- Es, strip_twice, <- El, strip_lstrip. reflexivity.
Qed.

(** A line with the hyphen bullet is matched by the item pattern exactly
    when a dash stands after the bullet between two texts that are not
    empty. *)
Lemma row_with_dash (category rest : str) :
  no_newline rest = true -> dash_between rest = true ->
  exists w1 g1 w2 d w3 g2,
    rest = w1 ++ g1 ++ w2 ++ d :: w3 ++ g2
    /\ blank w1 = true /\ blank w2 = true /\ blank w3 = true
    /\ is_dash d = true /\ g1 <> [] /\ g2 <> []
    /\ grocery_row Nd category (HYPHEN :: rest)
       = {| Category := category; Item := strip g1; Quantity := strip g2 |}.
Proof.
  intros Hnl Hd.
  destruct (dash_between_elim rest Hd) as (x & d & y & E & Hx & Hy & Hdd).
  assert (Hnl' : no_newline (HYPHEN :: rest) = true) by exact Hnl.
  destruct (GroceryClaims.grocery_row_cases Nd category (HYPHEN :: rest) Hnl')
    as [(w1 & g1 & w2 & d' & w3 & g2 & Ei & H1 & H2 & H3 & H4 & H5 & H6 & R)
       | (Hnone & _)].
  - injection Ei as Ei. exists w1, g1, w2, d', w3, g2. auto 10.
  - exfalso. rewrite re_match_item in Hnone.
    subst rest. pose proof (item_exec_reaches Nd x d y Hx Hy Hdd Hnl) as Hr.
    destruct (item_exec Nd (HYPHEN :: x ++ d :: y)); [discriminate | congruence].
Qed.

Lemma row_without_dash (category rest : str) :
  dash_between rest = false ->
  grocery_row Nd category (HYPHEN :: rest)
  = {| Category := category; Item := lstrip (u "- ") (strip (HYPHEN :: rest));
       Quantity := [] |}.
Proof.
  intros Hd. unfold grocery_row. rewrite re_match_item.
  destruct (item_exec Nd (HYPHEN :: rest)) as [r|] eqn:E; [exfalso | reflexivity].
  destruct (item_exec_some Nd _ r E)
    as (w1 & g1 & w2 & d & w3 & g2 & Ei & _ & _ & _ & _ & Hdd & N1 & N2 & _).
  injection Ei as Ei.
  rewrite Ei in Hd.
  replace (w1 ++ g1 ++ w2 ++ d :: w3 ++ g2 ++ snd r)
    with ((w1 ++ g1 ++ w2) ++ d :: (w3 ++ g2 ++ snd r)) in Hd
    by (now rewrite <- !app_assoc).
  rewrite dash_between_intro in Hd; [discriminate | | | exact Hdd].
  - intros E'. apply app_eq_nil in E' as [_ E'].
    apply app_eq_nil in E' as [E' _]. congruence.
  - intros E'. apply app_eq_nil in E' as [_ E'].
    apply app_eq_nil in E' as [E' _]. congruence.
Qed.

(** A line without any dash: the row is the stripped line. *)
Lemma row_plain (category item : str) :
  no_dash item = true ->
  grocery_row Nd category item
  = {| Category := category; Item := strip item; Quantity := [] |}.
Proof.
  intros Hnd. unfold grocery_row. rewrite re_match_item.
  rewrite item_exec_other.
  - f_equal. unfold lstrip.
    pose proof (forallb_strip _ item Hnd) as Hs.
    destruct (strip_head item) as [E | (c & t & E & Hc)]; rewrite E; [reflexivity|].
    rewrite E in Hs. cbn [forallb] in Hs. apply Bool.andb_true_iff in Hs as [Hs _].
    cbn [lstrip_by].
    replace (mem c (u "- ")) with false; [reflexivity|].
    symmetry. unfold mem, u. cbn [List.map list_ascii_of_string existsb].
    rewrite Bool.orb_false_r. apply Bool.orb_false_iff. split.
    + apply N.eqb_neq. intros ->. discriminate Hs.
    + apply N.eqb_neq. intros ->. discriminate Hc.
  - destruct item as [|c item]; [discriminate|]. cbn [hd].
    intros ->. discriminate Hnd.
Qed.

End WithDigits.
End RowFacts.

Module GroceryRows.
Import Text Re Reference Samples TextFacts ReFacts GroceryFacts StrOps
  GroceryMore ItemLines MatchFacts SectionFacts RowFacts.
Import AiMealPexels.

(** C4, as stated, fails: the only bullet that is stripped is the hyphen.
    A line with a star bullet keeps it, and is not split at its dash: the
    whole line is the item and the quantity is empty. *)
Lemma grocery_star_bullet_kept :
  exists row,
    (forall Nd,
       parse_grocery_list Nd
         (lines [u "## Vegetables"; u "* Carrot " ++ ENDASH :: u " 200g"])
       = [row])
    /\ Item row = u "* Carrot " ++ ENDASH :: u " 200g"
    /\ Quantity row = []
    /\ row <> {| Category := u "Vegetables"; Item := u "Carrot";
                 Quantity := u "200g" |}.
Proof.
  eexists. split; [intros Nd; vm_compute; reflexivity|].
  split; [reflexivity|]. split; [reflexivity | discriminate].
Qed.

(** C4 (amended): a text without double hash is one section; otherwise the
    text before the first double hash is a section, the white space after
    the mark is dropped and the rest is parsed in the same way.  A blank
    section gives nothing; otherwise the first line of the section,
    stripped, is the category and every following line gives one row, in
    order.  For a line that begins with the hyphen bullet: when a dash
    stands after the bullet between two texts that are not empty, the row
    is the two stripped sides of a dash, those of the first dash when the
    text before it is not blank and the text after it is not blank;
    otherwise the row is the stripped line without its bullet, with the
    empty quantity.  A line without any dash gives its stripped text and
    the empty quantity.  On the sample text the rows are (Vegetables,
    Carrot, 200g) and (Fruits, Apple, empty), in that order. *)
Theorem grocery_parser_rows : forall Nd : char -> bool,
  (forall text,
     contains (u "##") text = false ->
     parse_grocery_list Nd text = section_rows Nd text)
  /\ (forall text,
        contains (u "##") text = true ->
        exists b,
          text = before (u "##") text ++ u "##" ++ b
          /\ parse_grocery_list Nd text
             = section_rows Nd (before (u "##") text)
               ++ parse_grocery_list Nd (lstrip_by isspace b))
  /\ (forall section, blank section = true -> section_rows Nd section = [])
  /\ (forall section,
        blank section = false ->
        exists l0 items,
          splitlines (strip section) = l0 :: items /\ l0 <> []
          /\ section_rows Nd section
             = List.map (grocery_row Nd (strip l0)) items
          /\ forall item, In item items -> no_newline item = true)
  /\ (forall category rest,
        no_newline rest = true -> dash_between rest = true ->
        exists w1 g1 w2 d w3 g2,
          rest = w1 ++ g1 ++ w2 ++ d :: w3 ++ g2
          /\ blank w1 = true /\ blank w2 = true /\ blank w3 = true
          /\ is_dash d = true /\ g1 <> [] /\ g2 <> []
          /\ grocery_row Nd category (HYPHEN :: rest)
             = {| Category := category; Item := strip g1;
                  Quantity := strip g2 |})
  /\ (forall category pre d b,
        is_dash d = true -> no_dash pre = true ->
        blank pre = false -> blank b = false ->
        no_newline (pre ++ b) = true ->
        grocery_row Nd category (HYPHEN :: pre ++ d :: b)
        = {| Category := category; Item := strip pre; Quantity := strip b |})
  /\ (forall category rest,
        dash_between rest = false ->
        grocery_row Nd category (HYPHEN :: rest)
        = {| Category := category;
             Item := lstrip (u "- ") (strip (HYPHEN :: rest));
             Quantity := [] |})
  /\ (forall category item,
        no_dash item = true ->
        grocery_row Nd category item
        = {| Category := category; Item := strip item; Quantity := [] |})
  /\ parse_grocery_list Nd grocery_two_sections
     = [ {| Category := u "Vegetables"; Item := u "Carrot";
            Quantity := u "200g" |};
         {| Category := u "Fruits"; Item := u "Apple"; Quantity := [] |} ].
Proof.
  intros Nd.
  split; [|split; [|split; [|split; [|split; [|split; [|split; [|split]]]]]]].
  - intros text H. unfold parse_grocery_list.
    rewrite re_split_section_none by exact H. cbn [flat_map]. apply app_nil_r.
  - intros text H. destruct (re_split_section_cut Nd text H) as (b & E & R).
    exists b. split; [exact E|]. unfold parse_grocery_list. now rewrite R.
  - intros section H. apply strip_nil_blank in H.
    unfold section_rows. now rewrite H.
  - intros section H.
    assert (Hs : strip section <> []).
    { intros E. apply strip_nil_blank in E. congruence. }
    destruct (splitlines_strip_cons section Hs) as (c & l & rest & E & Hc).
    exists (c :: l), rest. split; [exact E|]. split; [discriminate|]. split.
    + unfold section_rows. rewrite E.
      destruct (strip section); [congruence | reflexivity].
    + intros item Hin. apply (splitlines_no_newline (strip section)).
      rewrite E. now right.
  - intros category rest. apply row_with_dash.
  - intros category pre d b. apply row_at_first_dash.
  - intros category rest. apply row_without_dash.
  - intros category item. apply row_plain.
  - vm_compute. reflexivity.
Qed.

(** The sample text is cut at its second header; the line of the carrots
    is split at its dash, the line of the apples has none. *)
Lemma grocery_parser_rows_witness :
  (exists b,
     lines [u "Vegetables"; u "- Carrot - 200g"; u "## Fruits"; u "- Apple"]
     = lines [u "Vegetables"; u "- Carrot - 200g"; []] ++ u "##" ++ b
     /\ parse_grocery_list (fun _ => false)
          (lines [u "Vegetables"; u "- Carrot - 200g"; u "## Fruits"; u "- Apple"])
        = section_rows (fun _ => false)
            (lines [u "Vegetables"; u "- Carrot - 200g"; []])
          ++ parse_grocery_list (fun _ => false) (lstrip_by isspace b))
  /\ grocery_row (fun _ => false) (u "Vegetables") (u "- Carrot - 200g")
     = {| Category := u "Vegetables"; Item := u "Carrot"; Quantity := u "200g" |}
  /\ grocery_row (fun _ => false) (u "Fruits") (u "- Apple")
     = {| Category := u "Fruits"; Item := u "Apple"; Quantity := [] |}
  /\ grocery_row (fun _ => false) (u "Fruits") (u "Apple")
     = {| Category := u "Fruits"; Item := u "Apple"; Quantity := [] |}.
Proof.
  destruct (grocery_parser_rows (fun _ => false))
    as (_ & Hcut & _ & _ & _ & Hsplit & Hnone & Hplain & _).
  split; [|split; [|split]].
  - exact (Hcut (lines [u "Vegetables"; u "- Carrot - 200g"; u "## Fruits";
                        u "- Apple"]) eq_refl).
  - exact (Hsplit (u "Vegetables") (u " Carrot ") HYPHEN (u " 200g")
             eq_refl eq_refl eq_refl eq_refl eq_refl).
  - exact (Hnone (u "Fruits") (u " Apple") eq_refl).
  - exact (Hplain (u "Fruits") (u "Apple") eq_refl).
Defined.

(** C9, as stated, fails: a name that holds a hyphen is kept whole, with the
    empty quantity, when the line has a star bullet or no bullet, and when
    nothing follows the hyphen. *)
Lemma hyphen_in_name_not_split :
  (forall Nd,
     grocery_row Nd (u "Grains") (u "* Whole-wheat bread")
     = {| Category := u "Grains"; Item := u "* Whole-wheat bread";
          Quantity := [] |})
  /\ (forall Nd,
        grocery_row Nd (u "Grains") (u "Whole-wheat bread")
        = {| Category := u "Grains"; Item := u "Whole-wheat bread";
             Quantity := [] |})
  /\ (forall Nd,
        grocery_row Nd (u "Grains") (u "- Gluten-")
        = {| Category := u "Grains"; Item := u "Gluten-"; Quantity := [] |}).
Proof.
  split; [|split]; intros Nd; vm_compute; reflexivity.
Qed.

(** C9 (amended): an item line with the hyphen bullet whose name holds a
    hyphen is split at the first dash: for a line made of the bullet, a
    text [pre] without dash that is not blank, a dash, and a text [b] that
    is not blank, the item is the stripped [pre] and the quantity is the
    stripped [b], which is not empty.  White space around the dash is
    optional.  (A line has no newline: lemma [splitlines_no_newline].) *)
Theorem grocery_hyphenated_name_split :
  forall (Nd : char -> bool) (category pre : str) (d : char) (b : str),
    is_dash d = true ->
    no_dash pre = true ->
    blank pre = false ->
    blank b = false ->
    no_newline (pre ++ b) = true ->
    grocery_row Nd category (HYPHEN :: pre ++ d :: b)
    = {| Category := category; Item := strip pre; Quantity := strip b |}
    /\ strip pre <> [] /\ strip b <> [].
Proof.
  intros Nd category pre d b Hd Hnd Hpre Hb Hnl.
  split; [now apply row_at_first_dash|].
  split; intros E; apply strip_nil_blank in E; congruence.
Qed.

(** The line of the bullet and "Whole-wheat bread": the item is "Whole",
    the quantity "wheat bread". *)
Lemma grocery_hyphenated_name_split_witness :
  grocery_row (fun _ => false) (u "Grains") (u "- Whole-wheat bread")
  = {| Category := u "Grains"; Item := u "Whole"; Quantity := u "wheat bread" |}
  /\ u "Whole" <> [] /\ u "wheat bread" <> [].
Proof.
  exact (grocery_hyphenated_name_split (fun _ => false) (u "Grains")
           (u " Whole") HYPHEN (u "wheat bread")
           eq_refl eq_refl eq_refl eq_refl eq_refl).
Defined.

End GroceryRows.

(** ** The simplified query *)

Module SimplifyFacts.
Import Text Reference TextFacts GroceryFacts StrOps SplitFacts Conditions.

Lemma contains_strip (sub s : str) :
  sub <> [] -> contains sub s = false -> contains sub (strip s) = false.
Proof.
  intros Hsub H. unfold strip.
  destruct (lstrip_by_split isspace s) as (w1 & E1 & _).
  destruct (rstrip_by_split isspace (lstrip_by isspace s)) as (w2 & E2 & _).
  rewrite E1 in H. apply contains_app_r in H. rewrite E2 in H.
  now apply contains_app_l in H.
Qed.

Lemma contains_before_other (sub sep s : str) :
  sub <> [] -> contains sub s = false -> contains sub (before sep s) = false.
Proof.
  intros Hsub H. destruct (before_prefix sep s) as (rest & E).
  rewrite E in H. now apply contains_app_l in H.
Qed.

Lemma forallb_before (q : char -> bool) (sep s : str) :
  forallb q s = true -> forallb q (before sep s) = true.
Proof.
  intros H. destruct (before_prefix sep s) as (rest & E).
  rewrite E, forallb_app in H. now apply Bool.andb_true_iff in H as [H _].
Qed.

Lemma ascii_lower_lowered (c : char) :
  isascii c = true -> lowered (ascii_lower c) = true.
Proof.
  unfold lowered, ascii_lower, isascii, between. intros H.
  apply N.ltb_lt in H.
  destruct (65 <=? c)%N eqn:A; destruct (c <=? 90)%N eqn:B; cbn [andb];
    bool_to_prop; lia.
Qed.

Lemma map_lower_lowered (s : str) :
  forallb lowered s = true -> List.map ascii_lower s = s.
Proof.
  induction s as [|c s IH]; [reflexivity|]. cbn [forallb List.map].
  intros H. apply Bool.andb_true_iff in H as [Hc H]. rewrite IH by exact H.
  f_equal. unfold lowered in Hc. apply Bool.andb_true_iff in Hc as [_ Hc].
  unfold ascii_lower. apply Bool.negb_true_iff in Hc. now rewrite Hc.
Qed.

Lemma lowered_ascii (s : str) : forallb lowered s = true -> forallb isascii s = true.
Proof.
  induction s as [|c s IH]; [reflexivity|]. cbn [forallb].
  intros H. apply Bool.andb_true_iff in H as [Hc H]. rewrite IH by exact H.
  unfold lowered in Hc. apply Bool.andb_true_iff in Hc as [-> _]. reflexivity.
Qed.

Lemma lower_ascii_lowered (unicode_lower : str -> str) (s : str) :
  forallb isascii s = true -> forallb lowered (lower unicode_lower s) = true.
Proof.
  intros H. unfold lower. rewrite H.
  induction s as [|c s IH]; [reflexivity|]. cbn [forallb List.map] in *.
  apply Bool.andb_true_iff in H as [Hc H].
  now rewrite ascii_lower_lowered, IH.
Qed.

End SimplifyFacts.

Module SimplifyExtra.
Import Text Reference ImageFacts GroceryFacts StrOps SplitFacts GroceryMore
  AiMealPexels SimplifyFacts Conditions.

(** X8: the simplified query holds no comma and no "with" and has no white
    space at its ends; it is empty when the lowercased description begins
    with "with" or with a comma; on an ASCII description, simplifying
    twice is simplifying once. *)
Theorem simplify_query_shape :
  forall (unicode_lower : str -> str) (text : str),
    contains (u ",") (simplify unicode_lower text) = false
    /\ contains (u "with") (simplify unicode_lower text) = false
    /\ strip (simplify unicode_lower text) = simplify unicode_lower text
    /\ (starts_with (u "with") (lower unicode_lower text) = true
        \/ starts_with (u ",") (lower unicode_lower text) = true ->
        simplify unicode_lower text = [])
    /\ (forallb isascii text = true ->
        simplify unicode_lower (simplify unicode_lower text)
        = simplify unicode_lower text).
Proof.
  intros unicode_lower text. rewrite !simplify_before.
  set (L := lower unicode_lower text).
  assert (Nc : contains (u ",") (before (u "with") (before (u ",") L)) = false).
  { apply contains_before_other; [discriminate|].
    apply contains_before; discriminate. }
  assert (Nw : contains (u "with") (before (u "with") (before (u ",") L)) = false).
  { apply contains_before; discriminate. }
  split; [apply contains_strip; [discriminate | exact Nc]|].
  split; [apply contains_strip; [discriminate | exact Nw]|].
  split; [apply strip_twice|].
  split.
  - intros [H|H].
    + destruct L as [|c L']; [reflexivity|].
      cbn [before]. destruct (starts_with (u ",") (c :: L')) eqn:Hc; [reflexivity|].
      cbn [before].
      assert (Hw : starts_with (u "with") (c :: before (u ",") L') = true).
      { destruct (starts_with_inv _ _ H) as [t E]. simpl in E. injection E as -> ->.
        simpl. reflexivity. }
      rewrite Hw. reflexivity.
    + destruct L as [|c L']; [reflexivity|]. cbn [before]. rewrite H. reflexivity.
  - intros Ha.
    set (q := strip (before (u "with") (before (u ",") L))).
    assert (Hq : forallb lowered q = true).
    { apply forallb_strip, forallb_before, forallb_before.
      now apply lower_ascii_lowered. }
    assert (El : lower unicode_lower q = q).
    { unfold lower. rewrite (lowered_ascii q Hq). now apply map_lower_lowered. }
    rewrite El.
    rewrite (before_none (u ",") q)
      by (apply contains_strip; [discriminate | exact Nc]).
    rewrite (before_none (u "with") q)
      by (apply contains_strip; [discriminate | exact Nw]).
    apply strip_twice.
Qed.

Lemma simplify_query_shape_witness :
  starts_with (u "with") (lower (fun s => s) (u "With rice, hot")) = true
  /\ simplify (fun s => s) (u "With rice, hot") = []
  /\ forallb isascii (u "Paneer Tikka with mint, grilled") = true
  /\ simplify (fun s => s) (simplify (fun s => s) (u "Paneer Tikka with mint, grilled"))
     = simplify (fun s => s) (u "Paneer Tikka with mint, grilled").
Proof.
  split; [reflexivity|]. split.
  - apply (proj1 (proj2 (proj2 (proj2
             (simplify_query_shape (fun s => s) (u "With rice, hot")))))).
    left. reflexivity.
  - split; [reflexivity|].
    apply (proj2 (proj2 (proj2 (proj2
             (simplify_query_shape (fun s => s)
                (u "Paneer Tikka with mint, grilled")))))).
    reflexivity.
Defined.

End SimplifyExtra.

(** ** ai_meal_pexels.py: image lookup while the plan is rendered *)

Module ImageMore.
Import Text Eff ImageFacts AiMealPexels Conditions.

Section WithWorld.
Variable World : Type.
Variable getenv_PEXELS_API_KEY : World -> option str.
Variable requests_get : World -> str -> reply * World.
Variable unicode_lower : str -> str.
Variable Nd : char -> bool.

Local Abbreviation call := (call_pexels_api World getenv_PEXELS_API_KEY requests_get).
Local Abbreviation loop := (search_loop World getenv_PEXELS_API_KEY requests_get).
Local Abbreviation image := (get_meal_image World getenv_PEXELS_API_KEY requests_get unicode_lower).
Local Abbreviation show_meal' :=
  (show_meal World getenv_PEXELS_API_KEY requests_get unicode_lower).
Local Abbreviation show_day' :=
  (show_day World getenv_PEXELS_API_KEY requests_get unicode_lower).
Local Abbreviation show_plan' :=
  (show_plan World getenv_PEXELS_API_KEY requests_get unicode_lower Nd).
Local Abbreviation key_is_set st := (truthy_opt (getenv_PEXELS_API_KEY (world st))).

Local Abbreviation answers' := (answers World requests_get).
Local Abbreviation all_fail' := (all_fail World requests_get).
Local Abbreviation key_always' := (key_always World getenv_PEXELS_API_KEY).

Lemma call_answers (q : str) (st : state World) :
  answers' -> exists r st', call q st = (Ok r, st').
Proof.
  intros H. unfold call_pexels_api, bind, get, http_get, ret, raise.
  destruct (key_is_set st); [|eauto].
  specialize (H (world st) q).
  destruct (requests_get (world st) q) as [[|code body] w]; simpl in *; [destruct H|].
  destruct (Z.eqb_spec code 200) as [->|]; [|eauto].
  destruct body as [[|m ms]|]; simpl; eauto. congruence.
Qed.

Lemma loop_answers (qs : list str) :
  answers' -> forall st, exists r st', loop qs st = (Ok r, st').
Proof.
  intros H. induction qs as [|q qs IH]; intros st.
  - simpl. unfold ret. eauto.
  - rewrite search_loop_cons. destruct (call_answers q st H) as (r & st' & ->).
    destruct (truthy_opt r); eauto.
Qed.

Lemma for_each_returns {A} (body : A -> M (state World) unit) (xs : list A) :
  (forall x st, exists st', body x st = (Ok tt, st')) ->
  forall st, exists st', for_each body xs st = (Ok tt, st').
Proof.
  intros H. induction xs as [|x xs IH]; intros st.
  - exists st. reflexivity.
  - cbn [for_each]. unfold bind. destruct (H x st) as (st1 & ->). apply IH.
Qed.

Lemma show_meal_answers (m : str * str) (st : state World) :
  answers' -> exists st', show_meal' m st = (Ok tt, st').
Proof.
  intros H. destruct m as [t d]. unfold show_meal.
  destruct (truthy d); [|unfold ret; eauto].
  unfold bind at 1. unfold get_meal_image, search_pexels.
  destruct (loop_answers (fallback_queries unicode_lower d) H st) as (r & st1 & ->).
  unfold bind, emit, modify. destruct r as [[|c url]|]; eauto.
Qed.

Lemma show_plan_answers (plan : str) (st : state World) :
  answers' -> exists st', show_plan' plan st = (Ok tt, st').
Proof.
  intros H. rewrite show_plan_unfold. apply for_each_returns.
  intros d st1. unfold show_day. unfold bind at 1. unfold emit at 1, modify at 1.
  apply for_each_returns. intros m st2. now apply show_meal_answers.
Qed.

(** Rendering while every request raises. *)
Lemma image_fails (meal : str) (st : state World) :
  all_fail' -> key_always' ->
  exists w, image meal st
            = (Raised RequestException,
               {| world := w; queries := meal :: queries st; page := page st |}).
Proof.
  intros Hf Hk. unfold get_meal_image.
  specialize (Hf (world st) meal).
  destruct (requests_get (world st) meal) as [r w] eqn:E. simpl in Hf. subst r.
  exists w. apply search_raises; [apply Hk | exact E].
Qed.

Lemma show_meals_skipped (ms : list (str * str)) (st : state World) :
  filter (fun m => truthy (snd m)) ms = [] ->
  for_each show_meal' ms st = (Ok tt, st).
Proof.
  induction ms as [|[t d] ms IH]; [reflexivity|].
  cbn [filter snd]. destruct (truthy d) eqn:Hd; [discriminate|].
  intros H. cbn [for_each]. unfold bind at 1. unfold show_meal at 1. rewrite Hd.
  unfold ret at 1. now apply IH.
Qed.

Lemma show_meals_fail (ms : list (str * str)) (st : state World) t d rest :
  all_fail' -> key_always' ->
  filter (fun m => truthy (snd m)) ms = (t, d) :: rest ->
  exists w, for_each show_meal' ms st
            = (Raised RequestException,
               {| world := w; queries := d :: queries st; page := page st |}).
Proof.
  intros Hf Hk. induction ms as [|[t0 d0] ms IH]; [discriminate|].
  cbn [filter snd]. destruct (truthy d0) eqn:Hd.
  - intros H. injection H as -> -> _.
    cbn [for_each]. unfold bind at 1. unfold show_meal at 1. rewrite Hd.
    unfold bind at 1. destruct (image_fails d st Hf Hk) as (w & ->).
    now exists w.
  - intros H. cbn [for_each]. unfold bind at 1. unfold show_meal at 1. rewrite Hd.
    unfold ret at 1. now apply IH.
Qed.

Lemma show_days_fail (ds : list DayPlan) :
  all_fail' -> key_always' ->
  forall (st : state World) t d rest,
    flat_map entries ds = (t, d) :: rest ->
    exists w p,
      for_each show_day' ds st
      = (Raised RequestException,
         {| world := w; queries := d :: queries st; page := p |})
      /\ forall x, In x p -> In x (page st) \/ exists h, x = st_expander h.
Proof.
  intros Hf Hk. induction ds as [|d0 ds IH]; intros st t d rest H; [discriminate|].
  cbn [flat_map] in H. cbn [for_each]. unfold bind at 1. unfold show_day at 1.
  unfold bind at 1. unfold emit at 1, modify at 1.
  set (st1 := set_page (st_expander (heading d0) :: page st) st).
  unfold entries in H at 1.
  destruct (filter (fun m => truthy (snd m)) (meals d0)) as [|[t1 d1] r1] eqn:E.
  - rewrite (show_meals_skipped _ st1 E).
    destruct (IH st1 t d rest H) as (w & p & -> & Hp).
    exists w, p. split; [reflexivity|].
    intros x Hx. destruct (Hp x Hx) as [[<-|Hx']|Hx']; eauto.
  - simpl in H. injection H as -> -> _.
    destruct (show_meals_fail _ st1 t d r1 Hf Hk E) as (w & ->).
    exists w, (page st1). split; [reflexivity|].
    intros x [<-|Hx]; eauto.
Qed.

End WithWorld.
End ImageMore.

Module ImageExtra.
Import Text Eff Samples ImageFacts ImageMore AiMealPexels Conditions.

(** X9: without a key (the variable unset or empty) the image lookup sends no
    request and returns nothing; the meal is rendered with the text that
    stands for a missing image. *)
Theorem no_key_no_request :
  forall (World : Type) (getenv_PEXELS_API_KEY : World -> option str)
         (requests_get : World -> str -> reply * World)
         (unicode_lower : str -> str) (meal_type meal_desc : str)
         (st : state World),
    truthy_opt (getenv_PEXELS_API_KEY (world st)) = false ->
    get_meal_image World getenv_PEXELS_API_KEY requests_get unicode_lower
      meal_desc st = (Ok None, st)
    /\ (truthy meal_desc = true ->
        show_meal World getenv_PEXELS_API_KEY requests_get unicode_lower
          (meal_type, meal_desc) st
        = (Ok tt,
           set_page (st_markdown (u "**" ++ meal_type ++ u ":** " ++ meal_desc)
                       :: st_markdown no_image_text :: page st) st)).
Proof.
  intros World getenv requests_get unicode_lower meal_type meal_desc st Hk.
  assert (E : get_meal_image World getenv requests_get unicode_lower meal_desc st
              = (Ok None, st)).
  { unfold get_meal_image, search_pexels. now apply search_loop_no_key. }
  split; [exact E|].
  intros Hd. unfold show_meal. rewrite Hd. unfold bind at 1. rewrite E.
  reflexivity.
Qed.

Lemma no_key_no_request_witness :
  get_meal_image nat key_unset third_request_succeeds (fun s => s) (u "Oats") fresh
  = (Ok None, fresh).
Proof.
  exact (proj1 (no_key_no_request nat key_unset third_request_succeeds (fun s => s)
                  (u "Breakfast") (u "Oats") fresh eq_refl)).
Defined.

(** X10: when the service answers every request, and its answers with status
    200 can be read, the image lookup returns and the whole plan is
    rendered: an exception comes only from a request that raises or from
    an answer that cannot be read. *)
Theorem get_meal_image_returns_when_service_answers :
  forall (World : Type) (getenv_PEXELS_API_KEY : World -> option str)
         (requests_get : World -> str -> reply * World)
         (unicode_lower : str -> str) (Nd : char -> bool),
    answers World requests_get ->
    (forall (meal : str) (st : state World),
       exists r st',
         get_meal_image World getenv_PEXELS_API_KEY requests_get unicode_lower
           meal st = (Ok r, st'))
    /\ (forall (plan : str) (st : state World),
          exists st',
            show_plan World getenv_PEXELS_API_KEY requests_get unicode_lower Nd
              plan st = (Ok tt, st')).
Proof.
  intros World getenv requests_get unicode_lower Nd H. split.
  - intros meal st. unfold get_meal_image, search_pexels. now apply loop_answers.
  - intros plan st. now apply show_plan_answers.
Qed.

Lemma get_meal_image_returns_when_service_answers_witness :
  exists r st',
    get_meal_image nat key_set third_request_succeeds (fun s => s) (u "Oats") fresh
    = (Ok r, st').
Proof.
  apply (get_meal_image_returns_when_service_answers nat key_set
           third_request_succeeds (fun s => s) (fun _ => false)).
  intros w q. unfold third_request_succeeds. cbn [fst].
  destruct (w <? 2)%nat; [discriminate | exact I].
Defined.

(** X11: with the key set and a service whose every request raises, the first
    meal that has a description ends the rendering: one request is sent,
    for that description; no meal is rendered, the page gets the error
    message, and the rest of the handler (the grocery list) is not run. *)
Theorem image_failure_ends_rendering :
  forall (World : Type) (getenv_PEXELS_API_KEY : World -> option str)
         (requests_get : World -> str -> reply * World)
         (unicode_lower : str -> str) (Nd : char -> bool)
         (plan : str) (grocery : M (state World) unit) (st : state World)
         (meal_type meal_desc : str) (rest : list (str * str)),
    all_fail World requests_get ->
    key_always World getenv_PEXELS_API_KEY ->
    flat_map entries (parse_plan Nd plan) = (meal_type, meal_desc) :: rest ->
    exists w p,
      generate World getenv_PEXELS_API_KEY requests_get unicode_lower Nd
        plan grocery st
      = (Ok tt,
         {| world := w; queries := meal_desc :: queries st;
            page := st_error RequestException :: p |})
      /\ forall x, In x p ->
           In x (page st) \/ x = st_subheader plan_title
           \/ x = st_warning warning_text \/ exists h, x = st_expander h.
Proof.
  intros World getenv requests_get unicode_lower Nd plan grocery st
         meal_type meal_desc rest Hf Hk H.
  unfold generate, try_except. unfold bind at 1. rewrite show_plan_unfold.
  set (st0 := set_page _ st).
  destruct (show_days_fail World getenv requests_get unicode_lower
              (parse_plan Nd plan) Hf Hk st0 meal_type meal_desc rest H)
    as (w & p & -> & Hp).
  exists w, p. split; [reflexivity|].
  intros x Hx. destruct (Hp x Hx) as [Hx'|Hx']; [|auto].
  subst st0. cbn [page set_page] in Hx'. destruct Hx' as [<-|Hx']; [auto|].
  apply in_app_or in Hx' as [Hx'|Hx']; [|auto].
  destruct (short_plan Nd plan); [|destruct Hx'].
  destruct Hx' as [<-|[]]. auto.
Qed.

Lemma image_failure_ends_rendering_witness :
  exists w p,
    generate nat key_set every_request_fails (fun s => s) (fun _ => false)
      plan_two_days (fun st => (Ok tt, st)) fresh
    = (Ok tt,
       {| world := w; queries := [u "Oats"];
          page := st_error RequestException :: p |}).
Proof.
  destruct (image_failure_ends_rendering nat key_set every_request_fails
              (fun s => s) (fun _ => false) plan_two_days (fun st => (Ok tt, st))
              fresh (u "Breakfast") (u "Oats")
              [(u "Lunch", u "Salad"); (u "Breakfast", u "Eggs")])
    as (w & p & E & _).
  - intros w q. reflexivity.
  - intros w. reflexivity.
  - vm_compute. reflexivity.
  - exists w, p. exact E.
Defined.

End ImageExtra.

(** ** meal_hugging.py: the cache of generated images *)

Module HuggingFacts.
Import Text Eff MealHugging MealHuggingFlow.

Lemma eqb_refl (a : str) : Text.eqb a a = true.
Proof. induction a as [|c a IH]; [reflexivity|]. simpl. now rewrite N.eqb_refl. Qed.

Lemma eqb_eq (a b : str) : Text.eqb a b = true -> a = b.
Proof.
  revert b. induction a as [|c a IH]; intros [|d b] H; try discriminate; [reflexivity|].
  simpl in H. apply Bool.andb_true_iff in H as [E H]. apply N.eqb_eq in E.
  f_equal; auto.
Qed.

Section WithWorld.
Variable World : Type.
Variable image : Type.
Variable requests_post : World -> str -> reply image * World.
Variable unicode_lower : str -> str.
Variable Nd : char -> bool.

Local Abbreviation gen := (generate_meal_image World image requests_post).
Local Abbreviation show_line' := (show_line World image requests_post unicode_lower).
Local Abbreviation show_day' := (show_day World image requests_post unicode_lower).
Local Abbreviation show_plan' := (show_plan World image requests_post unicode_lower Nd).

(** One call: the result, and what it does to the requests and to the
    cache. *)
Lemma gen_cases (prompt : str) (st : state World image) :
  (exists v,
      cache_lookup image prompt (cache World image st) = Some v
      /\ gen prompt st = (Ok v, st))
  \/ (exists v w,
        cache_lookup image prompt (cache World image st) = None
        /\ gen prompt st
           = (Ok v, {| world := w; posts := prompt :: posts World image st;
                       cache := (prompt, v) :: cache World image st |})).
Proof.
  unfold generate_meal_image, generate_meal_image_body, http_post, print_error,
    bind, get, ret, raise, modify, try_except.
  destruct (cache_lookup image prompt (cache World image st)) as [v|]; [left; eauto|].
  right.
  destruct (requests_post (world World image st) prompt) as [[|code decoded] w];
    [eauto|].
  destruct (code =? 200)%Z; [|eauto].
  destruct decoded; eauto.
Qed.

(** After a call the value of the prompt is in the cache. *)
Lemma gen_again (prompt : str) (st st1 : state World image) (v : option image) :
  gen prompt st = (Ok v, st1) -> gen prompt st1 = (Ok v, st1).
Proof.
  intros H.
  destruct (gen_cases prompt st) as [(v0 & Ec & E) | (v0 & w & Ec & E)];
    rewrite E in H; injection H as <- <-.
  - exact E.
  - unfold generate_meal_image, bind, get, ret. cbn [cache cache_lookup].
    now rewrite eqb_refl.
Qed.

End WithWorld.
End HuggingFacts.

(** ** meal_hugging.py: what the rendering does *)

Module HuggingFlowFacts.
Import Text Eff HuggingFacts MealHugging MealHuggingFlow.

Section WithWorld.
Variable World : Type.
Variable image : Type.
Variable requests_post : World -> str -> reply image * World.
Variable unicode_lower : str -> str.
Variable Nd : char -> bool.

Local Abbreviation gen := (generate_meal_image World image requests_post).
Local Abbreviation show_line' := (show_line World image requests_post unicode_lower).
Local Abbreviation show_day' := (show_day World image requests_post unicode_lower).
Local Abbreviation show_plan' := (show_plan World image requests_post unicode_lower Nd).
Local Abbreviation session' := (session World image).
Local Abbreviation posted s := (List.length (posts World image (service World image s))).
Local Abbreviation shown s := (List.length (page World image s)).
Local Abbreviation meal_lines ls :=
  (List.length (filter (is_meal_line unicode_lower) ls)).

Lemma show_line_effect (line : str) (s : session') :
  exists s',
    show_line' line s = (Ok tt, s')
    /\ (posted s' <= posted s + meal_lines [line])%nat
    /\ shown s' = (shown s + 2 * meal_lines [line])%nat.
Proof.
  unfold show_line. cbn [filter].
  destruct (is_meal_line unicode_lower line).
  - unfold bind at 1. unfold emit at 1, modify at 1.
    unfold bind at 1. unfold on_service at 1. cbn [service page].
    destruct (gen_cases World image requests_post
                (enhance_meal_prompt unicode_lower line) (service World image s))
      as [(v & _ & ->) | (v & w & _ & ->)];
      destruct v as [i|]; unfold emit, modify; eexists; (split; [reflexivity|]);
      cbn [service page posts List.length]; lia.
  - exists s. unfold ret. cbn [List.length]. split; [reflexivity|]. lia.
Qed.

Lemma show_lines_effect (ls : list str) :
  forall s : session',
  exists s',
    for_each show_line' ls s = (Ok tt, s')
    /\ (posted s' <= posted s + meal_lines ls)%nat
    /\ shown s' = (shown s + 2 * meal_lines ls)%nat.
Proof.
  induction ls as [|line ls IH]; intros s.
  - exists s. cbn. split; [reflexivity|]. lia.
  - cbn [for_each]. unfold bind at 1.
    destruct (show_line_effect line s) as (s1 & -> & P1 & S1).
    destruct (IH s1) as (s2 & -> & P2 & S2).
    exists s2. split; [reflexivity|].
    cbn [filter] in *. destruct (is_meal_line unicode_lower line);
      cbn [List.length] in *; lia.
Qed.

Lemma show_days_effect (ds : list DayPlan) :
  forall s : session',
  exists s',
    for_each show_day' ds s = (Ok tt, s')
    /\ (posted s' <= posted s + meal_lines (flat_map content ds))%nat
    /\ shown s'
       = (shown s + List.length ds + 2 * meal_lines (flat_map content ds))%nat.
Proof.
  induction ds as [|d ds IH]; intros s.
  - exists s. cbn. split; [reflexivity|]. lia.
  - cbn [for_each]. unfold bind at 1. unfold show_day at 1.
    unfold bind at 1. unfold emit at 1, modify at 1.
    set (s0 := {| service := service World image s;
                  page := st_expander image (heading d) :: page World image s |}).
    destruct (show_lines_effect (content d) s0) as (s1 & -> & P1 & S1).
    destruct (IH s1) as (s2 & -> & P2 & S2).
    exists s2. split; [reflexivity|].
    cbn [flat_map]. rewrite filter_app, length_app.
    subst s0. cbn [service page List.length] in *. lia.
Qed.

End WithWorld.
End HuggingFlowFacts.

Module HuggingExtra.
Import Text Eff HuggingFacts MealHugging MealHuggingFlow HuggingFlowFacts
  MoreSamples.

(** X12: a second call of [generate_meal_image] with the same prompt returns
    the value of the first and sends no request; a call sends at most one
    request, its prompt; a cached value of any prompt stays. *)
Theorem generate_meal_image_cached :
  forall (World image : Type)
         (requests_post : World -> str -> reply image * World)
         (prompt : str) (st st1 : state World image) (v : option image),
    generate_meal_image World image requests_post prompt st = (Ok v, st1) ->
    generate_meal_image World image requests_post prompt st1 = (Ok v, st1)
    /\ (posts World image st1 = posts World image st
        \/ posts World image st1 = prompt :: posts World image st)
    /\ (forall q r,
          cache_lookup image q (cache World image st) = Some r ->
          cache_lookup image q (cache World image st1) = Some r).
Proof.
  intros World image requests_post prompt st st1 v H.
  split; [now apply (gen_again World image requests_post prompt st)|].
  destruct (gen_cases World image requests_post prompt st)
    as [(v0 & Ec & E) | (v0 & w & Ec & E)];
    rewrite E in H; injection H as <- <-.
  - split; [now left | trivial].
  - split; [now right|].
    intros q r Hq. cbn [cache cache_lookup].
    destruct (Text.eqb prompt q) eqn:Eq; [|exact Hq].
    apply eqb_eq in Eq. subst q. congruence.
Qed.

Lemma generate_meal_image_cached_witness :
  generate_meal_image nat nat every_post_succeeds (u "oats") no_posts
  = (Ok (Some 0%nat),
     {| world := 1%nat; posts := [u "oats"]; cache := [(u "oats", Some 0%nat)] |})
  /\ generate_meal_image nat nat every_post_succeeds (u "oats")
       {| world := 1%nat; posts := [u "oats"]; cache := [(u "oats", Some 0%nat)] |}
     = (Ok (Some 0%nat),
        {| world := 1%nat; posts := [u "oats"]; cache := [(u "oats", Some 0%nat)] |}).
Proof.
  split; [reflexivity|].
  exact (proj1 (generate_meal_image_cached nat nat every_post_succeeds (u "oats")
                  no_posts _ _ eq_refl)).
Defined.

(** X13: two meal lines get the same prompt exactly when their lowercase forms
    are equal; such lines share one request: after the image of the first
    the image of the second comes from the cache. *)
Theorem enhance_meal_prompt_same_iff :
  forall (World image : Type)
         (requests_post : World -> str -> reply image * World)
         (unicode_lower : str -> str) (a b : str),
    (enhance_meal_prompt unicode_lower a = enhance_meal_prompt unicode_lower b
     <-> lower unicode_lower a = lower unicode_lower b)
    /\ (lower unicode_lower a = lower unicode_lower b ->
        forall st st1 v,
          generate_meal_image World image requests_post
            (enhance_meal_prompt unicode_lower a) st = (Ok v, st1) ->
          generate_meal_image World image requests_post
            (enhance_meal_prompt unicode_lower b) st1 = (Ok v, st1)).
Proof.
  intros World image requests_post unicode_lower a b.
  assert (I : enhance_meal_prompt unicode_lower a = enhance_meal_prompt unicode_lower b
              <-> lower unicode_lower a = lower unicode_lower b).
  { unfold enhance_meal_prompt. split.
    - intros H. apply app_inv_head in H. now apply app_inv_tail in H.
    - intros ->. reflexivity. }
  split; [exact I|].
  intros E st st1 v H. rewrite <- (proj2 I E).
  now apply (gen_again World image requests_post _ st st1 v).
Qed.

Lemma enhance_meal_prompt_same_iff_witness :
  lower (fun s => s) (u "Breakfast: Oats") = lower (fun s => s) (u "BREAKFAST: OATS")
  /\ enhance_meal_prompt (fun s => s) (u "Breakfast: Oats")
     = enhance_meal_prompt (fun s => s) (u "BREAKFAST: OATS").
Proof.
  split; [reflexivity|].
  exact (proj2 (proj1 (enhance_meal_prompt_same_iff nat nat every_post_succeeds
                         (fun s => s) (u "Breakfast: Oats") (u "BREAKFAST: OATS")))
           eq_refl).
Defined.

(** X14: the rendering of meal_hugging.py returns whatever the image service
    does (an exception of a request is caught inside
    [generate_meal_image]); it sends at most one request per meal line,
    and writes the title, one element per day and two per meal line. *)
Theorem hugging_rendering_returns :
  forall (World image : Type)
         (requests_post : World -> str -> reply image * World)
         (unicode_lower : str -> str) (Nd : char -> bool)
         (full_plan : str) (s : session World image),
  exists s',
    show_plan World image requests_post unicode_lower Nd full_plan s = (Ok tt, s')
    /\ (List.length (posts World image (service World image s'))
        <= List.length (posts World image (service World image s))
           + List.length (filter (is_meal_line unicode_lower)
                            (flat_map content (parse_plan Nd full_plan))))%nat
    /\ List.length (page World image s')
       = (List.length (page World image s) + 1
          + List.length (parse_plan Nd full_plan)
          + 2 * List.length (filter (is_meal_line unicode_lower)
                               (flat_map content (parse_plan Nd full_plan))))%nat.
Proof.
  intros World image requests_post unicode_lower Nd full_plan s.
  unfold show_plan. unfold bind at 1. unfold emit at 1, modify at 1.
  set (s0 := {| service := service World image s;
                page := st_subheader image (plan_title) :: page World image s |}).
  destruct (show_days_effect World image requests_post unicode_lower
              (parse_plan Nd full_plan) s0) as (s1 & -> & P & S).
  exists s1. split; [reflexivity|]. subst s0. cbn [service page List.length] in *.
  lia.
Qed.

(** Two days with the same breakfast, in different case, on a service that
    raises: no exception, one request, and the page has the title, two
    days and two elements for each of the two meal lines. *)
Lemma hugging_rendering_sample :
  exists s',
    show_plan nat nat every_post_fails (fun s => s) (fun _ => false)
      plan_same_breakfast empty_page = (Ok tt, s')
    /\ List.length (posts nat nat (service nat nat s')) = 1%nat
    /\ List.length (page nat nat s') = 7%nat.
Proof. eexists. vm_compute. repeat split. Qed.

End HuggingExtra.

(** ** Day headings and day tokens *)

Module TokenFacts.
Import Text Re Reference ReFacts PlanFacts GroceryFacts Conditions
  AiMealPexels Patterns.

Section WithDigits.
Variable Nd : char -> bool.
Local Abbreviation day := (begins_with_day Nd).
Local Abbreviation notD := (fun c : char => negb (c =? 68)%N).

Lemma split_before_count (s : str) :
  forall gap, List.length (split_before day s gap) = S (count_days Nd s).
Proof.
  induction s as [|c s IH]; intros gap; [reflexivity|].
  cbn [split_before count_days]. destruct (day (c :: s)).
  - cbn [List.length]. now rewrite IH.
  - now rewrite IH.
Qed.

Lemma token_match_at (s : str) :
  match_at Nd day_token_re s false
  = match s with
    | 68%N :: 97%N :: 121%N :: s3 =>
        match token_k Nd s3 with
        | Some (gs, rest) =>
            Some (firstn (List.length s - List.length rest) s, gs, rest)
        | None => None
        end
    | _ => None
    end.
Proof.
  unfold match_at, day_token_re, lits, lit, clit, token_k.
  cbn [List.map list_ascii_of_string app exec].
  destruct s as [|c1 s]; [reflexivity|]. cbn [one cmatch].
  destruct (N.eqb_spec c1 (N_of_ascii "D")) as [->|N1].
  2:{ destruct c1 as [|p]; [reflexivity|].
      do 7 (destruct p as [p|p|]; try reflexivity); exfalso; apply N1; reflexivity. }
  change (N_of_ascii "D") with 68%N.
  destruct s as [|c2 s]; [reflexivity|]. cbn [one cmatch].
  destruct (N.eqb_spec c2 (N_of_ascii "a")) as [->|N2].
  2:{ destruct c2 as [|p]; [reflexivity|].
      do 7 (destruct p as [p|p|]; try reflexivity); exfalso; apply N2; reflexivity. }
  change (N_of_ascii "a") with 97%N.
  destruct s as [|c3 s]; [reflexivity|]. cbn [one cmatch].
  destruct (N.eqb_spec c3 (N_of_ascii "y")) as [->|N3].
  2:{ destruct c3 as [|p]; [reflexivity|].
      do 7 (destruct p as [p|p|]; try reflexivity); exfalso; apply N3; reflexivity. }
  reflexivity.
Qed.

Lemma space_notD (c : char) : isspace c = true -> notD c = true.
Proof.
  intros H. apply Bool.negb_true_iff, N.eqb_neq. intros ->. discriminate H.
Qed.

Lemma digit_notD (c : char) : isdigit Nd c = true -> notD c = true.
Proof.
  intros H. apply Bool.negb_true_iff, N.eqb_neq. intros ->. discriminate H.
Qed.

(** A token is the letters of Day, white space and one digit: after its
    first letter it holds no capital D. *)
Lemma token_k_some (s3 : str) (r : result) :
  token_k Nd s3 = Some r ->
  exists w, s3 = w ++ snd r /\ forallb notD w = true /\ fst r = [].
Proof.
  unfold token_k. intros H.
  apply greedy_some in H as (w & rest & -> & Hw & H).
  apply one_some in H as (d & rest' & -> & Hd & H). injection H as <-.
  exists (w ++ [d]). cbn [fst snd]. rewrite <- app_assoc. split; [reflexivity|].
  split; [|reflexivity]. rewrite forallb_app. cbn [forallb].
  rewrite (digit_notD d Hd), Bool.andb_true_r.
  apply forallb_forall. intros x Hx. apply space_notD.
  rewrite forallb_forall in Hw. now apply Hw.
Qed.

Lemma token_match_shape (s : str) (x : str * list str * str) :
  match_at Nd day_token_re s false = Some x ->
  exists s3,
    s = 68%N :: 97%N :: 121%N :: s3
    /\ match token_k Nd s3 with
       | Some (gs, rest) =>
           Some (firstn (List.length s - List.length rest) s, gs, rest)
       | None => None
       end = Some x.
Proof.
  rewrite token_match_at. intros H.
  destruct s as [|c1 s]; [discriminate|].
  destruct c1 as [|p]; [discriminate|].
  do 7 (destruct p as [p|p|]; try discriminate H).
  destruct s as [|c2 s]; [discriminate|].
  destruct c2 as [|p]; [discriminate|].
  do 7 (destruct p as [p|p|]; try discriminate H).
  destruct s as [|c3 s]; [discriminate|].
  destruct c3 as [|p]; [discriminate|].
  do 7 (destruct p as [p|p|]; try discriminate H).
  exists s. split; [reflexivity | exact H].
Qed.

Lemma token_match_some (s txt : str) (gs : list str) (rest : str) :
  match_at Nd day_token_re s false = Some (txt, gs, rest) ->
  exists t, txt = 68%N :: t /\ s = txt ++ rest /\ forallb notD t = true.
Proof.
  intros H. apply token_match_shape in H as (s3 & Es & H).
  destruct (token_k Nd s3) as [[gs' rest']|] eqn:E; [|discriminate].
  injection H as <- <- <-.
  destruct (token_k_some s3 _ E) as (w & Ew & Hw & _). cbn [snd] in Ew.
  assert (Es' : s = (68%N :: 97%N :: 121%N :: w) ++ rest')
    by (rewrite Es, Ew; reflexivity).
  rewrite Es', firstn_consumed. exists (97%N :: 121%N :: w).
  split; [reflexivity|]. split; [reflexivity|]. exact Hw.
Qed.

(** Where a day heading begins, the token pattern matches. *)
Lemma token_match_day (s : str) :
  day s = true -> match_at Nd day_token_re s false <> None.
Proof.
  intros H. destruct (day_inv Nd s H) as (d & rest & -> & Hd).
  assert (G : greedy (cmatch Nd CSpace)
                (one (cmatch Nd CDigit) (fun s5 => Some ([], s5))) (d :: rest)
              <> None).
  { cbn [greedy cmatch]. destruct (isspace d).
    - destruct (greedy _ _ rest); [discriminate|].
      cbn [one cmatch]. rewrite Hd. discriminate.
    - cbn [one cmatch]. rewrite Hd. discriminate. }
  remember (d :: rest) as x eqn:Ex. clear Ex H Hd.
  rewrite token_match_at.
  change (u "Day " ++ x) with (68%N :: 97%N :: 121%N :: 32%N :: x).
  cbv beta iota.
  unfold token_k. cbn [greedy cmatch]. change (isspace 32%N) with true. cbv iota.
  destruct (greedy (cmatch Nd CSpace)
              (one (cmatch Nd CDigit) (fun s5 => Some ([], s5))) x) as [[gs r]|];
    [discriminate | congruence].
Qed.

Lemma skipn_notD (t r : str) (i : nat) :
  forallb notD t = true -> (i < List.length t)%nat ->
  day (skipn i (t ++ r)) = false.
Proof.
  revert i. induction t as [|x t IH]; intros i Ht Hi; [simpl in Hi; lia|].
  cbn [forallb] in Ht. apply Bool.andb_true_iff in Ht as [Hx Ht].
  destruct i as [|i].
  - cbn [skipn app]. apply day_not. intros ->. discriminate Hx.
  - cbn [skipn app]. apply IH; [exact Ht | simpl in Hi; lia].
Qed.

(** Every place where a day heading begins is the start of a match of the
    token pattern: the matches are at least as many as these places. *)
Lemma scan_count (s : str) :
  forall skip gap,
    (forall i, (i < skip)%nat -> day (skipn i s) = false) ->
    (count_days Nd s <= List.length (fst (scan Nd day_token_re s skip gap)))%nat.
Proof.
  induction s as [|c s IH]; intros skip gap Hskip; [cbn; lia|].
  destruct skip as [|k].
  - cbn [scan].
    destruct (match_at Nd day_token_re (c :: s) false) as [[[txt gs] r]|] eqn:E.
    + destruct (token_match_some _ _ _ _ E) as (t & -> & Es & Ht).
      injection Es as -> ->.
      match goal with
      | |- context [scan ?a ?b ?c ?d ?e] =>
          pose proof (IH d e) as IH'; destruct (scan a b c d e) as [ms tl]
      end.
      cbn [fst List.length count_days] in *.
      assert (Hi : forall i, (i < S (List.length t) - 1)%nat ->
                         day (skipn i (t ++ r)) = false).
      { intros i Hi. apply skipn_notD; [exact Ht|].
        rewrite Nat.sub_succ, Nat.sub_0_r in Hi. exact Hi. }
      specialize (IH' Hi).
      match goal with |- context [if ?b then _ else _] => destruct b end; lia.
    + assert (Hd : day (c :: s) = false).
      { destruct (day (c :: s)) eqn:Hd; [|reflexivity].
        now apply token_match_day in Hd. }
      specialize (IH 0%nat (c :: gap) ltac:(intros i Hi; lia)).
      cbn [count_days]. rewrite Hd. exact IH.
  - cbn [scan]. pose proof (Hskip 0%nat ltac:(lia)) as H0. cbn [skipn] in H0.
    cbn [count_days]. rewrite H0. apply IH.
    intros i Hi. apply (Hskip (S i)). lia.
Qed.

Lemma count_days_tokens (s : str) :
  (count_days Nd s <= List.length (day_tokens Nd s))%nat.
Proof.
  unfold day_tokens, findall0, finditer. rewrite length_map.
  apply scan_count. intros i Hi. lia.
Qed.

(** Stripping a text removes no day heading that the whole text does not
    have. *)
Lemma count_days_app_l (w s : str) :
  forallb isspace w = true -> count_days Nd (w ++ s) = count_days Nd s.
Proof.
  induction w as [|c w IH]; [reflexivity|]. cbn [forallb app count_days].
  intros H. apply Bool.andb_true_iff in H as [Hc H].
  rewrite day_not by (intros ->; discriminate Hc). now rewrite IH.
Qed.

Lemma count_days_app_r (s w : str) :
  (count_days Nd s <= count_days Nd (s ++ w))%nat.
Proof.
  induction s as [|c s IH]; [cbn; lia|]. cbn [app count_days].
  destruct (day (c :: s)) eqn:Hd.
  - apply (day_app Nd _ w) in Hd. cbn [app] in Hd. rewrite Hd. lia.
  - destruct (day (c :: s ++ w)); lia.
Qed.

Lemma count_days_strip (s : str) :
  (count_days Nd (strip s) <= count_days Nd s)%nat.
Proof.
  unfold strip.
  destruct (lstrip_by_split isspace s) as (w1 & E1 & H1).
  destruct (rstrip_by_split isspace (lstrip_by isspace s)) as (w2 & E2 & _).
  rewrite E1 at 2. rewrite count_days_app_l by exact H1.
  rewrite E2 at 2. apply count_days_app_r.
Qed.

End WithDigits.
End TokenFacts.

Module PlanExtra.
Import Text PlanFacts Conditions TokenFacts MoreSamples.

Lemma keep_some_length {A} (l : list (option A)) :
  (List.length (AiMealPexels.keep_some l) <= List.length l)%nat.
Proof.
  induction l as [|[a|] l IH]; cbn [AiMealPexels.keep_some List.length]; lia.
Qed.

(** X15: the white space after the lookahead in the split pattern of
    meal_hugging.py never takes a character: the two scripts cut a text in
    the same segments, and their records hold the same lines (the heading
    stripped and the content joined in ai_meal_pexels.py). *)
Theorem plan_split_same_in_both_scripts :
  forall (Nd : char -> bool) (plan : str),
    AiMealPexels.segments Nd plan = MealHugging.segments Nd (strip plan)
    /\ List.map (fun d => (AiMealPexels.heading d, AiMealPexels.content d))
         (AiMealPexels.parse_plan Nd plan)
       = List.map (fun d => (strip (MealHugging.heading d),
                             join [NL] (MealHugging.content d)))
           (MealHugging.parse_plan Nd (strip plan)).
Proof.
  intros Nd plan.
  assert (E : AiMealPexels.segments Nd plan = MealHugging.segments Nd (strip plan))
    by now rewrite pexels_segments_split, hugging_segments_split.
  split; [exact E|].
  unfold AiMealPexels.parse_plan, MealHugging.parse_plan. rewrite E. clear E.
  induction (MealHugging.segments Nd (strip plan)) as [|seg l IH]; [reflexivity|].
  cbn [List.map]. unfold AiMealPexels.parse_day at 1, MealHugging.parse_day at 1.
  destruct (splitlines (strip seg)) as [|l0 rest]; cbn [AiMealPexels.keep_some].
  - exact IH.
  - cbn [List.map]. now rewrite IH.
Qed.

(** X16: the segments of the split are one more than the places where a day
    heading begins, and each such place is counted by the test of the
    warning: when the warning is shown at most seven records are rendered,
    and a text that is cut in eight segments or more (seven headings)
    shows no warning. *)
Theorem warning_and_segments :
  forall (Nd : char -> bool) (plan : str),
    List.length (AiMealPexels.segments Nd plan) = S (count_days Nd (strip plan))
    /\ (count_days Nd (strip plan)
        <= List.length (AiMealPexels.day_tokens Nd plan))%nat
    /\ (AiMealPexels.short_plan Nd plan = true ->
        (List.length (AiMealPexels.parse_plan Nd plan) <= 7)%nat)
    /\ ((8 <= List.length (AiMealPexels.segments Nd plan))%nat ->
        AiMealPexels.short_plan Nd plan = false).
Proof.
  intros Nd plan.
  assert (L : List.length (AiMealPexels.segments Nd plan)
              = S (count_days Nd (strip plan)))
    by (rewrite pexels_segments_split; apply split_before_count).
  assert (C : (count_days Nd (strip plan)
               <= List.length (AiMealPexels.day_tokens Nd plan))%nat).
  { pose proof (count_days_strip Nd plan). pose proof (count_days_tokens Nd plan). lia. }
  split; [exact L|]. split; [exact C|]. split.
  - unfold AiMealPexels.short_plan. intros H. apply Nat.ltb_lt in H.
    unfold AiMealPexels.parse_plan.
    pose proof (keep_some_length
                  (List.map (AiMealPexels.parse_day Nd) (AiMealPexels.segments Nd plan))) as K.
    rewrite length_map in K. lia.
  - intros H. unfold AiMealPexels.short_plan. apply Nat.ltb_ge. lia.
Qed.

Lemma warning_and_segments_witness :
  AiMealPexels.short_plan (fun _ => false) plan_one_heading = true
  /\ (List.length (AiMealPexels.parse_plan (fun _ => false) plan_one_heading) <= 7)%nat
  /\ (8 <= List.length (AiMealPexels.segments (fun _ => false) plan_seven_headings))%nat
  /\ AiMealPexels.short_plan (fun _ => false) plan_seven_headings = false.
Proof.
  split; [reflexivity|]. split.
  - exact (proj1 (proj2 (proj2 (warning_and_segments (fun _ => false) plan_one_heading)))
             eq_refl).
  - assert (H : (8 <= List.length
                        (AiMealPexels.segments (fun _ => false) plan_seven_headings))%nat)
      by (vm_compute; lia).
    split; [exact H|].
    exact (proj2 (proj2 (proj2 (warning_and_segments (fun _ => false)
                                  plan_seven_headings))) H).
Defined.

End PlanExtra.

(** ** The meal pattern *)

Module MealFacts.
Import Text Re Reference TextFacts ReFacts GroceryFacts StrOps SplitFacts
  AiMealPexels Patterns.
Section WithDigits.
Variable Nd : char -> bool.

Lemma one_ext (p : char -> bool) (k k' : str -> option result) (s : str) :
  (forall x, k x = k' x) -> one p k s = one p k' s.
Proof. intros H. destruct s as [|c s]; [reflexivity|]. simpl. now rewrite H. Qed.

Lemma greedy_ext (p : char -> bool) (k k' : str -> option result) (s : str) :
  (forall x, k x = k' x) -> greedy p k s = greedy p k' s.
Proof.
  intros H. induction s as [|c s IH]; simpl; [apply H|].
  rewrite IH, H. reflexivity.
Qed.

Lemma lazy_ext (p : char -> bool) (k k' : str -> option result) (s : str) :
  (forall x, k x = k' x) -> lazy p k s = lazy p k' s.
Proof.
  intros H. induction s as [|c s IH]; simpl; rewrite H; [reflexivity|].
  now rewrite IH.
Qed.

Lemma meal_tail_eq (s0 s1 s3 : str) :
  greedy (cmatch Nd CSpace)
    (fun s4 =>
       greedy (cmatch Nd CDot)
         (fun s5 =>
            Some (rev [firstn (List.length s4 - List.length s5) s4;
                       firstn (List.length s0 - List.length s1) s0], s5))
         s4)
    s3
  = meal_tail Nd s0 s1 s3.
Proof.
  rewrite (greedy_ext _ _
             (fun s4 =>
                Some ([firstn (List.length s0 - List.length s1) s0;
                       firstn (List.length s4
                               - List.length (lstrip_by (cmatch Nd CDot) s4)) s4],
                      lstrip_by (cmatch Nd CDot) s4))).
  - now rewrite (greedy_total (cmatch Nd CSpace)
                   (fun s4 =>
                      ([firstn (List.length s0 - List.length s1) s0;
                        firstn (List.length s4
                                - List.length (lstrip_by (cmatch Nd CDot) s4)) s4],
                       lstrip_by (cmatch Nd CDot) s4))).
  - intros s4.
    now rewrite (greedy_total (cmatch Nd CDot)
                   (fun s5 =>
                      (rev [firstn (List.length s4 - List.length s5) s4;
                            firstn (List.length s0 - List.length s1) s0], s5))).
Qed.

Lemma meal_exec_eq (s : str) :
  exec Nd meal_re s [] [] (fun rest => negb false || (List.length rest <? List.length s)%nat)
  = meal_exec Nd s.
Proof.
  unfold meal_re, lits, lit, meal_exec.
  cbn [List.map list_ascii_of_string app exec negb orb].
  apply one_ext. intros x1. apply one_ext. intros s0.
  apply lazy_ext. intros s1. unfold meal_k1.
  apply one_ext. intros x2. apply one_ext. intros s2.
  rewrite (one_ext _ _ (meal_tail Nd s0 s1) s2) by (intros s3; apply meal_tail_eq).
  now rewrite meal_tail_eq.
Qed.

(** A lazy repetition stops at the first place where the rest of the
    pattern matches. *)
Lemma lazy_some_first (p : char -> bool) (k : str -> option result) :
  forall x r,
    lazy p k x = Some r ->
    exists w rest,
      x = w ++ rest /\ forallb p w = true /\ k rest = Some r
      /\ forall w1 w2, w = w1 ++ w2 -> w2 <> [] -> k (w2 ++ rest) = None.
Proof.
  induction x as [|c x IH]; intros r H.
  - simpl in H. destruct (k []) eqn:E; [|discriminate]. injection H as ->.
    exists [], []. repeat split; trivial.
    intros w1 w2 Hw. symmetry in Hw. apply app_eq_nil in Hw as [_ ->]. congruence.
  - cbn [lazy] in H. destruct (k (c :: x)) eqn:E.
    + injection H as ->. exists [], (c :: x). repeat split; trivial.
      intros w1 w2 Hw. symmetry in Hw. apply app_eq_nil in Hw as [_ ->]. congruence.
    + destruct (p c) eqn:Hc; [|discriminate].
      destruct (IH r H) as (w & rest & -> & Hw & Hk & Hmin).
      exists (c :: w), rest. split; [reflexivity|]. split; [simpl; now rewrite Hc|].
      split; [exact Hk|].
      intros w1 w2 E' Hw2. destruct w1 as [|a w1].
      * simpl in E'. subst w2. exact E.
      * simpl in E'. injection E' as _ E'. now apply (Hmin w1 w2).
Qed.

Lemma firstn_lstrip (p : char -> bool) (x : str) :
  exists pre,
    firstn (List.length x - List.length (lstrip_by p x)) x = pre
    /\ x = pre ++ lstrip_by p x /\ forallb p pre = true.
Proof.
  destruct (lstrip_by_split p x) as (w & E & Hw). exists w.
  split; [|split; [exact E | exact Hw]].
  rewrite E at 1 3. apply firstn_consumed.
Qed.

Lemma lstrip_by_length (p : char -> bool) (x : str) :
  (List.length (lstrip_by p x) <= List.length x)%nat.
Proof.
  destruct (lstrip_by_split p x) as (w & E & _).
  rewrite E at 2. rewrite length_app. lia.
Qed.

Lemma meal_tail_some (s0 s1 s3 : str) (r : result) :
  meal_tail Nd s0 s1 s3 = Some r ->
  exists g2,
    fst r = [firstn (List.length s0 - List.length s1) s0; g2]
    /\ no_newline g2 = true
    /\ (forall c t, g2 = c :: t -> isspace c = false)
    /\ (List.length (snd r) <= List.length s3)%nat.
Proof.
  unfold meal_tail. intros H. injection H as <-. cbn [fst snd].
  destruct (firstn_lstrip (cmatch Nd CDot) (lstrip_by isspace s3))
    as (g2 & -> & E & Hg).
  exists g2. split; [reflexivity|]. split; [exact Hg|].
  split.
  2:{ pose proof (lstrip_by_length (cmatch Nd CDot) (lstrip_by isspace s3)).
      pose proof (lstrip_by_length isspace s3). lia. }
  intros c t ->.
  destruct (lstrip_by_head isspace s3) as [E0 | (c0 & t0 & E0 & Hc)];
    rewrite E0 in E; [discriminate|].
  simpl in E. now injection E as ->.
Qed.

Lemma star_inv (k : str -> option result) (s : str) (r : result) :
  one (cmatch Nd (clit "*")) k s = Some r ->
  exists s', s = 42%N :: s' /\ k s' = Some r.
Proof.
  intros H. apply one_some in H as (c & s' & -> & Hc & H).
  cbn [cmatch clit] in Hc. apply N.eqb_eq in Hc. subst c. now exists s'.
Qed.

Lemma meal_k1_some (s0 s1 : str) (r : result) :
  meal_k1 Nd s0 s1 = Some r ->
  exists g2,
    fst r = [firstn (List.length s0 - List.length s1) s0; g2]
    /\ no_newline g2 = true
    /\ (forall c t, g2 = c :: t -> isspace c = false)
    /\ (List.length (snd r) < List.length s1)%nat.
Proof.
  unfold meal_k1. intros H.
  apply star_inv in H as (s' & -> & H). apply star_inv in H as (s2 & -> & H).
  destruct (one (cmatch Nd (clit ":")) (meal_tail Nd s0 _) s2) as [r'|] eqn:E.
  - injection H as ->. apply one_some in E as (c & s3 & -> & _ & E).
    apply meal_tail_some in E as (g2 & E1 & E2 & E3 & E4).
    exists g2. cbn [List.length]. repeat split; auto. lia.
  - apply meal_tail_some in H as (g2 & E1 & E2 & E3 & E4).
    exists g2. cbn [List.length]. repeat split; auto. lia.
Qed.

Lemma meal_k1_stars (s0 x : str) :
  starts_with (u "**") x = true -> meal_k1 Nd s0 x <> None.
Proof.
  intros H. destruct (starts_with_inv _ _ H) as [t ->].
  unfold meal_k1. cbn [u List.map list_ascii_of_string app one cmatch clit].
  rewrite N.eqb_refl.
  destruct (one (cmatch Nd (clit ":")) _ t); [discriminate|].
  unfold meal_tail. discriminate.
Qed.

Lemma meal_exec_some (s : str) (r : result) :
  meal_exec Nd s = Some r ->
  exists g1 g2,
    fst r = [g1; g2]
    /\ no_newline g1 = true /\ contains (u "**") g1 = false
    /\ no_newline g2 = true
    /\ (forall c t, g2 = c :: t -> isspace c = false)
    /\ (List.length (snd r) < List.length s)%nat.
Proof.
  unfold meal_exec. intros H.
  apply star_inv in H as (s' & -> & H). apply star_inv in H as (s0 & -> & H).
  apply lazy_some_first in H as (w & s1 & -> & Hw & H & Hmin).
  destruct (meal_k1_some _ _ _ H) as (g2 & E & H2 & H3 & H4).
  rewrite firstn_consumed in E.
  exists w, g2. split; [exact E|]. split; [exact Hw|]. split.
  2:{ split; [exact H2|]. split; [exact H3|].
      cbn [List.length]. rewrite length_app. lia. }
  assert (G : forall b a, w = a ++ b -> contains (u "**") b = false).
  { induction b as [|c b IH]; intros a Ea; [reflexivity|].
    apply contains_false_cons. split.
    - destruct (starts_with (u "**") (c :: b)) eqn:Hs; [|reflexivity].
      apply (starts_with_app_l _ _ s1) in Hs.
      apply (meal_k1_stars (w ++ s1)) in Hs. exfalso. apply Hs.
      apply (Hmin a (c :: b) Ea). discriminate.
    - apply (IH (a ++ [c])). now rewrite <- app_assoc. }
  now apply (G w []).
Qed.

(** The matches of a pattern that matches no empty text: each one is a
    match at some place of the text. *)
Lemma scan_in (r : regex) :
  (forall t txt gs rest, match_at Nd r t false = Some (txt, gs, rest) -> txt <> []) ->
  forall s skip gap m,
    In m (fst (scan Nd r s skip gap)) ->
    exists t rest, match_at Nd r t false = Some (m_text m, m_groups m, rest).
Proof.
  intros Hne. induction s as [|c s IH]; intros skip gap m Hin.
  - destruct skip as [|n]; [|destruct Hin]. cbn [scan] in Hin.
    destruct (match_at Nd r [] false) as [[[txt gs] rest]|] eqn:E; [|destruct Hin].
    pose proof (Hne _ _ _ _ E) as N. destruct txt as [|x txt]; [congruence|].
    destruct Hin as [<-|[]]. now exists [], rest.
  - destruct skip as [|n]; cbn [scan] in Hin; [|now apply (IH n gap)].
    destruct (match_at Nd r (c :: s) false) as [[[txt gs] rest]|] eqn:E.
    + pose proof (Hne _ _ _ _ E) as N. destruct txt as [|x txt]; [congruence|].
      destruct (scan Nd r s (List.length (x :: txt) - 1) []) as [ms tl] eqn:Es.
      destruct Hin as [<-|Hin]; [now exists (c :: s), rest|].
      apply (IH (List.length (x :: txt) - 1)%nat [] m). now rewrite Es.
    + now apply (IH 0%nat (c :: gap)).
Qed.

Lemma meal_match_at (s txt : str) (gs : list str) (rest : str) :
  match_at Nd meal_re s false = Some (txt, gs, rest) ->
  txt <> []
  /\ exists g1 g2,
       gs = [g1; g2]
       /\ no_newline g1 = true /\ contains (u "**") g1 = false
       /\ no_newline g2 = true
       /\ (forall c t, g2 = c :: t -> isspace c = false).
Proof.
  unfold match_at. rewrite meal_exec_eq.
  destruct (meal_exec Nd s) as [[gs' rest']|] eqn:E; [|discriminate].
  intros H. injection H as <- <- <-.
  destruct (meal_exec_some _ _ E) as (g1 & g2 & E1 & H1 & H2 & H3 & H4 & H5).
  cbn [fst snd] in *. split; [|now exists g1, g2].
  destruct s as [|a s]; [simpl in H5; lia|].
  destruct (List.length (a :: s) - List.length rest')%nat eqn:L; [lia|].
  discriminate.
Qed.

Lemma findall2_meal (content meal_type meal_desc : str) :
  In (meal_type, meal_desc) (findall2 Nd meal_re content) ->
  no_newline meal_type = true /\ contains (u "**") meal_type = false
  /\ no_newline meal_desc = true
  /\ (forall c t, meal_desc = c :: t -> isspace c = false).
Proof.
  unfold findall2, finditer. intros H.
  apply in_map_iff in H as (m & E & Hin).
  apply (scan_in meal_re) in Hin as (t & rest & Hm).
  - apply meal_match_at in Hm as (_ & g1 & g2 & Eg & H1 & H2 & H3 & H4).
    rewrite Eg in E. cbn [nth] in E. injection E as <- <-. auto.
  - intros t txt gs rest Hm. now apply meal_match_at in Hm.
Qed.

End WithDigits.
End MealFacts.

Module MealExtra.
Import Text Reference Samples PlanFacts StrOps AiMealPexels MealFacts.

(** X17: the meal entries of a day: the meal type holds no newline and no
    double asterisk; the description holds no newline and does not begin
    with white space. *)
Theorem meal_entry_fields :
  forall (Nd : char -> bool) (plan : str) (d : DayPlan)
         (meal_type meal_desc : str),
    In d (parse_plan Nd plan) ->
    In (meal_type, meal_desc) (meals d) ->
    no_newline meal_type = true /\ contains (u "**") meal_type = false
    /\ no_newline meal_desc = true
    /\ (forall c t, meal_desc = c :: t -> isspace c = false).
Proof.
  intros Nd plan d meal_type meal_desc Hd Hm.
  unfold parse_plan in Hd. apply keep_some_in, in_map_iff in Hd as (seg & E & _).
  unfold parse_day in E. destruct (splitlines (strip seg)) as [|l0 rest]; [discriminate|].
  injection E as <-. cbn [meals] in Hm. now apply findall2_meal in Hm.
Qed.

Lemma meal_entry_fields_witness :
  In (u "Breakfast", u "Oats")
     (meals {| heading := u "Day 1";
               content := lines [u "**Breakfast**: Oats"; u "**Lunch**: Salad"];
               meals := [(u "Breakfast", u "Oats"); (u "Lunch", u "Salad")] |})
  /\ no_newline (u "Oats") = true
  /\ contains (u "**") (u "Breakfast") = false.
Proof.
  assert (Hd : In {| heading := u "Day 1";
                     content := lines [u "**Breakfast**: Oats"; u "**Lunch**: Salad"];
                     meals := [(u "Breakfast", u "Oats"); (u "Lunch", u "Salad")] |}
                  (parse_plan (fun _ => false) plan_two_days))
    by (vm_compute; left; reflexivity).
  assert (Hm : In (u "Breakfast", u "Oats")
                  (meals {| heading := u "Day 1";
                            content := lines [u "**Breakfast**: Oats"; u "**Lunch**: Salad"];
                            meals := [(u "Breakfast", u "Oats"); (u "Lunch", u "Salad")] |}))
    by (left; reflexivity).
  split; [exact Hm|].
  destruct (meal_entry_fields (fun _ => false) plan_two_days _ _ _ Hd Hm)
    as (_ & A & B & _).
  split; [exact B | exact A].
Defined.

End MealExtra.

(** ** Products by a positive normal float, in the order *)

Module FloatMore.
Import PyFloat FloatOrder FloatFacts FloatOrderMore.
Local Open Scope Z_scope.

Lemma times_place_k_le (mc : positive) (k : Z) (v1 v2 : Z) :
  0 <= k ->
  v1 <= v2 -> odd_ext (times_place_k mc k) v1 <= odd_ext (times_place_k mc k) v2.
Proof.
  intros Hk. assert (P : 0 < 2 ^ k) by (apply pow2_pos; lia).
  apply odd_ext_le.
  - intros u1 u2 H. unfold times_place_k.
    apply place_le; try exact P; try nia.
    apply Z.mul_le_mono_nonneg_r; [lia | nia].
  - intros u H. unfold times_place_k. apply place_nonneg; [nia | exact P].
Qed.

Lemma SFmul_place_k (x : spec_float) (mc : positive) (k : Z) :
  valid_binary x = true -> is_nan x = false ->
  2 ^ 52 <= Z.pos mc -> 52 <= k <= 100 ->
  ord (SFmul prec emax x (S754_finite false mc (- k)))
  = odd_ext (times_place_k mc k) (ord x)
  /\ is_nan (SFmul prec emax x (S754_finite false mc (- k))) = false.
Proof.
  intros V N Hc Hk.
  assert (Pk : 0 < 2 ^ k) by (apply pow2_pos; lia).
  destruct x as [s|s| |s m e]; try discriminate.
  - split; [|reflexivity]. cbn [SFmul ord]. unfold odd_ext, times_place_k.
    cbn [Z.ltb Z.compare Z.mul]. now rewrite place_zero.
  - split; [|reflexivity]. cbn [SFmul ord]. rewrite Bool.xorb_false_r.
    assert (I : 0 < INF) by (apply pow2_pos; lia).
    assert (B : times_place_k mc k INF = INF).
    { unfold times_place_k. apply place_big; [exact Pk|].
      assert (2 ^ k <= 2 ^ 100) by (apply Z.pow_le_mono_r; lia).
      assert (2 ^ 2098 * 2 ^ 100 <= INF * 2 ^ 52) by (vm_compute; discriminate).
      assert (0 < 2 ^ 2098) by (apply pow2_pos; lia).
      nia. }
    unfold odd_ext. destruct s.
    + replace (- INF <? 0) with true by (symmetry; apply Z.ltb_lt; lia).
      now rewrite Z.opp_involutive, B.
    + replace (INF <? 0) with false by (symmetry; apply Z.ltb_ge; lia).
      now rewrite B.
  - destruct (valid_finite s m e V) as (He & Hm & Hn).
    pose proof (units_pos m e ltac:(lia)) as U.
    cbn [SFmul]. rewrite Bool.xorb_false_r.
    assert (L : Z.log2 (Z.pos m) + 52 <= Z.log2 (Z.pos (m * mc))).
    { assert (52 <= Z.log2 (Z.pos mc)) by (apply Z.log2_le_pow2; lia).
      pose proof (Z.log2_mul_below (Z.pos m) (Z.pos mc) ltac:(lia) ltac:(lia)).
      rewrite Pos2Z.inj_mul. lia. }
    assert (L0 : 0 <= Z.log2 (Z.pos m)) by apply Z.log2_nonneg.
    assert (Ln : -1074 < e -> 52 <= Z.log2 (Z.pos m)).
    { intros H. apply Z.log2_le_pow2; [lia | now apply Hn]. }
    rewrite (round_aux_nearest s (m * mc) (e + - k) (e + 1074) k) by lia.
    replace (Z.pos (m * mc) * 2 ^ (e + 1074)) with (units m e * Z.pos mc)
      by (unfold units; rewrite Pos2Z.inj_mul; ring).
    set (n := units m e * Z.pos mc).
    assert (Hn0 : 0 <= n) by (subst n; nia).
    pose proof (nearest_le_2_53 n (2 ^ k) Hn0 Pk) as B1.
    pose proof (nearest_ge_2_52 n (2 ^ k) Hn0 Pk) as B2.
    pose proof (nearest_shift_nonneg n (2 ^ k)) as B3.
    destruct (nearest n (2 ^ k)) as [M j] eqn:EN. cbn [fst snd] in *.
    destruct (SF_of_units_spec s M j B3 B1 B2) as (O & _ & Nn).
    split; [|exact Nn]. rewrite O.
    unfold odd_ext, times_place_k, place, signed. cbn [ord].
    destruct s.
    + replace (- units m e <? 0) with true by (symmetry; apply Z.ltb_lt; lia).
      rewrite Z.opp_involutive. fold n. now rewrite EN.
    + replace (units m e <? 0) with false by (symmetry; apply Z.ltb_ge; lia).
      fold n. now rewrite EN.
Qed.

(** The magnitude of a float is a multiple of the unit of its binade. *)
Lemma units_shift (m : positive) (e : Z) :
  valid_binary (S754_finite false m e) = true ->
  units m e = Z.pos m * 2 ^ Z.max (Z.log2 (units m e) + 1 - 53) 0.
Proof.
  intros V. destruct (valid_finite false m e V) as (He & Hm & Hn).
  assert (L53 : Z.log2 (Z.pos m) < 53) by (apply Z.log2_lt_pow2; lia).
  unfold units. rewrite Z.log2_mul_pow2 by lia.
  destruct (Z.eq_dec e (-1074)) as [->|Ne].
  - rewrite Z.max_r by lia. reflexivity.
  - assert (52 <= Z.log2 (Z.pos m)) by (apply Z.log2_le_pow2; [lia | apply Hn; lia]).
    rewrite Z.max_l by lia. f_equal. f_equal. lia.
Qed.

(** The nearest float of a float is that float. *)
Lemma place_exact (m : positive) (e k : Z) :
  valid_binary (S754_finite false m e) = true -> 0 <= k ->
  place (units m e * 2 ^ k) (2 ^ k) = units m e.
Proof.
  intros V Hk. destruct (valid_finite false m e V) as (He & Hm & Hn).
  assert (Pk : 0 < 2 ^ k) by (apply pow2_pos; lia).
  pose proof (units_lt_2098 m e He Hm) as B.
  pose proof (units_shift m e V) as D.
  unfold place, nearest. rewrite Z.div_mul by lia.
  remember (Z.max (Z.log2 (units m e) + 1 - 53) 0) as j eqn:Ej.
  assert (Pj : 0 < 2 ^ j) by (apply pow2_pos; lia).
  rewrite (Z.mul_comm (2 ^ k) (2 ^ j)).
  rewrite rne_div_scale by lia. rewrite D at 1. rewrite rne_div_exact by lia.
  unfold value. cbn [fst snd]. rewrite <- D. unfold capped.
  destruct (Z.ltb_spec (units m e) (2 ^ 2098)); [reflexivity | lia].
Qed.

Lemma capped_le_INF (v : Z) : capped v <= INF.
Proof.
  unfold capped. destruct (Z.ltb_spec v (2 ^ 2098)); [|lia].
  assert (2 ^ 2098 <= INF) by (vm_compute; discriminate). lia.
Qed.

(** A product by a float that is at most one does not exceed the other
    factor. *)
Lemma times_place_k_shrinks (x : spec_float) (mc : positive) (k : Z) :
  valid_binary x = true -> is_nan x = false -> 0 <= ord x ->
  0 <= k -> Z.pos mc <= 2 ^ k ->
  0 <= times_place_k mc k (ord x) <= ord x.
Proof.
  intros V N Hx Hk Hc.
  assert (Pk : 0 < 2 ^ k) by (apply pow2_pos; lia).
  split; [unfold times_place_k; apply place_nonneg; [nia | exact Pk]|].
  destruct x as [s|s| |s m e]; try discriminate.
  - cbn [ord]. unfold times_place_k. cbn [Z.mul]. rewrite place_zero by exact Pk. lia.
  - cbn [ord] in *. destruct s.
    + assert (0 < INF) by (apply pow2_pos; lia). lia.
    + unfold times_place_k, place. apply capped_le_INF.
  - cbn [ord] in *. destruct s.
    + destruct (valid_finite true m e V) as (He & _).
      pose proof (units_pos m e ltac:(lia)). lia.
    + rewrite <- (place_exact m e k V Hk) at 2.
      destruct (valid_finite false m e V) as (He & _).
      pose proof (units_pos m e ltac:(lia)) as U.
      unfold times_place_k.
      apply place_le; [nia | exact Pk | nia | exact Pk |].
      apply Z.mul_le_mono_nonneg_r; [lia|].
      apply Z.mul_le_mono_nonneg_l; lia.
Qed.

Local Open Scope float_scope.

Lemma ord_mul_const (c : float) (mc : positive) (k : Z) (x : float) :
  Prim2SF c = S754_finite false mc (- k) ->
  (2 ^ 52 <= Z.pos mc)%Z -> (52 <= k <= 100)%Z ->
  is_nan (Prim2SF x) = false ->
  ord (Prim2SF (x * c)) = odd_ext (times_place_k mc k) (ord (Prim2SF x))
  /\ is_nan (Prim2SF (x * c)) = false.
Proof.
  intros C Hc Hk N. rewrite mul_spec, C. unfold SF64mul.
  apply SFmul_place_k; [apply Prim2SF_valid | exact N | exact Hc | exact Hk].
Qed.

(** Multiplying by a positive normal float keeps the order. *)
Lemma mul_const_le (c : float) (mc : positive) (k : Z) (x1 x2 : float) :
  Prim2SF c = S754_finite false mc (- k) ->
  (2 ^ 52 <= Z.pos mc)%Z -> (52 <= k <= 100)%Z ->
  (x1 <=? x2) = true -> (x1 * c <=? x2 * c) = true.
Proof.
  intros C Hc Hk H. destruct (leb_not_nan x1 x2 H) as [N1 N2].
  rewrite (leb_ord x1 x2 N1 N2) in H. apply Z.leb_le in H.
  destruct (ord_mul_const c mc k x1 C Hc Hk N1) as [O1 M1].
  destruct (ord_mul_const c mc k x2 C Hc Hk N2) as [O2 M2].
  rewrite (leb_ord _ _ M1 M2). apply Z.leb_le. rewrite O1, O2.
  apply times_place_k_le; lia.
Qed.

Lemma zero_leb (x : float) :
  (0 <=? x) = true <-> is_nan (Prim2SF x) = false /\ (0 <= ord (Prim2SF x))%Z.
Proof.
  split.
  - intros H. destruct (leb_not_nan 0 x H) as [N0 N]. split; [exact N|].
    rewrite (leb_ord 0 x N0 N) in H. now apply Z.leb_le in H.
  - intros [N H]. rewrite (leb_ord 0 x eq_refl N). now apply Z.leb_le.
Qed.

(** A product of a float that is not negative by a float between 0 and 1
    is between 0 and the first factor. *)
Lemma mul_const_shrinks (c : float) (mc : positive) (k : Z) (x : float) :
  Prim2SF c = S754_finite false mc (- k) ->
  (2 ^ 52 <= Z.pos mc)%Z -> (52 <= k <= 100)%Z -> (Z.pos mc <= 2 ^ k)%Z ->
  (0 <=? x) = true ->
  (0 <=? x * c) = true /\ (x * c <=? x) = true.
Proof.
  intros C Hc Hk H1 H. apply zero_leb in H as [N Hx].
  destruct (ord_mul_const c mc k x C Hc Hk N) as [O M].
  pose proof (times_place_k_shrinks (Prim2SF x) mc k (Prim2SF_valid x) N Hx
                ltac:(lia) H1) as B.
  assert (E : odd_ext (times_place_k mc k) (ord (Prim2SF x))
              = times_place_k mc k (ord (Prim2SF x))).
  { unfold odd_ext. destruct (Z.ltb_spec (ord (Prim2SF x)) 0); [lia | reflexivity]. }
  rewrite E in O. split.
  - apply zero_leb. split; [exact M|]. rewrite O. lia.
  - rewrite (leb_ord _ _ M N). apply Z.leb_le. rewrite O. lia.
Qed.

End FloatMore.

(** ** Energy targets and lean body mass *)

Module TargetMore.
Import FloatOrder FloatFacts FloatMore Profile.
Local Open Scope float_scope.

(** The activity factors are normal floats between 1 and 2. *)
Lemma factor_normal (levels : list (string * float)) (key : string) (f : float) :
  forallb (fun kv => match Prim2SF (snd kv) with
                     | S754_finite false mc (-52) => (2 ^ 52 <=? Z.pos mc)%Z
                     | _ => false
                     end) levels = true ->
  lookup key levels = Some f ->
  exists mc, Prim2SF f = S754_finite false mc (- 52) /\ (2 ^ 52 <= Z.pos mc)%Z.
Proof.
  induction levels as [|[k v] levels IH]; [discriminate|].
  cbn [forallb lookup snd]. intros H E.
  apply Bool.andb_true_iff in H as [Hv H].
  destruct (String.eqb key k).
  - injection E as <-.
    destruct (Prim2SF v) as [| | |[|] mc e]; try discriminate.
    destruct e as [|e|e]; try discriminate.
    destruct (Pos.eq_dec e 52) as [->|Ne].
    + exists mc. split; [reflexivity|]. now apply Z.leb_le.
    + exfalso. do 6 (destruct e as [e|e|]; try discriminate); congruence.
  - now apply IH.
Qed.

Lemma times_factor_le (levels : list (string * float)) (key : string) (f : float)
      (x1 x2 : float) :
  forallb (fun kv => match Prim2SF (snd kv) with
                     | S754_finite false mc (-52) => (2 ^ 52 <=? Z.pos mc)%Z
                     | _ => false
                     end) levels = true ->
  lookup key levels = Some f ->
  (x1 <=? x2) = true -> (x1 * f <=? x2 * f) = true.
Proof.
  intros H E L. destruct (factor_normal levels key f H E) as (mc & C & Hc).
  apply (mul_const_le f mc 52 x1 x2 C Hc); [lia | exact L].
Qed.

Lemma times_0_7_le (x1 x2 : float) :
  (x1 <=? x2) = true -> (x1 * 0.7 <=? x2 * 0.7) = true.
Proof.
  apply (mul_const_le 0.7 6305039478318694 53); [reflexivity | | lia].
  vm_compute. discriminate.
Qed.

Lemma times_0_7_shrinks (x : float) :
  (0 <=? x) = true -> (0 <=? x * 0.7) = true /\ (x * 0.7 <=? x) = true.
Proof.
  apply (mul_const_shrinks 0.7 6305039478318694 53); [reflexivity | | lia |];
    vm_compute; discriminate.
Qed.

Lemma leb_refl (x : float) : is_nan (Prim2SF x) = false -> (x <=? x) = true.
Proof. intros N. rewrite (leb_ord x x N N). apply Z.leb_refl. Qed.

End TargetMore.

Module TargetExtra.
Import FloatFacts FloatMore TargetMore Profile Samples TargetFacts Conditions.
Local Open Scope float_scope.

Ltac monotone_in_bmr known :=
  let L := fresh "L" in let G := fresh "G" in let B := fresh "B" in
  let E := fresh "E" in let T := fresh "T" in
  intros L G B; rewrite <- L, <- G;
  match goal with
  | |- context [lookup ?key ?factors] =>
      destruct (lookup key factors) eqn:E;
      [| exfalso; exact (known E) ]
  end;
  cbn [opt_le];
  match goal with
  | E' : lookup ?key ?factors = Some ?f |- _ =>
      assert (T : forall x1 x2, (x1 <=? x2) = true -> (x1 * f <=? x2 * f) = true)
        by (intros x1 x2; exact (times_factor_le factors key f x1 x2 eq_refl E'))
  end;
  split; [exact (T _ _ B)|];
  destruct (String.eqb (goal _) "Fat Loss");
  [exact (times_0_7_le _ _ (T _ _ B)) | exact (T _ _ B)].

Lemma lookup_text (p : profile) :
  MealText.valid p = true ->
  lookup (activity_level p) MealText.activity_factors = None -> False.
Proof.
  intros V E. destruct (valid_text_fields p V) as (_ & L & _).
  destruct (TargetClaims.factor_cases_text p L) as (f & E' & _). congruence.
Qed.

Lemma lookup_pexels (p : profile) :
  AiMealPexels.valid p = true ->
  lookup (activity_level p) AiMealPexels.activity_factors = None -> False.
Proof.
  intros V E. destruct (valid_pexels_fields p V) as (_ & L & _).
  destruct (TargetClaims.factor_cases_pexels p L) as (f & E' & _). congruence.
Qed.

Lemma lookup_hugging (p : profile) :
  MealHugging.valid p = true ->
  lookup (activity_level p) MealHugging.activity_factors = None -> False.
Proof.
  unfold MealHugging.valid. rewrite !Bool.andb_true_iff.
  intros ((_ & L) & _). apply in_options_In in L.
  destruct L as [<- | [<- | [<- | [<- | []]]]]; discriminate.
Qed.

(** X18: for two profiles with the same activity level and the same goal, a
    larger bmr never gives a smaller tdee or a smaller calorie goal, in the
    three scripts, on binary64 floats with their rounding. *)
Theorem energy_targets_monotone_in_bmr : forall p1 p2 : profile,
  (MealText.valid p1 = true ->
   activity_level p1 = activity_level p2 -> goal p1 = goal p2 ->
   (MealText.bmr p1 <=? MealText.bmr p2) = true ->
   opt_le (MealText.tdee p1) (MealText.tdee p2) = true
   /\ opt_le (MealText.calorie_goal p1) (MealText.calorie_goal p2) = true)
  /\ (AiMealPexels.valid p1 = true ->
      activity_level p1 = activity_level p2 -> goal p1 = goal p2 ->
      (AiMealPexels.bmr p1 <=? AiMealPexels.bmr p2) = true ->
      opt_le (AiMealPexels.tdee p1) (AiMealPexels.tdee p2) = true
      /\ opt_le (AiMealPexels.calorie_goal p1) (AiMealPexels.calorie_goal p2) = true)
  /\ (MealHugging.valid p1 = true ->
      activity_level p1 = activity_level p2 -> goal p1 = goal p2 ->
      (MealHugging.bmr p1 <=? MealHugging.bmr p2) = true ->
      opt_le (MealHugging.tdee p1) (MealHugging.tdee p2) = true
      /\ opt_le (MealHugging.calorie_goal p1) (MealHugging.calorie_goal p2) = true).
Proof.
  intros p1 p2. split; [|split]; intros V.
  - unfold MealText.calorie_goal, MealText.tdee.
    monotone_in_bmr (lookup_text p1 V).
  - unfold AiMealPexels.calorie_goal, AiMealPexels.tdee.
    monotone_in_bmr (lookup_pexels p1 V).
  - unfold MealHugging.calorie_goal, MealHugging.tdee.
    monotone_in_bmr (lookup_hugging p1 V).
Qed.

Lemma energy_targets_monotone_in_bmr_witness :
  AiMealPexels.valid male_20_50_170 = true
  /\ (AiMealPexels.bmr male_20_50_170 <=? AiMealPexels.bmr male_20_60_170) = true
  /\ opt_le (AiMealPexels.tdee male_20_50_170) (AiMealPexels.tdee male_20_60_170)
     = true
  /\ opt_le (AiMealPexels.calorie_goal male_20_50_170)
        (AiMealPexels.calorie_goal male_20_60_170) = true.
Proof.
  split; [reflexivity|]. split; [reflexivity|].
  exact (proj1 (proj2 (energy_targets_monotone_in_bmr male_20_50_170 male_20_60_170))
           eq_refl eq_refl eq_refl eq_refl).
Defined.

Ltac goal_below_tdee :=
  let t := fresh "t" in let E := fresh "E" in let H := fresh "H" in
  intros t E H; rewrite E;
  destruct (String.eqb (goal _) "Fat Loss");
  [ eexists; split; [reflexivity|]; now apply times_0_7_shrinks
  | exists t; split; [reflexivity|]; split; [exact H|];
    apply leb_refl; now apply zero_leb in H ].

(** X19: when tdee is not negative the calorie goal lies between 0 and tdee,
    whatever the goal, in the three scripts: the factor 0.7 of Fat Loss
    never raises the goal above tdee. *)
Theorem calorie_goal_at_most_tdee : forall p : profile,
  (forall t, MealText.tdee p = Some t -> (0 <=? t) = true ->
     exists g, MealText.calorie_goal p = Some g
               /\ (0 <=? g) = true /\ (g <=? t) = true)
  /\ (forall t, AiMealPexels.tdee p = Some t -> (0 <=? t) = true ->
        exists g, AiMealPexels.calorie_goal p = Some g
                  /\ (0 <=? g) = true /\ (g <=? t) = true)
  /\ (forall t, MealHugging.tdee p = Some t -> (0 <=? t) = true ->
        exists g, MealHugging.calorie_goal p = Some g
                  /\ (0 <=? g) = true /\ (g <=? t) = true).
Proof.
  intros p. split; [|split].
  - unfold MealText.calorie_goal. goal_below_tdee.
  - unfold AiMealPexels.calorie_goal. goal_below_tdee.
  - unfold MealHugging.calorie_goal. goal_below_tdee.
Qed.

Lemma calorie_goal_at_most_tdee_witness :
  AiMealPexels.tdee male_20_50_170 = Some 1761
  /\ (0 <=? 1761) = true
  /\ exists g, AiMealPexels.calorie_goal male_20_50_170 = Some g
               /\ (0 <=? g) = true /\ (g <=? 1761) = true.
Proof.
  split; [reflexivity|]. split; [reflexivity|].
  exact (proj1 (proj2 (calorie_goal_at_most_tdee male_20_50_170)) 1761
           eq_refl eq_refl).
Defined.

(** The lean fractions [1 - body_fat_percent / 100] of the sidebar are
    normal floats between one half and one. *)
Lemma lean_fraction_normal (bf : Z) :
  (5 <= bf <= 50)%Z ->
  exists mc,
    Prim2SF (1 - PyFloat.of_int bf / 100) = S754_finite false mc (- 53)
    /\ (2 ^ 52 <= Z.pos mc)%Z /\ (Z.pos mc <= 2 ^ 53)%Z.
Proof.
  intros H.
  assert (E : forallb
                (fun bf =>
                   match Prim2SF (1 - PyFloat.of_int bf / 100) with
                   | S754_finite false mc (-53) =>
                       ((2 ^ 52 <=? Z.pos mc) && (Z.pos mc <=? 2 ^ 53))%Z
                   | _ => false
                   end)
                (List.map Z.of_nat (seq 5 46)) = true) by (vm_compute; reflexivity).
  rewrite forallb_forall in E. specialize (E bf).
  assert (Hin : In bf (List.map Z.of_nat (seq 5 46))).
  { apply in_map_iff. exists (Z.to_nat bf). split; [lia|]. apply in_seq. lia. }
  specialize (E Hin).
  destruct (Prim2SF (1 - PyFloat.of_int bf / 100)) as [| | |[|] mc e]; try discriminate.
  destruct e as [|e|e]; try discriminate.
  destruct (Pos.eq_dec e 53) as [->|Ne].
  - exists mc. apply Bool.andb_true_iff in E as [E1 E2].
    apply Z.leb_le in E1, E2. auto.
  - exfalso. do 6 (destruct e as [e|e|]; try discriminate); congruence.
Qed.

Lemma lean_mass_bounds (w : float) (bf : Z) :
  (5 <= bf <= 50)%Z -> (0 <=? w) = true ->
  (0 <=? w * (1 - PyFloat.of_int bf / 100)) = true
  /\ (w * (1 - PyFloat.of_int bf / 100) <=? w) = true.
Proof.
  intros Hb Hw. destruct (lean_fraction_normal bf Hb) as (mc & C & H1 & H2).
  apply (mul_const_shrinks _ mc 53 w C H1); [lia | exact H2 | exact Hw].
Qed.

Lemma weight_nonneg (lo w : float) :
  (0 <=? lo) = true -> (lo <=? w) = true -> (0 <=? w) = true.
Proof.
  intros H0 H. destruct (leb_not_nan lo w H) as [N1 N2].
  apply zero_leb in H0 as [_ H0].
  rewrite (leb_ord lo w N1 N2) in H. apply Z.leb_le in H.
  apply zero_leb. split; [exact N2 | lia].
Qed.

(** X20: for every valid profile the lean body mass lies between 0 and the
    weight, and the protein target is at most the target of the whole
    weight, in ai_meal_pexels.py and in meal_hugging.py. *)
Theorem lean_body_mass_at_most_weight : forall p : profile,
  (AiMealPexels.valid p = true ->
   (0 <=? AiMealPexels.lbm_kg p) = true
   /\ (AiMealPexels.lbm_kg p <=? weight p) = true
   /\ (AiMealPexels.protein_target p <=? PyFloat.round1 (weight p * 1.8)) = true)
  /\ (MealHugging.valid p = true ->
      (0 <=? MealHugging.lbm_kg p) = true
      /\ (MealHugging.lbm_kg p <=? weight p) = true
      /\ (MealHugging.protein_target p <=? PyFloat.round1 (weight p * 1.8)) = true).
Proof.
  intros p. split; intros V.
  - destruct (valid_pexels_fields p V) as (_ & _ & _ & _ & Hb).
    assert (Hw : (0 <=? weight p) = true).
    { unfold AiMealPexels.valid in V. rewrite !Bool.andb_true_iff in V.
      destruct V as (((((_ & W) & _) & _) & _) & _).
      now apply (weight_nonneg 10.0). }
    destruct (lean_mass_bounds (weight p) (body_fat_percent p) Hb Hw) as [L0 L1].
    unfold AiMealPexels.protein_target, AiMealPexels.lbm_kg, AiMealPexels.fat_percent.
    split; [exact L0|]. split; [exact L1|]. now apply round1_times_1_8_le.
  - assert (Hb : (5 <= body_fat_percent p <= 50)%Z).
    { unfold MealHugging.valid in V. rewrite !Bool.andb_true_iff, !Z.leb_le in V.
      tauto. }
    assert (Hw : (0 <=? weight p) = true).
    { unfold MealHugging.valid in V. rewrite !Bool.andb_true_iff in V.
      destruct V as (((((_ & W) & _) & _) & _) & _).
      now apply (weight_nonneg 30.0). }
    destruct (lean_mass_bounds (weight p) (body_fat_percent p) Hb Hw) as [L0 L1].
    unfold MealHugging.protein_target, MealHugging.lbm_kg.
    split; [exact L0|]. split; [exact L1|]. now apply round1_times_1_8_le.
Qed.

Lemma lean_body_mass_at_most_weight_witness :
  AiMealPexels.valid male_20_50_170 = true
  /\ (AiMealPexels.lbm_kg male_20_50_170 <=? 50.0) = true
  /\ (AiMealPexels.protein_target male_20_50_170 <=? PyFloat.round1 (50.0 * 1.8)) = true.
Proof.
  split; [reflexivity|].
  destruct (proj1 (lean_body_mass_at_most_weight male_20_50_170) eq_refl)
    as (_ & L & P).
  split; [exact L | exact P].
Defined.

End TargetExtra.

(** ** ai_meal_pexels.py: requests sent and elements written *)

Module CountFacts.
Import Text Eff ImageFacts ImageMore AiMealPexels Conditions.

Section WithWorld.
Variable World : Type.
Variable getenv_PEXELS_API_KEY : World -> option str.
Variable requests_get : World -> str -> reply * World.
Variable unicode_lower : str -> str.
Variable Nd : char -> bool.

Local Abbreviation show_meal' :=
  (show_meal World getenv_PEXELS_API_KEY requests_get unicode_lower).
Local Abbreviation show_day' :=
  (show_day World getenv_PEXELS_API_KEY requests_get unicode_lower).
Local Abbreviation show_plan' :=
  (show_plan World getenv_PEXELS_API_KEY requests_get unicode_lower Nd).
Local Abbreviation sent st := (List.length (queries st)).
Local Abbreviation shown st := (List.length (page st)).

(** A computation that sends at most [n] requests. *)
Local Abbreviation sends_at_most n c :=
  (forall st : state World, (sent (snd (c st)) <= sent st + n)%nat).

Lemma bind_sends {A B} (c : M (state World) A) (k : A -> M (state World) B) n m :
  sends_at_most n c -> (forall a, sends_at_most m (k a)) ->
  sends_at_most (n + m) (bind c k).
Proof.
  intros Hc Hk st. unfold bind. specialize (Hc st).
  destruct (c st) as [[a|e] st']; cbn [snd] in *; [|lia].
  specialize (Hk a st'). lia.
Qed.

Lemma emit_sends (x : ui) : sends_at_most 0 (emit World x).
Proof. intros st. cbn. lia. Qed.

Lemma show_meal_sends (m : str * str) :
  sends_at_most (if truthy (snd m) then 3 else 0) (show_meal' m).
Proof.
  destruct m as [t d]. cbn [snd]. unfold show_meal.
  destruct (truthy d); [|intros st; cbn; lia].
  apply (bind_sends _ _ 3 0).
  - intros st. unfold get_meal_image.
    destruct (search_effect World getenv_PEXELS_API_KEY requests_get unicode_lower d st)
      as (n & Hn & _ & Hq).
    rewrite Hq, length_app, length_rev, length_firstn. cbn [List.length]. lia.
  - intros image_url. apply (bind_sends _ _ 0 0).
    + destruct image_url as [[|c url]|]; apply emit_sends.
    + intros _. apply emit_sends.
Qed.

Lemma show_meals_sends (ms : list (str * str)) :
  sends_at_most (3 * List.length (filter (fun m => truthy (snd m)) ms))
                (for_each show_meal' ms).
Proof.
  induction ms as [|m ms IH]; [intros st; cbn; lia|].
  cbn [for_each filter]. intros st.
  pose proof (bind_sends (show_meal' m) (fun _ => for_each show_meal' ms) _ _
                (show_meal_sends m) (fun _ => IH) st) as H.
  destruct (truthy (snd m)); cbn [List.length] in *; lia.
Qed.

Lemma show_days_sends (ds : list DayPlan) :
  sends_at_most (3 * List.length (flat_map entries ds)) (for_each show_day' ds).
Proof.
  induction ds as [|d ds IH]; [intros st; cbn; lia|].
  cbn [for_each flat_map]. intros st. rewrite length_app.
  assert (Hd : sends_at_most (3 * List.length (entries d)) (show_day' d)).
  { unfold show_day.
    apply (bind_sends _ _ 0 _ (emit_sends _) (fun _ => show_meals_sends (meals d))). }
  pose proof (bind_sends (show_day' d) (fun _ => for_each show_day' ds) _ _
                Hd (fun _ => IH) st) as H.
  lia.
Qed.

Lemma show_plan_sends (plan : str) :
  sends_at_most (3 * List.length (flat_map entries (parse_plan Nd plan)))
                (show_plan' plan).
Proof.
  intros st. rewrite show_plan_unfold.
  pose proof (show_days_sends (parse_plan Nd plan)
                (set_page (st_subheader plan_title
                   :: (if short_plan Nd plan then [st_warning warning_text] else [])
                   ++ page st) st)) as H.
  exact H.
Qed.

(** With a service that answers, what the rendering writes. *)
Lemma show_meal_shown (m : str * str) (st : state World) :
  answers World requests_get ->
  exists st',
    show_meal' m st = (Ok tt, st')
    /\ shown st' = (shown st + if truthy (snd m) then 2 else 0)%nat.
Proof.
  intros H. destruct m as [t d]. cbn [snd]. unfold show_meal.
  destruct (truthy d); [|exists st; unfold ret; split; [reflexivity | lia]].
  unfold bind at 1. unfold get_meal_image, search_pexels.
  destruct (loop_answers World getenv_PEXELS_API_KEY requests_get
              (fallback_queries unicode_lower d) H st) as (r & st1 & E).
  pose proof (search_loop_effect World getenv_PEXELS_API_KEY requests_get
                (fallback_queries unicode_lower d) st) as (n & Hp & _).
  rewrite E in *. cbn [snd] in Hp.
  unfold bind, emit, modify.
  destruct r as [[|c url]|]; eexists; (split; [reflexivity|]);
    cbn [page set_page List.length]; rewrite Hp; lia.
Qed.

Lemma show_meals_shown (ms : list (str * str)) :
  answers World requests_get ->
  forall st, exists st',
    for_each show_meal' ms st = (Ok tt, st')
    /\ shown st'
       = (shown st + 2 * List.length (filter (fun m => truthy (snd m)) ms))%nat.
Proof.
  intros H. induction ms as [|m ms IH]; intros st.
  - exists st. split; [reflexivity | cbn; lia].
  - cbn [for_each filter]. unfold bind.
    destruct (show_meal_shown m st H) as (st1 & -> & S1).
    destruct (IH st1) as (st2 & -> & S2).
    exists st2. split; [reflexivity|].
    destruct (truthy (snd m)); cbn [List.length] in *; lia.
Qed.

Lemma show_days_shown (ds : list DayPlan) :
  answers World requests_get ->
  forall st, exists st',
    for_each show_day' ds st = (Ok tt, st')
    /\ shown st'
       = (shown st + List.length ds + 2 * List.length (flat_map entries ds))%nat.
Proof.
  intros H. induction ds as [|d ds IH]; intros st.
  - exists st. split; [reflexivity | cbn; lia].
  - cbn [for_each flat_map]. unfold bind at 1. unfold show_day at 1.
    unfold bind at 1. unfold emit at 1, modify at 1.
    destruct (show_meals_shown (meals d) H
                (set_page (st_expander (heading d) :: page st) st))
      as (st1 & -> & S1).
    destruct (IH st1) as (st2 & -> & S2).
    exists st2. split; [reflexivity|].
    rewrite length_app. unfold entries at 1.
    cbn [page set_page List.length] in *. lia.
Qed.

End WithWorld.
End CountFacts.

Module CountExtra.
Import Text Eff ImageFacts ImageMore AiMealPexels Conditions CountFacts Samples.

(** X21: the rendering of ai_meal_pexels.py sends at most three requests
    for each meal entry that has a description, whatever the service does;
    when the service answers, it returns and writes the title, the warning
    of a short plan, one element per day and two per such entry. *)
Theorem pexels_rendering_counts :
  forall (World : Type) (getenv_PEXELS_API_KEY : World -> option str)
         (requests_get : World -> str -> reply * World)
         (unicode_lower : str -> str) (Nd : char -> bool)
         (plan : str) (st : state World),
    (List.length
       (queries (snd (show_plan World getenv_PEXELS_API_KEY requests_get
                        unicode_lower Nd plan st)))
     <= List.length (queries st)
        + 3 * List.length (flat_map entries (parse_plan Nd plan)))%nat
    /\ (answers World requests_get ->
        exists st',
          show_plan World getenv_PEXELS_API_KEY requests_get unicode_lower Nd
            plan st = (Ok tt, st')
          /\ List.length (page st')
             = (List.length (page st) + 1
                + (if short_plan Nd plan then 1 else 0)
                + List.length (parse_plan Nd plan)
                + 2 * List.length (flat_map entries (parse_plan Nd plan)))%nat).
Proof.
  intros World getenv requests_get unicode_lower Nd plan st. split.
  - apply show_plan_sends.
  - intros H. rewrite show_plan_unfold.
    destruct (show_days_shown World getenv requests_get unicode_lower
                (parse_plan Nd plan) H
                (set_page (st_subheader plan_title
                   :: (if short_plan Nd plan then [st_warning warning_text] else [])
                   ++ page st) st)) as (st' & -> & S).
    exists st'. split; [reflexivity|]. rewrite S.
    cbn [page set_page List.length]. rewrite length_app.
    destruct (short_plan Nd plan); cbn [List.length]; lia.
Qed.

Lemma pexels_rendering_counts_witness :
  exists st',
    show_plan nat key_set third_request_succeeds (fun s => s) (fun _ => false)
      plan_two_days fresh = (Ok tt, st')
    /\ List.length (page st') = 10%nat.
Proof.
  destruct (proj2 (pexels_rendering_counts nat key_set third_request_succeeds
                     (fun s => s) (fun _ => false) plan_two_days fresh))
    as (st' & E & S).
  - intros w q. unfold third_request_succeeds. cbn [fst].
    destruct (w <? 2)%nat; [discriminate | exact I].
  - exists st'. split; [exact E|]. rewrite S. vm_compute. reflexivity.
Defined.

End CountExtra.

(** ** Plans without a day heading *)

Module NoHeadingFacts.
Import Text Reference TextFacts PlanFacts GroceryFacts Conditions.

Section WithDigits.
Variable Nd : char -> bool.

Lemma split_before_none (s : str) :
  forall gap,
    count_days Nd s = 0%nat ->
    split_before (begins_with_day Nd) s gap = [rev gap ++ s].
Proof.
  induction s as [|c s IH]; intros gap H.
  - simpl. now rewrite app_nil_r.
  - cbn [count_days] in H. cbn [split_before].
    destruct (begins_with_day Nd (c :: s)); [discriminate|].
    rewrite IH by exact H. simpl. now rewrite <- app_assoc.
Qed.

End WithDigits.
End NoHeadingFacts.

Module NoHeadingExtra.
Import Text Reference TextFacts PlanFacts GroceryFacts Conditions NoHeadingFacts.

(** X22: a plan in which no day heading begins is one segment: a blank plan
    renders no day, and any other plan is one record, under its first
    line, in ai_meal_pexels.py and in meal_hugging.py (on the stripped
    text). *)
Theorem plan_without_headings :
  forall (Nd : char -> bool) (plan : str),
    count_days Nd (strip plan) = 0%nat ->
    AiMealPexels.segments Nd plan = [strip plan]
    /\ MealHugging.segments Nd (strip plan) = [strip plan]
    /\ (blank plan = true ->
        AiMealPexels.parse_plan Nd plan = []
        /\ MealHugging.parse_plan Nd (strip plan) = [])
    /\ (blank plan = false ->
        exists c l rest,
          splitlines (strip plan) = (c :: l) :: rest
          /\ AiMealPexels.parse_plan Nd plan
             = [ {| AiMealPexels.heading := strip (c :: l);
                    AiMealPexels.content := join [NL] rest;
                    AiMealPexels.meals :=
                      Re.findall2 Nd AiMealPexels.meal_re (join [NL] rest) |} ]
          /\ MealHugging.parse_plan Nd (strip plan)
             = [ {| MealHugging.heading := c :: l;
                    MealHugging.content := rest |} ]).
Proof.
  intros Nd plan H.
  assert (E1 : AiMealPexels.segments Nd plan = [strip plan])
    by (rewrite pexels_segments_split; now apply split_before_none).
  assert (E2 : MealHugging.segments Nd (strip plan) = [strip plan])
    by (rewrite hugging_segments_split; now apply split_before_none).
  split; [exact E1|]. split; [exact E2|].
  unfold AiMealPexels.parse_plan, MealHugging.parse_plan. rewrite E1, E2.
  cbn [List.map]. unfold AiMealPexels.parse_day, MealHugging.parse_day.
  rewrite strip_twice. split.
  - intros Hb. apply strip_nil_blank in Hb. rewrite Hb. split; reflexivity.
  - intros Hb.
    assert (Hs : strip plan <> []).
    { intros E. apply strip_nil_blank in E. congruence. }
    destruct (splitlines_strip_cons plan Hs) as (c & l & rest & E & _).
    exists c, l, rest. rewrite E. repeat split; reflexivity.
Qed.

Lemma plan_without_headings_witness :
  count_days (fun _ => false) (strip (lines [u "Monday"; u "**Lunch**: Soup"]))
  = 0%nat
  /\ AiMealPexels.segments (fun _ => false) (lines [u "Monday"; u "**Lunch**: Soup"])
     = [strip (lines [u "Monday"; u "**Lunch**: Soup"])].
Proof.
  split; [reflexivity|].
  exact (proj1 (plan_without_headings (fun _ => false)
                  (lines [u "Monday"; u "**Lunch**: Soup"]) eq_refl)).
Defined.

End NoHeadingExtra.
